(** * SSE stream transformers of the gateway (src/utils/stream.js)

    A shallow embedding of [createChatStreamTransformer] and
    [createCompletionStreamTransformer], together with the parts of the
    JavaScript platform they call: strings of UTF-16 code units,
    [TextDecoder] and [TextEncoder] for UTF-8, Number, [JSON.parse] and
    [JSON.stringify].

    A transformer is modelled by its variables ([buffer], [isFinished],
    [pastThinkTag]) as a state record, and its [transform] and [flush]
    methods as functions from a state to the next state and the list of
    byte arrays given to [controller.enqueue]. A stream is the list of
    its chunks: [transform] is called on each in turn and [flush] once
    when the stream is closed. Exceptions are results: [JSON.parse]
    returns [None] for its SyntaxError and [Get] for the TypeError of
    reading a property of [null]; both are caught by the [try] around
    the body of the line loop. It is assumed that [controller.enqueue]
    accepts every frame; limits of an engine on the size or nesting of
    its values are not modelled.

    After the transformers come the other functions of the gateway that
    can be read without its helper modules: [streamToBuffer] of the same
    file, the bearer token check of src/index.js, and the part of the
    handlers of src/routes (completion, chat, embeddings, rag) that
    validates a request and works out the parameters of the model call.
    For these, [request.json()] is taken to have resolved to a value,
    and the helpers of utils/models.js are parameters. *)

From Stdlib Require Import String Ascii ZArith List Bool Lia SpecFloat.
Import ListNotations.
Local Open Scope Z_scope.

(** ** JavaScript strings

    A string value is a sequence of UTF-16 code units, each in [0, 65535].
    A [Uint8Array] is a sequence of bytes, each in [0, 255]. *)

Definition jsstring := list Z.
Definition bytes := list Z.

Module Str.

(** A string literal of the source, all of whose characters are ASCII. *)
Fixpoint lit (s : string) : jsstring :=
  match s with
  | EmptyString => []
  | String c r => Z.of_N (N_of_ascii c) :: lit r
  end.
Arguments lit s%_string.

(** [a === b] on strings. *)
Fixpoint eqb (a b : jsstring) : bool :=
  match a, b with
  | [], [] => true
  | x :: a', y :: b' => (x =? y) && eqb a' b'
  | _, _ => false
  end.

(** [s.startsWith(p)]. *)
Fixpoint startsWith (s p : jsstring) : bool :=
  match p, s with
  | [], _ => true
  | x :: p', y :: s' => (x =? y) && startsWith s' p'
  | _ :: _, [] => false
  end.

(** [s.indexOf(needle)]: the index of the first occurrence, or -1. *)
Fixpoint indexOf_from (s needle : jsstring) (pos : Z) : Z :=
  if startsWith s needle then pos
  else match s with
       | [] => -1
       | _ :: s' => indexOf_from s' needle (pos + 1)
       end.

Definition indexOf (s needle : jsstring) : Z := indexOf_from s needle 0.

Definition len (s : jsstring) : Z := Z.of_nat (length s).

(** Relative index of [slice]: negative counts from the end, then clamped. *)
Definition slice_index (s : jsstring) (i : Z) : Z :=
  if i <? 0 then Z.max (len s + i) 0 else Z.min i (len s).

(** [s.slice(start, end)]. *)
Definition slice (s : jsstring) (start stop : Z) : jsstring :=
  let from := slice_index s start in
  let to := slice_index s stop in
  firstn (Z.to_nat (to - from)) (skipn (Z.to_nat from) s).

(** [s.slice(start)]. *)
Definition slice_from (s : jsstring) (start : Z) : jsstring :=
  skipn (Z.to_nat (slice_index s start)) s.

(** [s.substring(start)]: the argument is clamped to [0, length]. *)
Definition substring_from (s : jsstring) (start : Z) : jsstring :=
  skipn (Z.to_nat (Z.min (Z.max start 0) (len s))) s.

(** WhiteSpace and LineTerminator code units, the ones [trim] strips. *)
Definition is_space (c : Z) : bool :=
  ((9 <=? c) && (c <=? 13)) || (c =? 32) || (c =? 160) || (c =? 5760)
  || ((8192 <=? c) && (c <=? 8202)) || (c =? 8232) || (c =? 8233)
  || (c =? 8239) || (c =? 8287) || (c =? 12288) || (c =? 65279).

Fixpoint trim_start (s : jsstring) : jsstring :=
  match s with
  | c :: s' => if is_space c then trim_start s' else s
  | [] => []
  end.

(** [s.trim()]. *)
Definition trim (s : jsstring) : jsstring :=
  rev (trim_start (rev (trim_start s))).

End Str.

(** ** UTF-8: TextDecoder and TextEncoder

    [new TextDecoder()] is a UTF-8 decoder with replacement error mode that
    strips a leading byte order mark. Both transformers call
    [decoder.decode(chunk)] without the [stream] option, so every call
    starts from the initial decoder state and flushes at the end of the
    chunk. *)

Module Utf8.

Record state := mkState {
  code_point : Z;
  bytes_seen : Z;
  bytes_needed : Z;
  lower_boundary : Z;
  upper_boundary : Z
}.

Definition initial : state := mkState 0 0 0 128 191.

Definition REPLACEMENT : Z := 65533.

(** The handler on a byte when no continuation byte is awaited. *)
Definition lead (b : Z) : state * list Z :=
  if (0 <=? b) && (b <=? 127) then (initial, [b])
  else if (194 <=? b) && (b <=? 223) then
    (mkState (Z.land b 31) 0 1 128 191, [])
  else if (224 <=? b) && (b <=? 239) then
    (mkState (Z.land b 15) 0 2
       (if b =? 224 then 160 else 128) (if b =? 237 then 159 else 191), [])
  else if (240 <=? b) && (b <=? 244) then
    (mkState (Z.land b 7) 0 3
       (if b =? 240 then 144 else 128) (if b =? 244 then 143 else 191), [])
  else (initial, [REPLACEMENT]).

(** One step of the decoder. A byte outside the awaited range ends the
    pending sequence with an error and is then processed again from the
    initial state. *)
Definition handler (st : state) (b : Z) : state * list Z :=
  if bytes_needed st =? 0 then lead b
  else if (b <? lower_boundary st) || (upper_boundary st <? b) then
    let '(st', out) := lead b in (st', REPLACEMENT :: out)
  else
    let cp := Z.lor (Z.shiftl (code_point st) 6) (Z.land b 63) in
    if bytes_seen st + 1 =? bytes_needed st then (initial, [cp])
    else (mkState cp (bytes_seen st + 1) (bytes_needed st) 128 191, []).

(** The code points of a whole byte sequence; an unfinished sequence at
    the end of the input is an error. *)
Fixpoint run (st : state) (bs : bytes) : list Z :=
  match bs with
  | [] => if bytes_needed st =? 0 then [] else [REPLACEMENT]
  | b :: bs' => let '(st', out) := handler st b in out ++ run st' bs'
  end.

Definition strip_bom (cps : list Z) : list Z :=
  match cps with
  | c :: r => if c =? 65279 then r else cps
  | [] => []
  end.

(** Code points to UTF-16 code units. *)
Definition utf16 (cp : Z) : jsstring :=
  if cp <? 65536 then [cp]
  else [55296 + Z.shiftr (cp - 65536) 10; 56320 + Z.land (cp - 65536) 1023].

(** [new TextDecoder().decode(chunk)]. *)
Definition decode (chunk : bytes) : jsstring :=
  flat_map utf16 (strip_bom (run initial chunk)).

Definition is_high (c : Z) : bool := (55296 <=? c) && (c <=? 56319).
Definition is_low (c : Z) : bool := (56320 <=? c) && (c <=? 57343).

(** The UTF-8 bytes of one scalar value. *)
Definition encode_cp (cp : Z) : bytes :=
  if cp <? 128 then [cp]
  else if cp <? 2048 then [192 + Z.shiftr cp 6; 128 + Z.land cp 63]
  else if cp <? 65536 then
    [224 + Z.shiftr cp 12; 128 + Z.land (Z.shiftr cp 6) 63; 128 + Z.land cp 63]
  else
    [240 + Z.shiftr cp 18; 128 + Z.land (Z.shiftr cp 12) 63;
     128 + Z.land (Z.shiftr cp 6) 63; 128 + Z.land cp 63].

(** [new TextEncoder().encode(s)]: surrogate pairs are combined and a lone
    surrogate becomes U+FFFD. *)
Fixpoint encode (s : jsstring) : bytes :=
  match s with
  | [] => []
  | c :: rest =>
      if is_high c then
        match rest with
        | d :: rest' =>
            if is_low d then
              encode_cp (65536 + (c - 55296) * 1024 + (d - 56320)) ++ encode rest'
            else encode_cp REPLACEMENT ++ encode rest
        | [] => encode_cp REPLACEMENT
        end
      else if is_low c then encode_cp REPLACEMENT ++ encode rest
      else encode_cp c ++ encode rest
  end.

End Utf8.

(** ** Numbers

    A Number value is an IEEE 754 binary64 float, here Rocq's
    specification floats. [of_decimal] is the value of a decimal literal
    (round to nearest, ties to even) and [toString] is Number::toString in
    radix 10: the shortest decimal that reads back as the same float. *)

Module Num.

Definition number := spec_float.

(** ToBoolean of a Number: false on +0, -0 and NaN. *)
Definition truthy (x : number) : bool :=
  match x with
  | S754_zero _ | S754_nan => false
  | _ => true
  end.

(** The binary64 float nearest to [p / q] for [0 <= p] and [0 < q]. *)
Definition round_ratio (neg : bool) (p q : Z) : number :=
  if p <=? 0 then S754_zero neg
  else
    let l := Z.log2 p - Z.log2 q in
    let ge := if l >=? 0 then q * 2 ^ l <=? p else q <=? p * 2 ^ (- l) in
    let e := Z.max ((if ge then l else l - 1) - 52) (-1074) in
    let num := if e >=? 0 then p else p * 2 ^ (- e) in
    let den := if e >=? 0 then q * 2 ^ e else q in
    let m := num / den in
    let r := num mod den in
    let up := (den <? 2 * r) || ((den =? 2 * r) && Z.odd m) in
    let m1 := if up then m + 1 else m in
    let m2 := if m1 =? 2 ^ 53 then 2 ^ 52 else m1 in
    let e2 := if m1 =? 2 ^ 53 then e + 1 else e in
    match m2 with
    | Zpos m3 => if e2 <=? 971 then S754_finite neg m3 e2 else S754_infinity neg
    | _ => S754_zero neg
    end.

(** The Number denoted by the digits [m] scaled by ten to the [e10]. *)
Definition of_decimal (neg : bool) (m e10 : Z) : number :=
  if m <=? 0 then S754_zero neg
  else if e10 >=? 0 then round_ratio neg (m * 10 ^ e10) 1
  else round_ratio neg m (10 ^ (- e10)).

Definition of_Z (z : Z) : number := of_decimal (z <? 0) (Z.abs z) 0.

Definition eqb (x y : number) : bool :=
  match x, y with
  | S754_finite s m e, S754_finite s' m' e' =>
      Bool.eqb s s' && (Zpos m =? Zpos m') && (e =? e')
  | S754_zero s, S754_zero s' => Bool.eqb s s'
  | S754_infinity s, S754_infinity s' => Bool.eqb s s'
  | S754_nan, S754_nan => true
  | _, _ => false
  end.

Fixpoint digits_fuel (fuel : nat) (n : Z) (acc : jsstring) : jsstring :=
  match fuel with
  | O => acc
  | S f => if n <? 10 then (48 + n) :: acc
           else digits_fuel f (n / 10) ((48 + n mod 10) :: acc)
  end.

(** The decimal digits of a natural number. *)
Definition digits (n : Z) : jsstring :=
  digits_fuel (S (Z.to_nat (Z.log2 n))) n [].

(** [p / q] divided by ten to the [d], as a fraction. *)
Definition scale10 (p q d : Z) : Z * Z :=
  if d >=? 0 then (p, q * 10 ^ d) else (p * 10 ^ (- d), q).

(** The [n] with [10 ^ (n - 1) <= p / q < 10 ^ n], searched from [n]. *)
Fixpoint magnitude (fuel : nat) (p q n : Z) : Z :=
  match fuel with
  | O => n
  | S f =>
      let '(a, b) := scale10 p q n in
      if b <=? a then magnitude f p q (n + 1)
      else let '(a', b') := scale10 p q (n - 1) in
           if a' <? b' then magnitude f p q (n - 1) else n
  end.

(** The digits [s] and the exponent [n] of Number::toString for the
    positive float [x] of value [p / q], trying [k] digits and more. *)
Fixpoint shortest (fuel : nat) (x : number) (p q n0 k : Z) : Z * Z :=
  let '(a, b) := scale10 p q (n0 - k) in
  let lo := a / b in
  let hi := lo + 1 in
  match fuel with
  | O => (lo, n0)
  | S f =>
      let ok c := eqb (of_decimal false c (n0 - k)) x in
      let pick :=
        match ok lo, ok hi with
        | true, true =>
            if 2 * a <? (lo + hi) * b then Some lo
            else if (lo + hi) * b <? 2 * a then Some hi
            else Some (if Z.even lo then lo else hi)
        | true, false => Some lo
        | false, true => Some hi
        | false, false => None
        end in
      match pick with
      | Some c => if c =? 10 ^ k then (10 ^ (k - 1), n0 + 1) else (c, n0)
      | None => shortest f x p q n0 (k + 1)
      end
  end.

Definition zeros (n : Z) : jsstring := repeat 48 (Z.to_nat n).

(** The layout of the digits [ds] with exponent [n]. *)
Definition layout (ds : jsstring) (n : Z) : jsstring :=
  let k := Z.of_nat (length ds) in
  if (-5 <=? n) && (n <=? 21) then
    if k <=? n then ds ++ zeros (n - k)
    else if 0 <? n then firstn (Z.to_nat n) ds ++ [46] ++ skipn (Z.to_nat n) ds
    else [48; 46] ++ zeros (- n) ++ ds
  else
    let e := n - 1 in
    let ex := [101; if e <? 0 then 45 else 43] ++ digits (Z.abs e) in
    match ds with
    | [d] => d :: ex
    | d :: rest => d :: 46 :: rest ++ ex
    | [] => ex
    end.

(** Number::toString(x, 10). *)
Definition toString (x : number) : jsstring :=
  match x with
  | S754_nan => Str.lit "NaN"
  | S754_zero _ => Str.lit "0"
  | S754_infinity s => (if s then [45] else []) ++ Str.lit "Infinity"
  | S754_finite s m e =>
      let p := if e >=? 0 then Zpos m * 2 ^ e else Zpos m in
      let q := if e >=? 0 then 1 else 2 ^ (- e) in
      match round_ratio false p q with
      | S754_finite _ _ _ as y =>
          let n0 := magnitude 700 p q 0 in
          let '(s10, n) := shortest 17 y p q n0 1 in
          (if s then [45] else []) ++ layout (digits s10) n
      | S754_infinity _ => (if s then [45] else []) ++ Str.lit "Infinity"
      | _ => Str.lit "0"
      end
  end.

End Num.
(** ** Values

    The values the transformers handle: what [JSON.parse] returns, the
    object literals they build, and [undefined]. An object is the list of
    its own properties in enumeration order. *)

#[warnings="-register-all"]
Inductive value :=
| VUndefined
| VNull
| VBool (b : bool)
| VNum (n : Num.number)
| VStr (s : jsstring)
| VArr (items : list value)
| VObj (props : list (jsstring * value)).

(** ToBoolean. *)
Definition ToBoolean (v : value) : bool :=
  match v with
  | VUndefined | VNull => false
  | VBool b => b
  | VNum n => Num.truthy n
  | VStr s => negb (Str.eqb s [])
  | VArr _ | VObj _ => true
  end.

Fixpoint lookup (props : list (jsstring * value)) (k : jsstring) : value :=
  match props with
  | [] => VUndefined
  | (k', v) :: r => if Str.eqb k k' then v else lookup r k
  end.

(** [v.k] for a key [k] that no built-in prototype defines and that is
    neither an index nor [length] (such are [response], [text] and
    [content]). [None] is the TypeError of reading a property of [null] or
    [undefined]. *)
Definition Get (v : value) (k : jsstring) : option value :=
  match v with
  | VUndefined | VNull => None
  | VObj props => Some (lookup props k)
  | _ => Some VUndefined
  end.

(** [v?.k], for such a key. *)
Definition OptGet (v : value) (k : jsstring) : value :=
  match v with
  | VObj props => lookup props k
  | _ => VUndefined
  end.

(** [a || b]. *)
Definition or_else (a b : value) : value := if ToBoolean a then a else b.

(** ** JSON *)

Module JSON.

Definition is_digit (c : Z) : bool := (48 <=? c) && (c <=? 57).

Fixpoint digits_value (ds : jsstring) (acc : Z) : Z :=
  match ds with
  | [] => acc
  | d :: r => digits_value r (10 * acc + (d - 48))
  end.

(** The index a property key denotes, when it is an array index: a
    canonical numeric string below 2^32 - 1. *)
Definition array_index (k : jsstring) : option Z :=
  match k with
  | [] => None
  | d :: r =>
      if forallb is_digit k && ((negb (d =? 48)) || Str.eqb r [])
         && (Z.of_nat (length k) <=? 10) && (digits_value k 0 <=? 4294967294)
      then Some (digits_value k 0) else None
  end.

Fixpoint has_key (props : list (jsstring * value)) (k : jsstring) : bool :=
  match props with
  | [] => false
  | (k', _) :: r => Str.eqb k k' || has_key r k
  end.

Fixpoint replace (props : list (jsstring * value)) (k : jsstring) (v : value)
  : list (jsstring * value) :=
  match props with
  | [] => []
  | (k', v') :: r => if Str.eqb k k' then (k', v) :: r else (k', v') :: replace r k v
  end.

Fixpoint insert_index (props : list (jsstring * value)) (i : Z) (k : jsstring)
  (v : value) : list (jsstring * value) :=
  match props with
  | [] => [(k, v)]
  | (k', v') :: r =>
      match array_index k' with
      | Some j => if j <? i then (k', v') :: insert_index r i k v
                  else (k, v) :: props
      | None => (k, v) :: props
      end
  end.

(** CreateDataProperty on an ordinary object: an existing key keeps its
    place; array indices are enumerated first, in ascending order; other
    keys in the order of their creation. *)
Definition define (props : list (jsstring * value)) (k : jsstring) (v : value)
  : list (jsstring * value) :=
  if has_key props k then replace props k v
  else match array_index k with
       | Some i => insert_index props i k v
       | None => props ++ [(k, v)]
       end.

(** *** JSON.parse *)

Inductive presult (A : Type) :=
| POk (a : A) (rest : jsstring)
| PSyntaxError
| POutOfFuel.
Arguments POk {A}.
Arguments PSyntaxError {A}.
Arguments POutOfFuel {A}.

Definition is_ws (c : Z) : bool :=
  (c =? 32) || (c =? 9) || (c =? 10) || (c =? 13).

Fixpoint skip_ws (s : jsstring) : jsstring :=
  match s with
  | c :: r => if is_ws c then skip_ws r else s
  | [] => []
  end.

Definition hex (c : Z) : option Z :=
  if (48 <=? c) && (c <=? 57) then Some (c - 48)
  else if (65 <=? c) && (c <=? 70) then Some (c - 55)
  else if (97 <=? c) && (c <=? 102) then Some (c - 87)
  else None.

Definition hex4 (a b c d : Z) : option Z :=
  match hex a, hex b, hex c, hex d with
  | Some x, Some y, Some z, Some w => Some (((x * 16 + y) * 16 + z) * 16 + w)
  | _, _, _, _ => None
  end.

Definition unescape (c : Z) : option Z :=
  if c =? 34 then Some 34 else if c =? 92 then Some 92
  else if c =? 47 then Some 47 else if c =? 98 then Some 8
  else if c =? 102 then Some 12 else if c =? 110 then Some 10
  else if c =? 114 then Some 13 else if c =? 116 then Some 9
  else None.

(** The characters of a string literal after its opening quote, collected
    in reverse in [acc], and what follows its closing quote. *)
Fixpoint string_body (s acc : jsstring) : option (jsstring * jsstring) :=
  match s with
  | [] => None
  | c :: r =>
      if c =? 34 then Some (rev acc, r)
      else if c =? 92 then
        match r with
        | [] => None
        | e :: r1 =>
            if e =? 117 then
              match r1 with
              | a :: b :: c' :: d :: r2 =>
                  match hex4 a b c' d with
                  | Some u => string_body r2 (u :: acc)
                  | None => None
                  end
              | _ => None
              end
            else match unescape e with
                 | Some u => string_body r1 (u :: acc)
                 | None => None
                 end
        end
      else if c <? 32 then None
      else string_body r (c :: acc)
  end.

Fixpoint span_digits (s : jsstring) : jsstring * jsstring :=
  match s with
  | c :: r => if is_digit c then let '(ds, r') := span_digits r in (c :: ds, r')
              else ([], s)
  | [] => ([], [])
  end.

(** The integer part of a number: a single zero, or digits not starting
    with zero. *)
Definition int_part (s : jsstring) : option (jsstring * jsstring) :=
  match s with
  | c :: r =>
      if c =? 48 then Some ([48], r)
      else if is_digit c then Some (span_digits s)
      else None
  | [] => None
  end.

Definition frac_part (s : jsstring) : option (jsstring * jsstring) :=
  match s with
  | c :: r =>
      if c =? 46 then
        match span_digits r with
        | ([], _) => None
        | (ds, r') => Some (ds, r')
        end
      else Some ([], s)
  | [] => Some ([], [])
  end.

Definition exp_part (s : jsstring) : option (Z * jsstring) :=
  match s with
  | c :: r =>
      if (c =? 101) || (c =? 69) then
        let neg := match r with x :: _ => x =? 45 | [] => false end in
        let r1 := match r with
                  | x :: r' => if (x =? 45) || (x =? 43) then r' else r
                  | [] => []
                  end in
        match span_digits r1 with
        | ([], _) => None
        | (ds, r') => Some (if neg then - digits_value ds 0 else digits_value ds 0, r')
        end
      else Some (0, s)
  | [] => Some (0, [])
  end.

(** A number literal and what follows it. *)
Definition number (s : jsstring) : option (Num.number * jsstring) :=
  let neg := match s with c :: _ => c =? 45 | [] => false end in
  let s0 := if neg then tl s else s in
  match int_part s0 with
  | None => None
  | Some (ip, s1) =>
      match frac_part s1 with
      | None => None
      | Some (fp, s2) =>
          match exp_part s2 with
          | None => None
          | Some (e, s3) =>
              Some (Num.of_decimal neg (digits_value (ip ++ fp) 0)
                      (e - Z.of_nat (length fp)), s3)
          end
      end
  end.

Definition keyword (s : jsstring) (w : string) (v : value) : presult value :=
  if Str.startsWith s (Str.lit w)
  then POk v (skipn (length (Str.lit w)) s) else PSyntaxError.

(** Recursive descent over the grammar of JSON text. Every call consumes
    a character before it calls another, so fuel twice the length of the
    input is never used up ([parse_value_fuel] below). *)
Fixpoint parse_value (fuel : nat) (s : jsstring) : presult value :=
  match fuel with
  | O => POutOfFuel
  | S f =>
      match skip_ws s with
      | [] => PSyntaxError
      | c :: r =>
          if c =? 123 then
            match skip_ws r with
            | d :: r' => if d =? 125 then POk (VObj []) r'
                         else parse_members f (d :: r') []
            | [] => PSyntaxError
            end
          else if c =? 91 then
            match skip_ws r with
            | d :: r' => if d =? 93 then POk (VArr []) r'
                         else parse_elements f (d :: r') []
            | [] => PSyntaxError
            end
          else if c =? 34 then
            match string_body r [] with
            | Some (str, r') => POk (VStr str) r'
            | None => PSyntaxError
            end
          else if c =? 116 then keyword (c :: r) "true" (VBool true)
          else if c =? 102 then keyword (c :: r) "false" (VBool false)
          else if c =? 110 then keyword (c :: r) "null" VNull
          else match number (c :: r) with
               | Some (n, r') => POk (VNum n) r'
               | None => PSyntaxError
               end
      end
  end
with parse_elements (fuel : nat) (s : jsstring) (acc : list value)
  : presult value :=
  match fuel with
  | O => POutOfFuel
  | S f =>
      match parse_value f s with
      | POk v r =>
          match skip_ws r with
          | c :: r' =>
              if c =? 44 then parse_elements f r' (acc ++ [v])
              else if c =? 93 then POk (VArr (acc ++ [v])) r'
              else PSyntaxError
          | [] => PSyntaxError
          end
      | PSyntaxError => PSyntaxError
      | POutOfFuel => POutOfFuel
      end
  end
with parse_members (fuel : nat) (s : jsstring) (acc : list (jsstring * value))
  : presult value :=
  match fuel with
  | O => POutOfFuel
  | S f =>
      match skip_ws s with
      | q :: r0 =>
          if q =? 34 then
            match string_body r0 [] with
            | Some (k, r1) =>
                match skip_ws r1 with
                | c :: r2 =>
                    if c =? 58 then
                      match parse_value f r2 with
                      | POk v r3 =>
                          match skip_ws r3 with
                          | d :: r4 =>
                              if d =? 44 then parse_members f r4 (define acc k v)
                              else if d =? 125 then POk (VObj (define acc k v)) r4
                              else PSyntaxError
                          | [] => PSyntaxError
                          end
                      | PSyntaxError => PSyntaxError
                      | POutOfFuel => POutOfFuel
                      end
                    else PSyntaxError
                | [] => PSyntaxError
                end
            | None => PSyntaxError
            end
          else PSyntaxError
      | [] => PSyntaxError
      end
  end.

(** [JSON.parse(text)]; [None] is the SyntaxError it throws. *)
Definition parse (text : jsstring) : option value :=
  match parse_value (S (2 * length text)) text with
  | POk v r => match skip_ws r with [] => Some v | _ :: _ => None end
  | _ => None
  end.

(** *** JSON.stringify *)

Definition hexdigit (n : Z) : Z := if n <? 10 then 48 + n else 87 + n.

Definition uescape (c : Z) : jsstring :=
  [92; 117; hexdigit (Z.shiftr c 12 mod 16); hexdigit (Z.shiftr c 8 mod 16);
   hexdigit (Z.shiftr c 4 mod 16); hexdigit (c mod 16)].

Definition escape_unit (c : Z) : jsstring :=
  if c =? 8 then [92; 98] else if c =? 9 then [92; 116]
  else if c =? 10 then [92; 110] else if c =? 12 then [92; 102]
  else if c =? 13 then [92; 114] else if c =? 34 then [92; 34]
  else if c =? 92 then [92; 92]
  else if c <? 32 then uescape c
  else [c].

Fixpoint quote_body (s : jsstring) : jsstring :=
  match s with
  | [] => []
  | c :: r =>
      if Utf8.is_high c then
        match r with
        | d :: r' => if Utf8.is_low d then c :: d :: quote_body r'
                     else uescape c ++ quote_body r
        | [] => uescape c
        end
      else if Utf8.is_low c then uescape c ++ quote_body r
      else escape_unit c ++ quote_body r
  end.

(** QuoteJSONString. *)
Definition quote (s : jsstring) : jsstring := [34] ++ quote_body s ++ [34].

Fixpoint join (parts : list jsstring) : jsstring :=
  match parts with
  | [] => []
  | [p] => p
  | p :: r => p ++ [44] ++ join r
  end.

(** A Number in JSON text: a finite one by Number::toString, any other as
    [null]. *)
Definition serialize_number (n : Num.number) : jsstring :=
  match n with
  | S754_nan | S754_infinity _ => Str.lit "null"
  | _ => Num.toString n
  end.

(** SerializeJSONProperty without indentation; [None] is [undefined]. *)
Fixpoint serialize (v : value) : option jsstring :=
  match v with
  | VUndefined => None
  | VNull => Some (Str.lit "null")
  | VBool b => Some (if b then Str.lit "true" else Str.lit "false")
  | VNum n => Some (serialize_number n)
  | VStr s => Some (quote s)
  | VArr items =>
      Some ([91] ++ join (map (fun x => match serialize x with
                                        | Some t => t
                                        | None => Str.lit "null"
                                        end) items) ++ [93])
  | VObj props =>
      Some ([123] ++ join (flat_map (fun kv => match serialize (snd kv) with
                                               | Some t => [quote (fst kv) ++ [58] ++ t]
                                               | None => []
                                               end) props) ++ [125])
  end.

(** [JSON.stringify(v)]. *)
Definition stringify (v : value) : value :=
  match serialize v with
  | Some t => VStr t
  | None => VUndefined
  end.

(** [JSON.stringify(v)] joined to a string with [+]. *)
Definition stringify_text (v : value) : jsstring :=
  match serialize v with
  | Some t => t
  | None => Str.lit "undefined"
  end.

End JSON.

(** ** The stream transformers *)

Import Str.

(** How one pass through the body of the line loop ends: it falls through
    to the next iteration, or it leaves [transform] by [return]. Either
    way it carries the frames it gave to [controller.enqueue]. *)
Inductive step :=
| Next (out : list bytes)
| Return (out : list bytes).

(** [while (true)] of both transformers (lines 196-243 and 291-324): take
    the text up to and including the first newline off the buffer and run
    the [try] block [on_line] on it, until no newline is left or the block
    returns. The result is the buffer left, the frames enqueued, and
    whether the loop was left by [return]. Each round shortens the
    buffer, so [fuel] above its length is never used up. *)
Fixpoint line_loop (on_line : jsstring -> step) (fuel : nat) (buffer : jsstring)
  : jsstring * list bytes * bool :=
  match fuel with
  | O => (buffer, [], false)
  | S f =>
      let newlineIndex := indexOf buffer [10] in
      if newlineIndex =? -1 then (buffer, [], false)
      else
        let line := slice buffer 0 (newlineIndex + 1) in
        let buffer := slice_from buffer (newlineIndex + 1) in
        match on_line line with
        | Return out => (buffer, out, true)
        | Next out =>
            let '(buffer', out', returned) := line_loop on_line f buffer in
            (buffer', out ++ out', returned)
        end
  end.

Definition read_lines (on_line : jsstring -> step) (buffer : jsstring)
  : jsstring * list bytes * bool :=
  line_loop on_line (S (length buffer)) buffer.

Definition thinkTagEnd : jsstring := lit "</think>".

(** The sentinel frame, [encoder.encode('data: [DONE]\n\n')]. *)
Definition done_frame : bytes := Utf8.encode (lit "data: [DONE]" ++ [10; 10]).

Section Transformer.

(** The arguments of [createChatStreamTransformer] and
    [createCompletionStreamTransformer]. *)
Variable uuid : jsstring.
Variable created : Num.number.
Variable model : jsstring.

(** *** createChatStreamTransformer *)

Record chat_state := mkChat {
  buffer : jsstring;
  isFinished : bool;
  pastThinkTag : bool
}.

Definition chat_init : chat_state := mkChat [] false false.

(** [finalChunk], built alike at lines 207-213 and 248-254. *)
Definition finalChunk : jsstring :=
  lit "data: " ++
  JSON.stringify_text
    (VObj [(lit "id", VStr uuid);
           (lit "created", VNum created);
           (lit "object", VStr (lit "chat.completion.chunk"));
           (lit "model", VStr model);
           (lit "choices",
            VArr [VObj [(lit "delta", VObj []);
                        (lit "index", VNum (Num.of_Z 0));
                        (lit "finish_reason", VStr (lit "stop"))]])])
  ++ [10; 10].

Definition final_frame : bytes := Utf8.encode finalChunk.

(** [actualContent] (lines 222-224). *)
Definition actualContent (response : value) : value :=
  match response with
  | VStr _ => response
  | _ =>
      or_else (or_else (OptGet response (lit "text"))
                       (OptGet response (lit "content")))
              (JSON.stringify response)
  end.

(** [newChunk] (lines 226-236). *)
Definition chat_newChunk (content : value) : jsstring :=
  lit "data: " ++
  JSON.stringify_text
    (VObj [(lit "id", VStr uuid);
           (lit "created", VNum created);
           (lit "object", VStr (lit "chat.completion.chunk"));
           (lit "model", VStr model);
           (lit "choices",
            VArr [VObj [(lit "delta",
                         VObj [(lit "role", VStr (lit "assistant"));
                               (lit "content", content)]);
                        (lit "index", VNum (Num.of_Z 0));
                        (lit "finish_reason", VNull)]])])
  ++ [10; 10].

Definition chat_frame (content : value) : bytes :=
  Utf8.encode (chat_newChunk content).

(** The [try] block of the chat transformer on one line (lines 203-242);
    an exception thrown inside is caught and only logged. *)
Definition chat_line (line : jsstring) : step :=
  if startsWith line (lit "data: ") then
    let content := slice_from line (len (lit "data: ")) in
    if Str.eqb (trim content) (lit "[DONE]") then
      Return [final_frame; done_frame]
    else
      match JSON.parse content with
      | None => Next []
      | Some data =>
          match Get data (lit "response") with
          | None => Next []
          | Some response =>
              if ToBoolean response
              then Next [chat_frame (actualContent response)]
              else Next []
          end
      end
  else Next [].

(** The line loop of the chat transformer; it is entered with
    [isFinished] false and [pastThinkTag] true, and [isFinished] is set
    exactly when the loop is left by [return]. *)
Definition chat_lines (buffer : jsstring) : chat_state * list bytes :=
  let '(buffer', out, returned) := read_lines chat_line buffer in
  (mkChat buffer' returned true, out).

(** [transform(chunk, controller)] (lines 181-244): the state after the
    call and the frames enqueued. *)
Definition chat_transform (st : chat_state) (chunk : bytes)
  : chat_state * list bytes :=
  if isFinished st then (st, [])
  else
    let buffer := buffer st ++ Utf8.decode chunk in
    if negb (pastThinkTag st) then
      let thinkIndex := indexOf buffer thinkTagEnd in
      if negb (thinkIndex =? -1) then
        chat_lines (substring_from buffer (thinkIndex + len thinkTagEnd))
      else (mkChat buffer false false, [])
    else chat_lines buffer.

(** [flush(controller)] (lines 246-258); it changes no variable. *)
Definition chat_flush (st : chat_state) : list bytes :=
  if negb (isFinished st) then [final_frame; done_frame] else [].

(** The chunks of a stream, transformed one after the other. *)
Fixpoint chat_run (st : chat_state) (chunks : list bytes)
  : chat_state * list bytes :=
  match chunks with
  | [] => (st, [])
  | c :: rest =>
      let '(st1, out1) := chat_transform st c in
      let '(st2, out2) := chat_run st1 rest in
      (st2, out1 ++ out2)
  end.

(** All frames of a stream that is written chunk by chunk and then
    closed: the stream calls [flush] once, after the last chunk. *)
Definition chat_stream (chunks : list bytes) : list bytes :=
  let '(st, out) := chat_run chat_init chunks in out ++ chat_flush st.

(** *** createCompletionStreamTransformer *)

Record completion_state := mkCompletion {
  c_buffer : jsstring;
  c_pastThinkTag : bool
}.

Definition completion_init : completion_state := mkCompletion [] false.

(** [newChunk] (lines 307-318). A property whose value is [undefined] is
    left out by [JSON.stringify]. *)
Definition completion_newChunk (response : value) : jsstring :=
  lit "data: " ++
  JSON.stringify_text
    (VObj [(lit "id", VStr uuid);
           (lit "created", VNum created);
           (lit "object", VStr (lit "text_completion"));
           (lit "model", VStr model);
           (lit "choices",
            VArr [VObj [(lit "text", response);
                        (lit "index", VNum (Num.of_Z 0));
                        (lit "logprobs", VNull);
                        (lit "finish_reason", VNull)]])])
  ++ [10; 10].

Definition completion_frame (response : value) : bytes :=
  Utf8.encode (completion_newChunk response).

(** The [try] block of the completion transformer on one line (lines
    298-323). *)
Definition completion_line (line : jsstring) : step :=
  if startsWith line (lit "data: ") then
    let content := slice_from line (len (lit "data: ")) in
    if Str.eqb (trim content) (lit "[DONE]") then
      Return [done_frame]
    else
      match JSON.parse content with
      | None => Next []
      | Some data =>
          match Get data (lit "response") with
          | None => Next []
          | Some response => Next [completion_frame response]
          end
      end
  else Next [].

Definition completion_lines (buffer : jsstring)
  : completion_state * list bytes :=
  let '(buffer', out, _) := read_lines completion_line buffer in
  (mkCompletion buffer' true, out).

(** [transform(chunk, controller)] (lines 278-325). *)
Definition completion_transform (st : completion_state) (chunk : bytes)
  : completion_state * list bytes :=
  let buffer := c_buffer st ++ Utf8.decode chunk in
  if negb (c_pastThinkTag st) then
    let thinkIndex := indexOf buffer thinkTagEnd in
    if negb (thinkIndex =? -1) then
      completion_lines (substring_from buffer (thinkIndex + len thinkTagEnd))
    else (mkCompletion buffer false, [])
  else completion_lines buffer.

(** The completion transformer defines no [flush]: closing the stream
    enqueues nothing. *)
Definition completion_flush (st : completion_state) : list bytes := [].

Fixpoint completion_run (st : completion_state) (chunks : list bytes)
  : completion_state * list bytes :=
  match chunks with
  | [] => (st, [])
  | c :: rest =>
      let '(st1, out1) := completion_transform st c in
      let '(st2, out2) := completion_run st1 rest in
      (st2, out1 ++ out2)
  end.

Definition completion_stream (chunks : list bytes) : list bytes :=
  let '(st, out) := completion_run completion_init chunks in
  out ++ completion_flush st.

(** *** The transformers on decoded text

    [transform] uses its chunk only through [decoder.decode(chunk)]; these
    are the same functions with the decoded text as argument, and the
    runs over a list of texts. They are used to state and prove what
    does not depend on the decoder. *)

Definition chat_feed (st : chat_state) (text : jsstring)
  : chat_state * list bytes :=
  if isFinished st then (st, [])
  else
    let buffer := buffer st ++ text in
    if negb (pastThinkTag st) then
      let thinkIndex := indexOf buffer thinkTagEnd in
      if negb (thinkIndex =? -1) then
        chat_lines (substring_from buffer (thinkIndex + len thinkTagEnd))
      else (mkChat buffer false false, [])
    else chat_lines buffer.

Fixpoint chat_feeds (st : chat_state) (texts : list jsstring)
  : chat_state * list bytes :=
  match texts with
  | [] => (st, [])
  | t :: rest =>
      let '(st1, out1) := chat_feed st t in
      let '(st2, out2) := chat_feeds st1 rest in
      (st2, out1 ++ out2)
  end.

Definition completion_feed (st : completion_state) (text : jsstring)
  : completion_state * list bytes :=
  let buffer := c_buffer st ++ text in
  if negb (c_pastThinkTag st) then
    let thinkIndex := indexOf buffer thinkTagEnd in
    if negb (thinkIndex =? -1) then
      completion_lines (substring_from buffer (thinkIndex + len thinkTagEnd))
    else (mkCompletion buffer false, [])
  else completion_lines buffer.

Fixpoint completion_feeds (st : completion_state) (texts : list jsstring)
  : completion_state * list bytes :=
  match texts with
  | [] => (st, [])
  | t :: rest =>
      let '(st1, out1) := completion_feed st t in
      let '(st2, out2) := completion_feeds st1 rest in
      (st2, out1 ++ out2)
  end.

(** Two chat states that no later call can tell apart: a finished state
    is never read again. *)
Definition chat_equiv (s1 s2 : chat_state) : Prop :=
  isFinished s1 = isFinished s2 /\ (isFinished s1 = false -> s1 = s2).

End Transformer.

(** ** More of the platform

    What the rest of the gateway calls: [split] and [includes] of
    strings, [set] of typed arrays, [splice] of arrays, and [Math]. *)

(** [s.split(sep)] for a separator [sep] of one code unit. *)
Fixpoint String_split (s : jsstring) (sep : Z) : list jsstring :=
  match s with
  | [] => [[]]
  | c :: r =>
      if c =? sep then [] :: String_split r sep
      else match String_split r sep with
           | p :: ps => (c :: p) :: ps
           | [] => [[c]]
           end
  end.

(** [s.includes(p)]. *)
Definition String_includes (s p : jsstring) : bool := negb (indexOf s p =? -1).

(** [buffer.set(source, offset)] on a [Uint8Array]; [None] is the
    RangeError for a source that does not fit. *)
Definition Uint8Array_set (buffer source : bytes) (offset : nat) : option bytes :=
  if (offset + length source <=? length buffer)%nat
  then Some (firstn offset buffer ++ source ++
             skipn (offset + length source) buffer)
  else None.

(** [a.splice(start, deleteCount, ...items)]: the array afterwards. *)
Definition Array_splice (a : list value) (start deleteCount : Z)
  (items : list value) : list value :=
  let len := Z.of_nat (length a) in
  let actualStart := if start <? 0 then Z.max (len + start) 0 else Z.min start len in
  let actualDeleteCount := Z.min (Z.max deleteCount 0) (len - actualStart) in
  firstn (Z.to_nat actualStart) a ++ items ++
  skipn (Z.to_nat (actualStart + actualDeleteCount)) a.

(** ToString of a value that [JSON.parse] returned, or of [undefined];
    [None] is its TypeError. An object that has a property [toString] of
    its own has lost the method of [Object.prototype], and what
    [JSON.parse] put in its place cannot be called: ToString throws.
    Every other object is [[object Object]]. An array is its elements
    joined with commas, [null] and [undefined] among them left empty, and
    it throws when one of its elements does. *)
Fixpoint ToString (v : value) : option jsstring :=
  match v with
  | VUndefined => Some (lit "undefined")
  | VNull => Some (lit "null")
  | VBool b => Some (if b then lit "true" else lit "false")
  | VNum n => Some (Num.toString n)
  | VStr s => Some s
  | VArr items =>
      option_map JSON.join
        (fold_right (fun x parts =>
                       match match x with
                             | VUndefined | VNull => Some []
                             | _ => ToString x
                             end, parts with
                       | Some part, Some parts => Some (part :: parts)
                       | _, _ => None
                       end) (Some []) items)
  | VObj props =>
      if JSON.has_key props (lit "toString") then None
      else Some (lit "[object Object]")
  end.

(** [v === s] for a string literal [s]. *)
Definition is_string (v : value) (s : jsstring) : bool :=
  match v with
  | VStr t => Str.eqb t s
  | _ => false
  end.

(** [Promise.all] of promises that are settled in turn: the values, or
    [None] when one of them is rejected. *)
Fixpoint all_fulfilled {A : Type} (promises : list (option A)) : option (list A) :=
  match promises with
  | [] => Some []
  | Some x :: rest =>
      match all_fulfilled rest with
      | Some xs => Some (x :: xs)
      | None => None
      end
  | None :: _ => None
  end.

(** [{...object, k: v}] for an object. *)
Definition spread_with (object : value) (k : jsstring) (v : value) : value :=
  match object with
  | VObj props =>
      VObj (JSON.define
              (fold_left (fun acc kv => JSON.define acc (fst kv) (snd kv)) props [])
              k v)
  | _ => VObj [(k, v)]
  end.

Module Math.

(** [Math.max(a, b)] and [Math.min(a, b)]: NaN if either is NaN, and +0
    is larger than -0. *)
Definition max (a b : Num.number) : Num.number :=
  match SFcompare a b with
  | None => S754_nan
  | Some Lt => b
  | Some Gt => a
  | Some Eq =>
      match a, b with
      | S754_zero sa, S754_zero sb => S754_zero (sa && sb)
      | _, _ => a
      end
  end.

Definition min (a b : Num.number) : Num.number :=
  match SFcompare a b with
  | None => S754_nan
  | Some Lt => a
  | Some Gt => b
  | Some Eq =>
      match a, b with
      | S754_zero sa, S754_zero sb => S754_zero (sa || sb)
      | _, _ => a
      end
  end.

(** [x * y]: the exact product, rounded to the nearest Number. *)
Definition mul (x y : Num.number) : Num.number :=
  match x, y with
  | S754_nan, _ | _, S754_nan => S754_nan
  | S754_infinity _, S754_zero _ | S754_zero _, S754_infinity _ => S754_nan
  | S754_infinity sx, S754_infinity sy
  | S754_infinity sx, S754_finite sy _ _
  | S754_finite sx _ _, S754_infinity sy => S754_infinity (xorb sx sy)
  | S754_zero sx, S754_zero sy
  | S754_zero sx, S754_finite sy _ _
  | S754_finite sx _ _, S754_zero sy => S754_zero (xorb sx sy)
  | S754_finite sx mx ex, S754_finite sy my ey =>
      let e := ex + ey in
      Num.round_ratio (xorb sx sy)
        (if e >=? 0 then Zpos (mx * my) * 2 ^ e else Zpos (mx * my))
        (if e >=? 0 then 1 else 2 ^ (- e))
  end.

(** [Math.floor(x)]. *)
Definition floor (x : Num.number) : Num.number :=
  match x with
  | S754_finite s m e =>
      if e >=? 0 then x
      else
        let n := (if s then Zneg m else Zpos m) / 2 ^ (- e) in
        if n =? 0 then S754_zero s else Num.of_Z n
  | _ => x
  end.

(** [Math.ceil(a / b)] for a length [a] and a power of two [b]: the
    division is exact, and so is the result. *)
Definition ceil_div (a b : Z) : Z := - (- a / b).

End Math.

(** ** streamToBuffer (src/utils/stream.js, lines 136-162)

    The stream is the list of the chunks it yields before it is done. *)

(** The loop of lines 156-159. *)
Fixpoint copy_chunks (chunks : list bytes) (buffer : bytes) (offset : nat)
  : option bytes :=
  match chunks with
  | [] => Some buffer
  | chunk :: rest =>
      match Uint8Array_set buffer chunk offset with
      | Some buffer' => copy_chunks rest buffer' (offset + length chunk)
      | None => None
      end
  end.

Definition streamToBuffer (stream : list bytes) : option bytes :=
  let chunks := stream in
  let totalLength :=
    fold_left (fun acc chunk => (acc + length chunk)%nat) chunks 0%nat in
  let buffer := repeat 0 totalLength in
  copy_chunks chunks buffer 0.

(** ** The bearer token (src/index.js, lines 20-50)

    [request.headers.get('Authorization')] is a string or [null], and
    [env.ACCESS_TOKEN] a string, or [undefined] when the variable is not
    set. *)

Definition extractToken (authorizationHeader : option jsstring)
  : option jsstring :=
  match authorizationHeader with
  | Some h =>
      if ToBoolean (VStr h) then
        let parts := String_split h 32 in
        if (length parts =? 2)%nat && Str.eqb (nth 0 parts []) (lit "Bearer")
        then Some (nth 1 parts [])
        else None
      else None
  | None => None
  end.

(** What the middleware returns: the response made of an error, or
    nothing, and the router goes on to the next handler. *)
Inductive auth_result :=
| AuthenticationError (message : jsstring)
| PermissionError (message : jsstring)
| Authenticated.

Definition bearerAuthentication (authorizationHeader ACCESS_TOKEN : option jsstring)
  : auth_result :=
  if negb (match authorizationHeader with
           | Some h => ToBoolean (VStr h)
           | None => false
           end)
  then AuthenticationError (lit "Unauthorized")
  else
    let access_token := extractToken authorizationHeader in
    if negb (match ACCESS_TOKEN, access_token with
             | Some a, Some t => Str.eqb a t
             | _, _ => false
             end)
    then PermissionError (lit "Forbidden")
    else Authenticated.

(** ** The request handlers

    A handler is modelled up to the call of the AI binding, as a function
    of the Content-Type header of the request and of the value that
    [request.json()] resolves to. It returns what it has worked out, or
    the exception it throws; the helpers of utils/models.js that it
    imports are parameters. *)

Inductive exception :=
| ValidationError (message : jsstring) (param : option jsstring)
| TypeError
| Raised (message : jsstring).

Definition result (A : Type) : Type := (exception + A)%type.

Definition throw {A : Type} (e : exception) : result A := inl e.

Definition bind {A B : Type} (r : result A) (k : A -> result B) : result B :=
  match r with
  | inl e => inl e
  | inr a => k a
  end.

Notation "x <- r ;; k" := (bind r (fun x => k))
  (at level 61, r at next level, right associativity).

(** [v.k], with its TypeError. *)
Definition Get_or_throw (v : value) (k : jsstring) : result value :=
  match Get v k with
  | Some x => inr x
  | None => throw TypeError
  end.

(** [v] in a template literal, with the TypeError of ToString. *)
Definition ToString_or_throw (v : value) : result jsstring :=
  match ToString v with
  | Some s => inr s
  | None => throw TypeError
  end.

(** [request.headers.get('Content-Type')?.includes('application/json')],
    as the condition of an [if]. *)
Definition is_json (contentType : option jsstring) : bool :=
  match contentType with
  | Some t => String_includes t (lit "application/json")
  | None => false
  end.

Definition typeof_number (v : value) : bool :=
  match v with VNum _ => true | _ => false end.

(** *** completionHandler (src/routes/completion.js, lines 6-60) *)

(** Lines 21-31: the prompt that passes the validation. *)
Definition validate_prompt (json : value) : result jsstring :=
  if negb (ToBoolean (OptGet json (lit "prompt"))) then
    throw (ValidationError (lit "prompt is required") (Some (lit "prompt")))
  else
    prompt <- Get_or_throw json (lit "prompt") ;;
    match prompt with
    | VStr p =>
        if len p =? 0 then
          throw (ValidationError (lit "no prompt provided") (Some (lit "prompt")))
        else inr p
    | _ =>
        throw (ValidationError (lit "prompt must be a string")
                 (Some (lit "prompt")))
    end.

(** Lines 49-52 and 54-57, and lines 115-118 of src/routes/chat.js: a
    parameter that is a truthy number is clamped to [0, hi], any other
    value gives the default. *)
Definition clamped (v : value) (hi default : Num.number) : Num.number :=
  if ToBoolean v && typeof_number v then
    match v with
    | VNum n => Math.max (Num.of_Z 0) (Math.min n hi)
    | _ => default
    end
  else default.

(** What the handler has worked out by line 60. *)
Record completion_request := mkRequest {
  r_model : jsstring;
  r_prompt : jsstring;
  r_stream : value;
  r_maxTokens : Num.number;
  r_temperature : Num.number;
  r_topP : Num.number;
  r_responseModel : value
}.

Section CompletionHandler.

(** [resolveModel('completion', requested, env.MODEL_MAPPER ?? {})], which
    may throw, the table [MODEL_CONTEXT_WINDOWS] of numbers, and
    [calculateDefaultMaxTokens]. *)
Variable resolveModel : value -> result jsstring.
Variable MODEL_CONTEXT_WINDOWS : jsstring -> option Num.number.
Variable calculateDefaultMaxTokens : jsstring -> Num.number.

(** Line 37: [MODEL_CONTEXT_WINDOWS[model] || 4096]. *)
Definition contextWindow (model : jsstring) : Num.number :=
  match MODEL_CONTEXT_WINDOWS model with
  | Some w => if Num.truthy w then w else Num.of_Z 4096
  | None => Num.of_Z 4096
  end.

(** Lines 39-46. *)
Definition max_tokens_of (model : jsstring) (max_tokens : value) : Num.number :=
  match max_tokens with
  | VNum n =>
      if SFltb (Num.of_Z 0) n
      then Math.max (Num.of_Z 1) (Math.min n (contextWindow model))
      else calculateDefaultMaxTokens model
  | _ => calculateDefaultMaxTokens model
  end.

Definition completion_prepare (contentType : option jsstring) (json : value)
  : result completion_request :=
  if negb (is_json contentType) then
    throw (ValidationError
             (lit "Invalid request. Content-Type must be application/json") None)
  else
    model <- resolveModel (OptGet json (lit "model")) ;;
    prompt <- validate_prompt json ;;
    let stream :=
      if negb (ToBoolean (OptGet json (lit "stream"))) then VBool false
      else OptGet json (lit "stream") in
    max_tokens <- Get_or_throw json (lit "max_tokens") ;;
    let maxTokens := max_tokens_of model max_tokens in
    let temperature :=
      clamped (OptGet json (lit "temperature")) (Num.of_Z 2)
        (Num.of_decimal false 7 (-1)) in
    let topP :=
      clamped (OptGet json (lit "top_p")) (Num.of_Z 1)
        (Num.of_decimal false 9 (-1)) in
    requested <- Get_or_throw json (lit "model") ;;
    let responseModel := or_else requested (VStr model) in
    inr (mkRequest model prompt stream maxTokens temperature topP responseModel).

End CompletionHandler.

(** *** processMultimodalMessages (src/routes/chat.js, lines 15-79)

    An [async] function is modelled by the value its promise is
    fulfilled with, [None] when the promise is rejected: with the
    ValidationError of lines 49 and 53, or with the TypeError of reading
    a property of [null]. *)

Section Multimodal.

(** Lines 38-40: [new URL(url)] and then [convertImageToDataURL(url)],
    [None] when either throws. *)
Variable convertImageToDataURL : jsstring -> option jsstring.

(** [processItem] (lines 23-56). *)
Definition processItem (item : value) : option value :=
  match Get item (lit "type") with
  | None => None
  | Some type =>
      if is_string type (lit "text") then Some item
      else if is_string type (lit "image_url") then
        match Get item (lit "image_url") with
        | None => None
        | Some image_url =>
            match OptGet image_url (lit "url") with
            | VStr url =>
                if startsWith url (lit "data:") then Some item
                else if startsWith url (lit "http") then
                  match convertImageToDataURL url with
                  | Some dataUrl =>
                      Some (VObj [(lit "type", VStr (lit "image_url"));
                                  (lit "image_url",
                                   VObj [(lit "url", VStr dataUrl)])])
                  | None => None
                  end
                else None
            | _ => None
            end
        end
      else Some item
  end.

(** The function mapped over the messages (lines 17-77). Only an object
    has a [content] that is an array or an object, so it is an object
    that is spread at lines 61-64 and 70-73. *)
Definition processMessage (message : value) : option value :=
  match Get message (lit "content") with
  | None => None
  | Some content =>
      match content with
      | VStr _ => Some message
      | VArr items =>
          match all_fulfilled (map processItem items) with
          | Some processedContent =>
              Some (spread_with message (lit "content") (VArr processedContent))
          | None => None
          end
      | VObj _ =>
          match processItem content with
          | Some processedContent =>
              Some (spread_with message (lit "content") processedContent)
          | None => None
          end
      | _ => Some message
      end
  end.

Definition processMultimodalMessages (messages : list value)
  : option (list value) :=
  all_fulfilled (map processMessage messages).

End Multimodal.

(** *** chatHandler (src/routes/chat.js, lines 86-144 and 177-188) *)

(** [max_tokens] (lines 103-112). [context_window] is
    [MODEL_CONTEXT_WINDOWS[model]], a number or [undefined]; as an
    operand of [Math.min] or of [*], [undefined] is NaN. *)
Definition chat_max_tokens (context_window : option Num.number)
  (requested : value) : Num.number :=
  let window :=
    match context_window with
    | Some w => w
    | None => S754_nan
    end in
  let default :=
    Math.min (Math.floor (Math.mul window (Num.of_decimal false 7 (-1))))
      (Num.of_Z 16384) in
  let max_tokens :=
    match requested with
    | VNum n => if SFltb (Num.of_Z 0) n then Math.min n window else default
    | _ => default
    end in
  Math.max (Num.of_Z 10) max_tokens.

(** The loop of lines 127-134. *)
Fixpoint validate_tools (tools : list value) : result unit :=
  match tools with
  | [] => inr tt
  | tool :: rest =>
      type <- Get_or_throw tool (lit "type") ;;
      if negb (is_string type (lit "function")) then
        shown <- ToString_or_throw type ;;
        throw (ValidationError
                 (lit "Unsupported tool type: " ++ shown ++
                  lit ". Only 'function' is supported.")
                 (Some (lit "tools")))
      else
        function <- Get_or_throw tool (lit "function") ;;
        if negb (ToBoolean (OptGet function (lit "name"))) then
          throw (ValidationError (lit "Tool function must have a name")
                   (Some (lit "tools")))
        else validate_tools rest
  end.

(** Lines 121-144: [tools] and [toolChoice], [null] when the request
    names no tools. *)
Definition chat_tools (json : value) : result (value * value) :=
  from_tools <-
    match OptGet json (lit "tools") with
    | VArr tools =>
        _ <- validate_tools tools ;;
        inr (VArr tools, or_else (OptGet json (lit "tool_choice")) (VStr (lit "auto")))
    | _ => inr (VNull, VNull)
    end ;;
  match OptGet json (lit "functions") with
  | VArr functions =>
      inr (VArr (map (fun func => VObj [(lit "type", VStr (lit "function"));
                                        (lit "function", func)]) functions),
           or_else (OptGet json (lit "function_call")) (VStr (lit "auto")))
  | _ => inr from_tools
  end.

Record chat_request := mkChatRequest {
  q_model : jsstring;
  q_messages : list value;
  q_stream : value;
  q_max_tokens : Num.number;
  q_temperature : Num.number;
  q_topP : Num.number;
  q_tools : value;
  q_toolChoice : value
}.

Section ChatHandler.

(** [resolveModel('chat', requested)] and the table
    [MODEL_CONTEXT_WINDOWS]. *)
Variable resolveModel : value -> result jsstring.
Variable MODEL_CONTEXT_WINDOWS : jsstring -> option Num.number.

(** The handler up to line 144. *)
Definition chat_prepare (contentType : option jsstring) (json : value)
  : result chat_request :=
  if negb (is_json contentType) then
    throw (ValidationError
             (lit "Invalid request. Content-Type must be application/json") None)
  else
    model <- resolveModel (OptGet json (lit "model")) ;;
    match OptGet json (lit "messages") with
    | VArr messages =>
        if Z.of_nat (length messages) =? 0 then
          throw (ValidationError
                   (lit "messages are required and must be a non-empty array")
                   (Some (lit "messages")))
        else
          let stream :=
            if negb (ToBoolean (OptGet json (lit "stream"))) then VBool false
            else OptGet json (lit "stream") in
          let context_window := MODEL_CONTEXT_WINDOWS model in
          requested <- Get_or_throw json (lit "max_tokens") ;;
          let max_tokens := chat_max_tokens context_window requested in
          let temperature :=
            clamped (OptGet json (lit "temperature")) (Num.of_Z 2)
              (Num.of_decimal false 7 (-1)) in
          let topP :=
            clamped (OptGet json (lit "top_p")) (Num.of_Z 1)
              (Num.of_decimal false 9 (-1)) in
          tools <- chat_tools json ;;
          inr (mkChatRequest model messages stream max_tokens temperature topP
                 (fst tools) (snd tools))
    | _ =>
        throw (ValidationError
                 (lit "messages are required and must be a non-empty array")
                 (Some (lit "messages")))
    end.

End ChatHandler.

(** The loop of lines 179-187, for an OSS model: [inputText] after the
    messages. *)
Fixpoint oss_lines (processedMessages : list value) (inputText : jsstring)
  : result jsstring :=
  match processedMessages with
  | [] => inr inputText
  | message :: rest =>
      role <- Get_or_throw message (lit "role") ;;
      if is_string role (lit "system") then
        content <- Get_or_throw message (lit "content") ;;
        shown <- ToString_or_throw content ;;
        oss_lines rest (inputText ++ lit "[SYSTEM] " ++ shown ++ [10])
      else if is_string role (lit "user") then
        content <- Get_or_throw message (lit "content") ;;
        shown <- ToString_or_throw content ;;
        oss_lines rest (inputText ++ lit "[USER] " ++ shown ++ [10])
      else if is_string role (lit "assistant") then
        content <- Get_or_throw message (lit "content") ;;
        shown <- ToString_or_throw content ;;
        oss_lines rest (inputText ++ lit "[ASSISTANT] " ++ shown ++ [10])
      else oss_lines rest inputText
  end.

(** [aiParams.input] (line 188). *)
Definition oss_input (processedMessages : list value) : result jsstring :=
  inputText <- oss_lines processedMessages [] ;;
  inr (trim inputText).

(** *** embeddingsHandler (src/routes/embeddings.js, lines 131-214) *)

Record embeddings_request := mkEmbeddings {
  e_model : jsstring;
  e_pooling : jsstring;
  e_inputText : list jsstring
}.

(** The loop of lines 179-183. *)
Fixpoint validate_items (inputText : list value) : result (list jsstring) :=
  match inputText with
  | [] => inr []
  | VStr text :: rest =>
      if len (trim text) =? 0 then
        throw (ValidationError (lit "All input items must be non-empty strings")
                 None)
      else
        texts <- validate_items rest ;;
        inr (text :: texts)
  | _ :: _ =>
      throw (ValidationError (lit "All input items must be non-empty strings")
               None)
  end.

(** Lines 159-183: [inputText], once it has passed the checks. *)
Definition prepare_input (input : value) : result (list jsstring) :=
  inputText <-
    match input with
    | VStr _ => inr [input]
    | VArr items => inr items
    | _ =>
        throw (ValidationError
                 (lit "Input must be a string or array of strings") None)
    end ;;
  if Z.of_nat (length inputText) =? 0 then
    throw (ValidationError (lit "Input cannot be empty") None)
  else if 100 <? Z.of_nat (length inputText) then
    throw (ValidationError (lit "Batch size cannot exceed 100 items") None)
  else validate_items inputText.

(** Lines 153-156: [pooling] is taken from the request only when it is
    one of the two strings. *)
Definition pooling_of (requested : value) : jsstring :=
  match requested with
  | VStr p =>
      if ToBoolean requested &&
         (Str.eqb (lit "mean") p || Str.eqb (lit "cls") p)
      then p else lit "mean"
  | _ => lit "mean"
  end.

Section EmbeddingsHandler.

(** [resolveModel('embeddings', requested)]. *)
Variable resolveModel : value -> result jsstring.

(** The [try] block of the handler up to line 183: the request it has
    validated, or the exception that leaves the block. *)
Definition embeddings_prepare (contentType : option jsstring) (json : value)
  : result embeddings_request :=
  if negb (is_json contentType) then
    throw (ValidationError (lit "Content-Type must be application/json") None)
  else
    input <- Get_or_throw json (lit "input") ;;
    if negb (ToBoolean input) then
      throw (ValidationError (lit "Missing required field: input") None)
    else
      requested <- Get_or_throw json (lit "model") ;;
      model <- (if ToBoolean requested then resolveModel requested
                else inr (lit "@cf/baai/bge-base-en-v1.5")) ;;
      pooling <- Get_or_throw json (lit "pooling") ;;
      inputText <- prepare_input input ;;
      inr (mkEmbeddings model (pooling_of pooling) inputText).

End EmbeddingsHandler.

(** Line 214. *)
Definition totalTokens (inputText : list jsstring) : Z :=
  fold_left (fun sum text => sum + Math.ceil_div (len text) 4) inputText 0.

(** *** ragChatHandler (src/routes/rag.js, lines 72-116) *)

(** Lines 73-87: the messages of the request and the last of them. *)
Definition rag_messages (contentType : option jsstring) (body : value)
  : result (list value * value) :=
  if negb (is_json contentType) then
    throw (ValidationError (lit "Content-Type must be application/json") None)
  else
    messages <- Get_or_throw body (lit "messages") ;;
    match messages with
    | VArr items =>
        if Z.of_nat (length items) =? 0 then
          throw (ValidationError (lit "Missing or invalid messages array")
                   (Some (lit "messages")))
        else
          let lastMessage := nth (length items - 1) items VUndefined in
          role <- Get_or_throw lastMessage (lit "role") ;;
          match role with
          | VStr r =>
              if negb (Str.eqb r (lit "user")) then
                throw (ValidationError (lit "Last message must be from user")
                         (Some (lit "messages")))
              else inr (items, lastMessage)
          | _ =>
              throw (ValidationError (lit "Last message must be from user")
                       (Some (lit "messages")))
          end
    | _ =>
        throw (ValidationError (lit "Missing or invalid messages array")
                 (Some (lit "messages")))
    end.

(** [contextMessage] (lines 104-112), for a [ragResult.context] that is a
    string. *)
Definition contextMessage (context : jsstring) (sources : list value) : value :=
  VObj [(lit "role", VStr (lit "system"));
        (lit "content",
         VStr (lit "Use the following context to help answer the user's question. If the context doesn't contain relevant information, you can still use your general knowledge."
               ++ [10; 10] ++ lit "Context:" ++ [10] ++ context ++ [10; 10] ++
               lit "Sources: " ++
               Num.toString (Num.of_Z (Z.of_nat (length sources))) ++
               lit " relevant documents found."))].

(** [enhancedMessages] (lines 100-116). *)
Definition enhancedMessages (messages : list value) (context : jsstring)
  (sources : list value) : list value :=
  if ToBoolean (VStr context) then
    Array_splice messages (-1) 0 [contextMessage context sources]
  else messages.

(** ** Auxiliary definitions for the proofs *)

(** The first line of a text, with its newline, and the text after it. *)
Fixpoint cut_line (s : jsstring) : option (jsstring * jsstring) :=
  match s with
  | [] => None
  | c :: r =>
      if c =? 10 then Some ([c], r)
      else match cut_line r with
           | Some (l, r') => Some (c :: l, r')
           | None => None
           end
  end.

(** The text after the first occurrence of [needle]. *)
Fixpoint after (needle s : jsstring) : option jsstring :=
  if startsWith s needle then Some (skipn (length needle) s)
  else match s with
       | [] => None
       | _ :: s' => after needle s'
       end.

(** The decoded text of a list of chunks: each chunk is decoded on its
    own, as [transform] does. *)
Definition decoded (chunks : list bytes) : jsstring :=
  concat (map Utf8.decode chunks).

(** What [finalChunk] and every [newChunk] of the chat transformer have
    in common: the text up to and including the brace that opens
    [delta]. *)
Definition chat_head (uuid : jsstring) (created : Num.number) (model : jsstring)
  : jsstring :=
  lit "data: " ++ [123] ++
  JSON.quote (lit "id") ++ [58] ++ JSON.quote uuid ++ [44] ++
  JSON.quote (lit "created") ++ [58] ++ JSON.serialize_number created ++ [44] ++
  JSON.quote (lit "object") ++ [58] ++
  JSON.quote (lit "chat.completion.chunk") ++ [44] ++
  JSON.quote (lit "model") ++ [58] ++ JSON.quote model ++ [44] ++
  JSON.quote (lit "choices") ++ [58; 91; 123] ++
  JSON.quote (lit "delta") ++ [58; 123].

(** A frame of the chat transformer that carries content: neither the
    terminating frame nor the sentinel frame. *)
Definition is_data (uuid : jsstring) (created : Num.number) (model : jsstring)
  (f : bytes) : Prop :=
  f <> final_frame uuid created model /\ f <> done_frame.

Definition bytes_eq_dec : forall a b : bytes, {a = b} + {a <> b} :=
  list_eq_dec Z.eq_dec.

(** What the chat transformer has enqueued by the time the session is
    over: frames with content, then the terminating frame, then the
    sentinel frame. *)
Definition closed_output (uuid : jsstring) (created : Num.number)
  (model : jsstring) (out : list bytes) : Prop :=
  exists ds,
    out = ds ++ [final_frame uuid created model; done_frame] /\
    Forall (is_data uuid created model) ds.

(** A frame of the completion transformer: one with a fragment, or the
    sentinel frame. *)
Definition completion_frames (uuid : jsstring) (created : Num.number)
  (model : jsstring) (out : list bytes) : Prop :=
  Forall (fun f => f = done_frame \/
                   exists response,
                     f = completion_frame uuid created model response) out.

(** A result of the JSON parser that is not out of fuel, and whose rest
    is shorter than the input. *)
Definition progress {A : Type} (s : jsstring) (res : JSON.presult A) : Prop :=
  match res with
  | JSON.POk _ r => (length r < length s)%nat
  | JSON.PSyntaxError => True
  | JSON.POutOfFuel => False
  end.

(** The state of a chat transformer after the chunks of a stream. *)
Definition chat_state_after (uuid : jsstring) (created : Num.number)
  (model : jsstring) (chunks : list bytes) : chat_state :=
  fst (chat_run uuid created model chat_init chunks).

(** What holds of the variables of a chat transformer between two calls:
    a finished session has seen the marker, and a session that has seen
    the marker and is not finished holds no complete line. *)
Definition chat_invariant (st : chat_state) : Prop :=
  (isFinished st = true -> pastThinkTag st = true) /\
  (pastThinkTag st = true -> isFinished st = false -> ~ In 10 (buffer st)).

(** The data lines of a list of bodies, one after the other. *)
Definition data_lines (bodies : list jsstring) : jsstring :=
  concat (map (fun body => lit "data: " ++ body ++ [10]) bodies).

(** A body of a data line with the response that [JSON.parse] finds in
    it. *)
Definition carries (body : jsstring) (response : value) : Prop :=
  ~ In 10 body /\
  exists data, JSON.parse (body ++ [10]) = Some data /\
               Get data (lit "response") = Some response.

(** A frame of the completion transformer that carries a fragment. *)
Definition completion_data (uuid : jsstring) (created : Num.number)
  (model : jsstring) (f : bytes) : Prop :=
  exists response, f = completion_frame uuid created model response.

(** A completion session in which the line loop has nothing to say: a
    call with an empty chunk would enqueue nothing. After a sentinel line
    this means that no line that follows it in the buffer gets a
    frame. *)
Definition completion_quiet (uuid : jsstring) (created : Num.number)
  (model : jsstring) (st : completion_state) : Prop :=
  snd (completion_transform uuid created model st []) = [].

(** A text or a byte sequence without control characters: no newline, no
    carriage return. *)
Definition no_control (s : list Z) : Prop := Forall (fun c => 32 <= c) s.

(** One server-sent event with one [data] field: the only line ends are
    the two that close it. *)
Definition sse_event (frame : bytes) : Prop :=
  exists body, frame = lit "data: " ++ body ++ [10; 10] /\ no_control body.

(** A tool that the model is given: its type is [function]. *)
Definition is_function_tool (tool : value) : Prop :=
  Get tool (lit "type") = Some (VStr (lit "function")).

(** A tool that passed the loop of lines 127-134: its function has a
    name. *)
Definition has_name (tool : value) : Prop :=
  exists function, Get tool (lit "function") = Some function /\
                   ToBoolean (OptGet function (lit "name")) = true.

(** The URL of an image item, [item.image_url?.url]. *)
Definition item_url (item : value) : value :=
  match Get item (lit "image_url") with
  | Some image_url => OptGet image_url (lit "url")
  | None => VUndefined
  end.

(** An item that, if it is an image, holds its image: its URL is a data
    URL, from the request or from the converter. *)
Definition inline_image (convert : jsstring -> option jsstring) (item : value)
  : Prop :=
  Get item (lit "type") = Some (VStr (lit "image_url")) ->
  exists url,
    item_url item = VStr url /\
    (startsWith url (lit "data:") = true \/
     exists remote, startsWith remote (lit "http") = true /\
                    convert remote = Some url).

(** ** Sample inputs *)

(** A text, or its bytes when it is all ASCII, written with an apostrophe
    wherever it has a double quote. *)
Definition txt (s : string) : jsstring :=
  map (fun c => if c =? 39 then 34 else c) (lit s).
Arguments txt s%_string.

(** The arguments of a sample session. *)
Definition uuid0 : jsstring := lit "b1946ac9".
Definition created0 : Num.number := Num.of_Z 1700000000.
Definition model0 : jsstring := lit "llama-3".

(** A stream cut inside the marker and inside the sentinel line. *)
Definition cut_stream : list bytes :=
  [txt "reasoning...</thi";
   txt "nk>data: {'response':'Hi'}" ++ [10] ++ txt "data: [DO";
   txt "NE]" ++ [10]].

(** A stream cut between the two bytes of an e with acute accent. *)
Definition cut_accent : list bytes :=
  [txt "</think>data: {'response':'" ++ [195]; [169] ++ txt "'}" ++ [10]].

(** A stream with a line behind the sentinel line, in a chunk of its
    own. *)
Definition late_line : list bytes :=
  [txt "</think>data: [DONE]" ++ [10];
   txt "data: {'response':'late'}" ++ [10]].

(** A chat stream that ends without a sentinel line. *)
Definition unfinished_stream : list bytes :=
  [txt "</think>data: {'response':'Hi'}" ++ [10]].

(** Two preambles, the chunks that complete the marker after them, and
    the chunks that follow. *)
Definition preamble_a : list bytes := [txt "Let me think"; txt " about it.</th"].
Definition preamble_b : list bytes := [].
Definition marker_a : bytes := txt "ink>data: {'resp".
Definition marker_b : bytes := txt "42 is the answer</think>data: {'resp".
Definition tail_ab : list bytes :=
  [txt "onse':'Hi'}" ++ [10]; txt "data: [DONE]" ++ [10]].

(** The helpers of a sample deployment: a requested model resolves to
    itself, one model has a context window, and the default for
    [max_tokens] is 256. *)
Definition resolveModel0 (requested : value) : result jsstring :=
  match requested with
  | VStr m => inr m
  | _ => inr (lit "llama-3")
  end.

Definition MODEL_CONTEXT_WINDOWS0 (model : jsstring) : option Num.number :=
  if Str.eqb model (lit "llama-3") then Some (Num.of_Z 8192) else None.

Definition calculateDefaultMaxTokens0 (model : jsstring) : Num.number :=
  Num.of_Z 256.

Definition json_type : option jsstring := Some (lit "application/json").

(** A completion request with a temperature of zero and a [top_p] above
    one. *)
Definition completion_body : value :=
  VObj [(lit "prompt", VStr (lit "Hi"));
        (lit "temperature", VNum (Num.of_Z 0));
        (lit "top_p", VNum (Num.of_Z 5))].

(** An embeddings request for two texts, with a pooling that is not
    known. *)
Definition embeddings_body : value :=
  VObj [(lit "input", VArr [VStr (lit "alpha"); VStr (lit "be")]);
        (lit "pooling", VStr (lit "max"))].

Definition rag_body : value :=
  VObj [(lit "messages",
         VArr [VObj [(lit "role", VStr (lit "system"));
                     (lit "content", VStr (lit "Be brief."))];
               VObj [(lit "role", VStr (lit "user"));
                     (lit "content", VStr (lit "Why?"))]])].

(** A chat request with one tool and a temperature above two. *)
Definition chat_body : value :=
  VObj [(lit "messages",
         VArr [VObj [(lit "role", VStr (lit "user"));
                     (lit "content", VStr (lit "Hi"))]]);
        (lit "temperature", VNum (Num.of_Z 3));
        (lit "tools",
         VArr [VObj [(lit "type", VStr (lit "function"));
                     (lit "function", VObj [(lit "name", VStr (lit "f"))])]])].

(** A converter that always succeeds, a message with a text and a remote
    image, and the message with the image it is turned into. *)
Definition convert0 (url : jsstring) : option jsstring :=
  Some (lit "data:image/png;base64,iVBORw0KGgo=").

Definition multimodal_messages : list value :=
  [VObj [(lit "role", VStr (lit "user"));
         (lit "content",
          VArr [VObj [(lit "type", VStr (lit "text"));
                      (lit "text", VStr (lit "What is this?"))];
                VObj [(lit "type", VStr (lit "image_url"));
                      (lit "image_url",
                       VObj [(lit "url", VStr (lit "https://example.com/a.png"));
                             (lit "detail", VStr (lit "low"))])]])]].

Definition multimodal_processed : list value :=
  [VObj [(lit "role", VStr (lit "user"));
         (lit "content",
          VArr [VObj [(lit "type", VStr (lit "text"));
                      (lit "text", VStr (lit "What is this?"))];
                VObj [(lit "type", VStr (lit "image_url"));
                      (lit "image_url",
                       VObj [(lit "url",
                              VStr (lit "data:image/png;base64,iVBORw0KGgo="))])]])]].

(** ** Strings *)

Lemma eqb_eq (a b : jsstring) : Str.eqb a b = true <-> a = b.
Proof.
  revert b; induction a as [|x a IH]; intros [|y b]; simpl; split;
    try congruence; try reflexivity.
  - intros H. apply andb_true_iff in H as [H1 H2].
    apply Z.eqb_eq in H1. apply IH in H2. congruence.
  - intros H. injection H as -> ->. rewrite Z.eqb_refl. simpl. now apply IH.
Qed.

Lemma startsWith_nil (s : jsstring) : startsWith s [] = true.
Proof. now destruct s. Qed.

Lemma startsWith_app (p s : jsstring) : startsWith (p ++ s) p = true.
Proof.
  induction p as [|x p IH]; simpl.
  - now destruct s.
  - now rewrite Z.eqb_refl.
Qed.

Lemma startsWith_cons (a : Z) (s p : jsstring) :
  startsWith (a :: s) (a :: p) = startsWith s p.
Proof. simpl. now rewrite Z.eqb_refl. Qed.

Lemma startsWith_app_cancel (x s p : jsstring) :
  startsWith (x ++ s) (x ++ p) = startsWith s p.
Proof.
  induction x as [|a x IH]; [reflexivity|].
  simpl app. now rewrite startsWith_cons.
Qed.

Lemma startsWith_split (s p : jsstring) :
  startsWith s p = true -> s = p ++ skipn (length p) s.
Proof.
  revert s; induction p as [|x p IH]; intros s H; simpl in *.
  - reflexivity.
  - destruct s as [|y s]; [discriminate|].
    apply andb_true_iff in H as [H1 H2]. apply Z.eqb_eq in H1. subst y.
    simpl. f_equal. now apply IH.
Qed.

Lemma startsWith_length (s p : jsstring) :
  startsWith s p = true -> (length p <= length s)%nat.
Proof.
  intros H. apply startsWith_split in H.
  apply (f_equal (@length Z)) in H. rewrite length_app in H. lia.
Qed.

Lemma startsWith_app_true (s p t : jsstring) :
  startsWith s p = true -> startsWith (s ++ t) p = true.
Proof.
  intros H. rewrite (startsWith_split _ _ H), <- app_assoc.
  apply startsWith_app.
Qed.

Lemma startsWith_app_false (s p t : jsstring) :
  startsWith s p = false -> (length p <= length s)%nat ->
  startsWith (s ++ t) p = false.
Proof.
  revert s; induction p as [|x p IH]; intros s H L; simpl in *.
  - now destruct s.
  - destruct s as [|y s]; simpl in *; [lia|].
    destruct (x =? y); simpl in *; [|reflexivity].
    apply IH; [assumption|lia].
Qed.

Lemma len_nonneg (s : jsstring) : 0 <= len s.
Proof. unfold len. lia. Qed.

Lemma slice_from_app (l r : jsstring) : slice_from (l ++ r) (len l) = r.
Proof.
  unfold slice_from, slice_index, len.
  rewrite length_app.
  replace (Z.of_nat (length l) <? 0) with false
    by (symmetry; apply Z.ltb_ge; lia).
  rewrite Z.min_l by lia. rewrite Nat2Z.id.
  now rewrite skipn_app, skipn_all, Nat.sub_diag.
Qed.

Lemma slice_app (l r : jsstring) : slice (l ++ r) 0 (len l) = l.
Proof.
  unfold slice, slice_index, len.
  rewrite length_app. simpl.
  replace (Z.of_nat (length l) <? 0) with false
    by (symmetry; apply Z.ltb_ge; lia).
  rewrite !Z.min_l by lia. rewrite Z.sub_0_r, Nat2Z.id. simpl.
  now rewrite firstn_app, firstn_all, Nat.sub_diag, app_nil_r.
Qed.

Lemma substring_from_app (l r : jsstring) : substring_from (l ++ r) (len l) = r.
Proof.
  unfold substring_from, len.
  rewrite length_app.
  rewrite Z.max_l by lia. rewrite Z.min_l by lia. rewrite Nat2Z.id.
  now rewrite skipn_app, skipn_all, Nat.sub_diag.
Qed.

(** *** indexOf and the first line *)

Lemma cut_line_app_eq (s l r : jsstring) : cut_line s = Some (l, r) -> s = l ++ r.
Proof.
  revert l r; induction s as [|c s IH]; intros l r H; simpl in H; [discriminate|].
  destruct (c =? 10).
  - now injection H as <- <-.
  - destruct (cut_line s) as [[l' r']|]; [|discriminate].
    injection H as <- <-. simpl. f_equal. now apply IH.
Qed.

Lemma cut_line_shorter (s l r : jsstring) :
  cut_line s = Some (l, r) -> (length r < length s)%nat.
Proof.
  intros H. pose proof (cut_line_app_eq _ _ _ H) as E.
  destruct l as [|x l].
  - destruct s as [|c s]; simpl in H; [discriminate|].
    destruct (c =? 10); [discriminate|].
    destruct (cut_line s) as [[? ?]|]; discriminate.
  - subst s. simpl. rewrite length_app. lia.
Qed.

Lemma indexOf_from_newline (s : jsstring) (pos : Z) :
  0 <= pos ->
  match cut_line s with
  | None => indexOf_from s [10] pos = -1
  | Some (l, r) => indexOf_from s [10] pos = pos + len l - 1
  end.
Proof.
  revert pos; induction s as [|c s IH]; intros pos Hp;
    cbn [cut_line indexOf_from startsWith].
  - reflexivity.
  - rewrite (Z.eqb_sym 10 c), startsWith_nil.
    destruct (c =? 10) eqn:E; cbn [andb].
    + unfold len; simpl length. lia.
    + specialize (IH (pos + 1) ltac:(lia)).
      destruct (cut_line s) as [[l r]|].
      * rewrite IH. unfold len. simpl length. lia.
      * exact IH.
Qed.

Lemma indexOf_newline_none (s : jsstring) :
  cut_line s = None -> indexOf s [10] = -1.
Proof.
  intros H. pose proof (indexOf_from_newline s 0 ltac:(lia)) as I.
  now rewrite H in I.
Qed.

Lemma indexOf_newline_some (s l r : jsstring) :
  cut_line s = Some (l, r) ->
  indexOf s [10] + 1 = len l /\ (indexOf s [10] =? -1) = false.
Proof.
  intros H. pose proof (indexOf_from_newline s 0 ltac:(lia)) as I.
  rewrite H in I. unfold indexOf. rewrite I.
  pose proof (len_nonneg l). split; [lia|].
  apply Z.eqb_neq.
  destruct l as [|x l]; [|unfold len; simpl length; lia].
  destruct s as [|c s]; simpl in H; [discriminate|].
  destruct (c =? 10); [discriminate|].
  destruct (cut_line s) as [[? ?]|]; discriminate.
Qed.

(** *** indexOf and the text after the marker *)

Lemma indexOf_from_after (needle s : jsstring) (pos : Z) :
  0 <= pos ->
  match after needle s with
  | None => indexOf_from s needle pos = -1
  | Some post =>
      exists pre, s = pre ++ needle ++ post /\
                  indexOf_from s needle pos = pos + len pre
  end.
Proof.
  revert pos; induction s as [|c s IH]; intros pos Hp.
  - destruct needle as [|x needle]; simpl; [|reflexivity].
    exists []. split; [reflexivity|unfold len; simpl; lia].
  - unfold after, indexOf_from; fold after; fold indexOf_from.
    destruct (startsWith (c :: s) needle) eqn:E.
    + exists []. split; [|unfold len; simpl; lia].
      simpl. now apply startsWith_split.
    + specialize (IH (pos + 1) ltac:(lia)).
      destruct (after needle s) as [post|]; [|exact IH].
      destruct IH as [pre [E1 E2]]. exists (c :: pre). split.
      * simpl. now f_equal.
      * rewrite E2. unfold len. simpl length. lia.
Qed.

Lemma indexOf_after_none (needle s : jsstring) :
  after needle s = None -> (indexOf s needle =? -1) = true.
Proof.
  intros H. pose proof (indexOf_from_after needle s 0 ltac:(lia)) as I.
  rewrite H in I. unfold indexOf. now rewrite I.
Qed.

Lemma indexOf_after_some (needle s post : jsstring) :
  after needle s = Some post ->
  (indexOf s needle =? -1) = false /\
  substring_from s (indexOf s needle + len needle) = post.
Proof.
  intros H. pose proof (indexOf_from_after needle s 0 ltac:(lia)) as I.
  rewrite H in I. destruct I as [pre [E1 E2]]. unfold indexOf. rewrite E2.
  pose proof (len_nonneg pre). split; [apply Z.eqb_neq; lia|].
  rewrite E1 at 1. rewrite app_assoc.
  replace (0 + len pre + len needle) with (len (pre ++ needle))
    by (unfold len; rewrite length_app; lia).
  apply substring_from_app.
Qed.

(** ** The line loop *)

Section LineLoop.

Variable on_line : jsstring -> step.

Lemma line_loop_step (f : nat) (b : jsstring) :
  line_loop on_line (S f) b =
  match cut_line b with
  | None => (b, [], false)
  | Some (l, r) =>
      match on_line l with
      | Return out => (r, out, true)
      | Next out =>
          let '(b', out', ret) := line_loop on_line f r in (b', out ++ out', ret)
      end
  end.
Proof.
  cbn [line_loop].
  destruct (cut_line b) as [[l r]|] eqn:E.
  - destruct (indexOf_newline_some _ _ _ E) as [I N].
    rewrite N, I. rewrite (cut_line_app_eq _ _ _ E).
    now rewrite slice_app, slice_from_app.
  - now rewrite (indexOf_newline_none _ E).
Qed.

Lemma line_loop_fuel (f1 f2 : nat) (b : jsstring) :
  (length b < f1)%nat -> (length b < f2)%nat ->
  line_loop on_line f1 b = line_loop on_line f2 b.
Proof.
  revert f2 b; induction f1 as [|f1 IH]; intros f2 b H1 H2; [lia|].
  destruct f2 as [|f2]; [lia|].
  rewrite !line_loop_step.
  destruct (cut_line b) as [[l r]|] eqn:E; [|reflexivity].
  apply cut_line_shorter in E.
  destruct (on_line l); [|reflexivity].
  now rewrite (IH f2 r) by lia.
Qed.

(** The loop, one round unfolded: the fuel of [read_lines] suffices for
    every buffer. *)
Lemma read_lines_eq (b : jsstring) :
  read_lines on_line b =
  match cut_line b with
  | None => (b, [], false)
  | Some (l, r) =>
      match on_line l with
      | Return out => (r, out, true)
      | Next out =>
          let '(b', out', ret) := read_lines on_line r in (b', out ++ out', ret)
      end
  end.
Proof.
  unfold read_lines. rewrite line_loop_step.
  destruct (cut_line b) as [[l r]|] eqn:E; [|reflexivity].
  apply cut_line_shorter in E.
  destruct (on_line l); [|reflexivity].
  now rewrite (line_loop_fuel (length b) (S (length r)) r) by lia.
Qed.

(** Induction over a buffer, line by line. *)
Lemma buffer_ind (P : jsstring -> Prop) :
  (forall b, cut_line b = None -> P b) ->
  (forall b l r, cut_line b = Some (l, r) -> P r -> P b) ->
  forall b, P b.
Proof.
  intros H0 H1 b.
  remember (length b) as n eqn:Hn.
  revert b Hn. induction n as [n IH] using lt_wf_ind. intros b Hn.
  destruct (cut_line b) as [[l r]|] eqn:E.
  - apply (H1 b l r E). apply (IH (length r)); [|reflexivity].
    apply cut_line_shorter in E. lia.
  - now apply H0.
Qed.

Lemma cut_line_app_some (b l r y : jsstring) :
  cut_line b = Some (l, r) -> cut_line (b ++ y) = Some (l, r ++ y).
Proof.
  revert l r; induction b as [|c b IH]; intros l r H; simpl in *; [discriminate|].
  destruct (c =? 10).
  - now injection H as <- <-.
  - destruct (cut_line b) as [[l' r']|]; [|discriminate].
    injection H as <- <-. now rewrite (IH l' r').
Qed.

(** Text appended to the buffer of a loop that was left by [return] waits
    there; appended to the buffer of a loop that ran out of lines, it is
    read with what was left. *)
Lemma read_lines_app (x y : jsstring) :
  read_lines on_line (x ++ y) =
  match read_lines on_line x with
  | (b, out, true) => (b ++ y, out, true)
  | (b, out, false) =>
      let '(b', out', ret) := read_lines on_line (b ++ y) in (b', out ++ out', ret)
  end.
Proof.
  induction x as [x E|x l r E IH] using buffer_ind.
  - rewrite (read_lines_eq x), E. simpl.
    now destruct (read_lines on_line (x ++ y)) as [[b' out'] ret].
  - rewrite (read_lines_eq x), (read_lines_eq (x ++ y)).
    rewrite E, (cut_line_app_some _ _ _ y E).
    destruct (on_line l) as [out|out]; [|reflexivity].
    rewrite IH.
    destruct (read_lines on_line r) as [[b1 out1] [|]].
    + reflexivity.
    + destruct (read_lines on_line (b1 ++ y)) as [[b2 out2] ret].
      now rewrite app_assoc.
Qed.

Lemma read_lines_no_newline (b : jsstring) :
  cut_line b = None -> read_lines on_line b = (b, [], false).
Proof. intros E. now rewrite read_lines_eq, E. Qed.

End LineLoop.

Lemma after_length (needle s post : jsstring) :
  after needle s = Some post -> (length needle <= length s)%nat.
Proof.
  induction s as [|c s IH]; intros H.
  - destruct needle as [|x needle]; [simpl; lia|discriminate H].
  - unfold after in H; fold after in H.
    destruct (startsWith (c :: s) needle) eqn:E.
    + now apply startsWith_length.
    + apply IH in H. simpl. lia.
Qed.

(** The first occurrence of the marker stays the first when text is
    appended. *)
Lemma after_app_some (needle s post t : jsstring) :
  after needle s = Some post -> after needle (s ++ t) = Some (post ++ t).
Proof.
  induction s as [|c s IH]; intros H.
  - destruct needle as [|x needle]; [|discriminate H]. injection H as <-.
    simpl. destruct t; reflexivity.
  - pose proof (after_length _ _ _ H) as L.
    unfold after in H; fold after in H.
    change ((c :: s) ++ t) with (c :: (s ++ t)).
    unfold after; fold after.
    change (c :: (s ++ t)) with ((c :: s) ++ t).
    destruct (startsWith (c :: s) needle) eqn:E.
    + rewrite (startsWith_app_true _ _ t E). injection H as <-.
      f_equal. rewrite skipn_app.
      apply startsWith_length in E.
      replace (length needle - length (c :: s))%nat with 0%nat by lia.
      reflexivity.
    + rewrite (startsWith_app_false _ _ t E L). now apply IH.
Qed.

(** ** The chat transformer on decoded text *)

Section Chat.

Variable uuid : jsstring.
Variable created : Num.number.
Variable model : jsstring.

Local Abbreviation feed := (chat_feed uuid created model).
Local Abbreviation feeds := (chat_feeds uuid created model).
Local Abbreviation lines := (chat_lines uuid created model).
Local Abbreviation on_line := (chat_line uuid created model).

Lemma chat_transform_feed (st : chat_state) (chunk : bytes) :
  chat_transform uuid created model st chunk = feed st (Utf8.decode chunk).
Proof. reflexivity. Qed.

Lemma chat_run_feeds (st : chat_state) (chunks : list bytes) :
  chat_run uuid created model st chunks = feeds st (map Utf8.decode chunks).
Proof.
  revert st; induction chunks as [|c cs IH]; intros st; simpl; [reflexivity|].
  rewrite chat_transform_feed.
  destruct (feed st (Utf8.decode c)) as [st1 out1]. now rewrite IH.
Qed.

(** [transform] in terms of the text after the marker. *)
Lemma chat_feed_spec (st : chat_state) (t : jsstring) :
  feed st t =
  if isFinished st then (st, [])
  else if pastThinkTag st then lines (buffer st ++ t)
  else match after thinkTagEnd (buffer st ++ t) with
       | Some post => lines post
       | None => (mkChat (buffer st ++ t) false false, [])
       end.
Proof.
  unfold chat_feed.
  destruct (isFinished st); [reflexivity|].
  destruct (pastThinkTag st); cbn [negb]; [reflexivity|].
  destruct (after thinkTagEnd (buffer st ++ t)) as [post|] eqn:E.
  - destruct (indexOf_after_some _ _ _ E) as [N S].
    now rewrite N, S.
  - now rewrite (indexOf_after_none _ _ E).
Qed.

Lemma chat_equiv_refl (s : chat_state) : chat_equiv s s.
Proof. now split. Qed.

Lemma chat_equiv_finished (s1 s2 : chat_state) :
  isFinished s1 = true -> isFinished s2 = true -> chat_equiv s1 s2.
Proof. intros H1 H2. split; congruence. Qed.

Lemma chat_feed_equiv (s1 s2 : chat_state) (t : jsstring) :
  chat_equiv s1 s2 ->
  snd (feed s1 t) = snd (feed s2 t) /\
  chat_equiv (fst (feed s1 t)) (fst (feed s2 t)).
Proof.
  intros [E1 E2]. destruct (isFinished s1) eqn:F.
  - rewrite !chat_feed_spec, F, <- E1. simpl. split; [reflexivity|].
    now apply chat_equiv_finished.
  - rewrite <- (E2 eq_refl). split; [reflexivity|apply chat_equiv_refl].
Qed.

Lemma chat_feeds_equiv (s1 s2 : chat_state) (ts : list jsstring) :
  chat_equiv s1 s2 ->
  snd (feeds s1 ts) = snd (feeds s2 ts) /\
  chat_equiv (fst (feeds s1 ts)) (fst (feeds s2 ts)).
Proof.
  revert s1 s2; induction ts as [|t ts IH]; intros s1 s2 E; simpl.
  - now split.
  - destruct (chat_feed_equiv s1 s2 t E) as [O S].
    destruct (feed s1 t) as [a1 o1], (feed s2 t) as [a2 o2]. simpl in O, S.
    destruct (IH a1 a2 S) as [O' S'].
    destruct (feeds a1 ts) as [b1 p1], (feeds a2 ts) as [b2 p2]. simpl in *.
    split; [congruence|assumption].
Qed.

(** The line loop on a buffer to which text is appended, against the
    loop on the buffer followed by a call on the text. *)
Lemma chat_lines_app (p y : jsstring) :
  snd (lines (p ++ y)) = snd (lines p) ++ snd (feed (fst (lines p)) y) /\
  chat_equiv (fst (lines (p ++ y))) (fst (feed (fst (lines p)) y)).
Proof.
  rewrite chat_feed_spec. unfold chat_lines.
  rewrite (read_lines_app on_line p y).
  destruct (read_lines on_line p) as [[b out] [|]]; simpl.
  - rewrite app_nil_r. split; [reflexivity|]. now apply chat_equiv_finished.
  - destruct (read_lines on_line (b ++ y)) as [[b' out'] ret]; simpl.
    split; [reflexivity|apply chat_equiv_refl].
Qed.

(** A text fed in two parts. *)
Lemma chat_feed_app (st : chat_state) (x y : jsstring) :
  snd (feed st (x ++ y)) = snd (feed st x) ++ snd (feed (fst (feed st x)) y) /\
  chat_equiv (fst (feed st (x ++ y))) (fst (feed (fst (feed st x)) y)).
Proof.
  rewrite (chat_feed_spec st (x ++ y)), (chat_feed_spec st x).
  destruct (isFinished st) eqn:F.
  - simpl. rewrite chat_feed_spec, F. simpl. split; [reflexivity|].
    now apply chat_equiv_finished.
  - rewrite app_assoc.
    destruct (pastThinkTag st) eqn:P.
    + apply chat_lines_app.
    + destruct (after thinkTagEnd (buffer st ++ x)) as [post|] eqn:E.
      * rewrite (after_app_some _ _ _ y E). apply chat_lines_app.
      * simpl. rewrite chat_feed_spec. simpl.
        split; [reflexivity|apply chat_equiv_refl].
Qed.

(** Texts fed one after the other, against their concatenation fed at
    once. *)
Lemma chat_feeds_concat (st : chat_state) (t : jsstring) (ts : list jsstring) :
  snd (feeds st (t :: ts)) = snd (feed st (concat (t :: ts))) /\
  chat_equiv (fst (feeds st (t :: ts))) (fst (feed st (concat (t :: ts)))).
Proof.
  revert st t; induction ts as [|u ts IH]; intros st t.
  - simpl. rewrite app_nil_r. destruct (feed st t) as [s1 o1]. simpl.
    rewrite app_nil_r. split; [reflexivity|apply chat_equiv_refl].
  - change (concat (t :: u :: ts)) with (t ++ concat (u :: ts)).
    destruct (chat_feed_app st t (concat (u :: ts))) as [O S].
    rewrite O. clear O.
    change (feeds st (t :: u :: ts)) with
      (let '(st1, out1) := feed st t in
       let '(st2, out2) := feeds st1 (u :: ts) in (st2, out1 ++ out2)).
    destruct (feed st t) as [s1 o1]. cbn [fst snd] in *.
    destruct (IH s1 u) as [O' S'].
    destruct (feeds s1 (u :: ts)) as [s2 o2]. cbn [fst snd] in *.
    split; [congruence|].
    destruct S as [Sa Sb], S' as [Sa' Sb']. split; [congruence|].
    intros F. rewrite (Sb' F). symmetry. apply Sb. congruence.
Qed.

End Chat.

(** ** The completion transformer on decoded text *)

Section Completion.

Variable uuid : jsstring.
Variable created : Num.number.
Variable model : jsstring.

Local Abbreviation feed := (completion_feed uuid created model).
Local Abbreviation feeds := (completion_feeds uuid created model).
Local Abbreviation lines := (completion_lines uuid created model).
Local Abbreviation on_line := (completion_line uuid created model).

Lemma completion_transform_feed (st : completion_state) (chunk : bytes) :
  completion_transform uuid created model st chunk = feed st (Utf8.decode chunk).
Proof. reflexivity. Qed.

Lemma completion_run_feeds (st : completion_state) (chunks : list bytes) :
  completion_run uuid created model st chunks = feeds st (map Utf8.decode chunks).
Proof.
  revert st; induction chunks as [|c cs IH]; intros st; simpl; [reflexivity|].
  rewrite completion_transform_feed.
  destruct (feed st (Utf8.decode c)) as [st1 out1]. now rewrite IH.
Qed.

Lemma completion_feed_spec (st : completion_state) (t : jsstring) :
  feed st t =
  if c_pastThinkTag st then lines (c_buffer st ++ t)
  else match after thinkTagEnd (c_buffer st ++ t) with
       | Some post => lines post
       | None => (mkCompletion (c_buffer st ++ t) false, [])
       end.
Proof.
  unfold completion_feed.
  destruct (c_pastThinkTag st); cbn [negb]; [reflexivity|].
  destruct (after thinkTagEnd (c_buffer st ++ t)) as [post|] eqn:E.
  - destruct (indexOf_after_some _ _ _ E) as [N S].
    now rewrite N, S.
  - now rewrite (indexOf_after_none _ _ E).
Qed.

(** The completion transformer returns from the loop only on the
    sentinel line, having enqueued the sentinel frame alone. *)
Lemma completion_line_return (l : jsstring) (out : list bytes) :
  on_line l = Return out -> out = [done_frame].
Proof.
  unfold completion_line.
  destruct (startsWith l (lit "data: ")); [|discriminate].
  destruct (Str.eqb _ _); [congruence|].
  destruct (JSON.parse _) as [data|]; [|discriminate].
  destruct (Get data _); discriminate.
Qed.

Lemma completion_return_done (x b : jsstring) (out : list bytes) :
  read_lines on_line x = (b, out, true) -> In done_frame out.
Proof.
  revert b out. induction x as [x E|x l r E IH] using buffer_ind; intros b out H.
  - rewrite read_lines_eq, E in H. discriminate.
  - rewrite read_lines_eq, E in H.
    destruct (on_line l) as [o|o] eqn:L.
    + destruct (read_lines on_line r) as [[b1 o1] ret].
      injection H as <- <- ->. apply in_or_app. right. now apply (IH b1).
    + injection H as <- <-. rewrite (completion_line_return _ _ L). now left.
Qed.

Lemma completion_lines_app (p y : jsstring) :
  ~ In done_frame (snd (lines (p ++ y))) ->
  lines (p ++ y) =
  (fst (feed (fst (lines p)) y), snd (lines p) ++ snd (feed (fst (lines p)) y)).
Proof.
  rewrite completion_feed_spec. unfold completion_lines.
  rewrite (read_lines_app on_line p y).
  destruct (read_lines on_line p) as [[b out] [|]] eqn:R; simpl.
  - intros H. exfalso. apply H. now apply (completion_return_done p b).
  - now destruct (read_lines on_line (b ++ y)) as [[b' out'] ret].
Qed.

(** A text fed in two parts, when no sentinel line is reached. *)
Lemma completion_feed_app (st : completion_state) (x y : jsstring) :
  ~ In done_frame (snd (feed st (x ++ y))) ->
  feed st (x ++ y) =
  (fst (feed (fst (feed st x)) y), snd (feed st x) ++ snd (feed (fst (feed st x)) y)).
Proof.
  rewrite (completion_feed_spec st (x ++ y)), (completion_feed_spec st x).
  rewrite app_assoc.
  destruct (c_pastThinkTag st) eqn:P.
  - apply completion_lines_app.
  - destruct (after thinkTagEnd (c_buffer st ++ x)) as [post|] eqn:E.
    + rewrite (after_app_some _ _ _ y E). apply completion_lines_app.
    + intros _. simpl. rewrite completion_feed_spec. simpl.
      destruct (after thinkTagEnd ((c_buffer st ++ x) ++ y)) as [post|];
        [|reflexivity].
      now destruct (lines post).
Qed.

Lemma completion_feeds_concat (st : completion_state) (t : jsstring)
  (ts : list jsstring) :
  ~ In done_frame (snd (feed st (concat (t :: ts)))) ->
  feeds st (t :: ts) = feed st (concat (t :: ts)).
Proof.
  revert st t; induction ts as [|u ts IH]; intros st t H.
  - simpl. rewrite app_nil_r. destruct (feed st t) as [s1 o1].
    now rewrite app_nil_r.
  - change (concat (t :: u :: ts)) with (t ++ concat (u :: ts)) in *.
    rewrite (completion_feed_app st t _ H) in H |- *.
    change (feeds st (t :: u :: ts)) with
      (let '(st1, out1) := feed st t in
       let '(st2, out2) := feeds st1 (u :: ts) in (st2, out1 ++ out2)).
    destruct (feed st t) as [s1 o1]. cbn [fst snd] in *.
    rewrite (IH s1 u).
    + now destruct (feed s1 (concat (u :: ts))).
    + intros I. apply H. apply in_or_app. now right.
Qed.

Lemma completion_line_frames (l : jsstring) :
  completion_frames uuid created model
    (match on_line l with Next out | Return out => out end).
Proof.
  unfold completion_line, completion_frames.
  destruct (startsWith l (lit "data: ")); [|constructor].
  destruct (Str.eqb _ _).
  { constructor; [now left|constructor]. }
  destruct (JSON.parse _) as [data|]; [|constructor].
  destruct (Get data _) as [r|]; [|constructor].
  constructor; [right; now exists r|constructor].
Qed.

Lemma completion_read_lines_frames (x : jsstring) :
  completion_frames uuid created model (snd (fst (read_lines on_line x))).
Proof.
  induction x as [x E|x l r E IH] using buffer_ind.
  - rewrite read_lines_eq, E. constructor.
  - rewrite read_lines_eq, E.
    pose proof (completion_line_frames l) as L.
    destruct (on_line l) as [o|o]; [|exact L].
    destruct (read_lines on_line r) as [[b1 o1] r1]. simpl in *.
    apply Forall_app. now split.
Qed.

Lemma completion_feed_frames (st : completion_state) (t : jsstring) :
  completion_frames uuid created model (snd (feed st t)).
Proof.
  rewrite completion_feed_spec.
  assert (L : forall b, completion_frames uuid created model (snd (lines b))).
  { intros b. unfold completion_lines.
    pose proof (completion_read_lines_frames b) as R.
    now destruct (read_lines on_line b) as [[b' o] r]. }
  destruct (c_pastThinkTag st); [apply L|].
  destruct (after thinkTagEnd (c_buffer st ++ t)); [apply L|constructor].
Qed.

Lemma completion_feeds_frames (st : completion_state) (ts : list jsstring) :
  completion_frames uuid created model (snd (feeds st ts)).
Proof.
  revert st; induction ts as [|t ts IH]; intros st; simpl; [constructor|].
  pose proof (completion_feed_frames st t) as F.
  destruct (feed st t) as [s1 o1]. specialize (IH s1).
  destruct (feeds s1 ts) as [s2 o2]. simpl in *.
  apply Forall_app. now split.
Qed.

End Completion.

(** ** Frames *)

Lemma encode_ascii_cons (c : Z) (s : jsstring) :
  0 <= c < 128 -> Utf8.encode (c :: s) = c :: Utf8.encode s.
Proof.
  intros H. cbn [Utf8.encode]. unfold Utf8.is_high, Utf8.is_low, Utf8.encode_cp.
  replace (55296 <=? c) with false by (symmetry; apply Z.leb_gt; lia).
  replace (56320 <=? c) with false by (symmetry; apply Z.leb_gt; lia).
  replace (c <? 128) with true by (symmetry; apply Z.ltb_lt; lia).
  reflexivity.
Qed.

(** An ASCII character separates what is encoded before it from what is
    encoded after it. *)
Lemma encode_app_ascii (a : jsstring) (c : Z) (rest : jsstring) :
  0 <= c < 128 ->
  Utf8.encode (a ++ c :: rest) = Utf8.encode a ++ c :: Utf8.encode rest.
Proof.
  intros H.
  assert (L : Utf8.is_low c = false).
  { unfold Utf8.is_low.
    replace (56320 <=? c) with false by (symmetry; apply Z.leb_gt; lia).
    reflexivity. }
  remember (length a) as n eqn:Hn. revert a Hn.
  induction n as [n IH] using lt_wf_ind. intros a Hn.
  destruct a as [|x a].
  - change (Utf8.encode (c :: rest) = c :: Utf8.encode rest).
    exact (encode_ascii_cons c rest H).
  - change ((x :: a) ++ c :: rest) with (x :: (a ++ c :: rest)).
    cbn [Utf8.encode].
    destruct (Utf8.is_high x).
    + destruct a as [|y a]; cbn [app]; cbv beta iota.
      * rewrite L. rewrite (encode_ascii_cons c rest H). reflexivity.
      * destruct (Utf8.is_low y).
        -- rewrite (IH (length a)) by (subst n; simpl; lia || reflexivity).
           now rewrite app_assoc.
        -- change (y :: (a ++ c :: rest)) with ((y :: a) ++ c :: rest).
           rewrite (IH (length (y :: a))) by (subst n; simpl; lia || reflexivity).
           now rewrite app_assoc.
    + destruct (Utf8.is_low x);
        (rewrite (IH (length a)) by (subst n; simpl; lia || reflexivity));
        now rewrite app_assoc.
Qed.

(** Texts built with [++] brought to one shape, and a proof that one is
    a prefix of the other, block by block. *)
Ltac norm_app :=
  unfold JSON.quote;
  cbn -[JSON.serialize_number startsWith];
  repeat (rewrite <- app_assoc; cbn -[JSON.serialize_number startsWith]).

Ltac prefix_tac :=
  norm_app;
  repeat match goal with
         | |- startsWith (?x ++ _) (?x ++ _) = true =>
             rewrite (startsWith_app_cancel x)
         | |- startsWith (?a :: _) (?a :: _) = true =>
             rewrite (startsWith_cons a)
         end;
  apply startsWith_nil.

Lemma finalChunk_head (uuid : jsstring) (created : Num.number) (model : jsstring) :
  startsWith (finalChunk uuid created model)
    (chat_head uuid created model ++ [125]) = true.
Proof.
  unfold finalChunk, chat_head, JSON.stringify_text.
  prefix_tac.
Qed.

Lemma chat_newChunk_head (uuid : jsstring) (created : Num.number)
  (model : jsstring) (content : value) :
  startsWith (chat_newChunk uuid created model content)
    (chat_head uuid created model ++ [34]) = true.
Proof.
  unfold chat_newChunk, chat_head, JSON.stringify_text.
  cbn -[JSON.serialize_number startsWith].
  destruct (JSON.serialize content); prefix_tac.
Qed.

(** A frame with content is not the terminating frame: after the brace
    that opens [delta] the one goes on with a quote, the other closes it. *)
Lemma chat_frame_not_final (uuid : jsstring) (created : Num.number)
  (model : jsstring) (content : value) :
  chat_frame uuid created model content <> final_frame uuid created model.
Proof.
  unfold chat_frame, final_frame.
  rewrite (startsWith_split _ _ (finalChunk_head uuid created model)).
  rewrite (startsWith_split _ _ (chat_newChunk_head uuid created model content)).
  rewrite <- !app_assoc. cbn [app].
  rewrite !encode_app_ascii by lia.
  intros E. apply app_inv_head in E. discriminate E.
Qed.

Lemma stringify_text_object (props : list (jsstring * value)) :
  exists t, JSON.stringify_text (VObj props) = 123 :: t.
Proof. unfold JSON.stringify_text. simpl. eexists. reflexivity. Qed.

(** A frame whose text is [data: ] and an object is not the sentinel
    frame: its seventh byte is a brace, not a bracket. *)
Lemma object_frame_not_done (props : list (jsstring * value)) :
  Utf8.encode (lit "data: " ++ JSON.stringify_text (VObj props) ++ [10; 10])
  <> done_frame.
Proof.
  destruct (stringify_text_object props) as [t ->].
  cbn [lit app]. rewrite !encode_ascii_cons by (cbn; lia).
  intros E. apply (f_equal (fun l => nth 6 l 0)) in E.
  vm_compute in E. discriminate E.
Qed.

Lemma chat_frame_not_done (uuid : jsstring) (created : Num.number)
  (model : jsstring) (content : value) :
  chat_frame uuid created model content <> done_frame.
Proof. apply object_frame_not_done. Qed.

Lemma final_frame_not_done (uuid : jsstring) (created : Num.number)
  (model : jsstring) :
  final_frame uuid created model <> done_frame.
Proof. apply object_frame_not_done. Qed.

Lemma completion_frame_not_done (uuid : jsstring) (created : Num.number)
  (model : jsstring) (response : value) :
  completion_frame uuid created model response <> done_frame.
Proof. apply object_frame_not_done. Qed.

Lemma chat_frame_is_data (uuid : jsstring) (created : Num.number)
  (model : jsstring) (content : value) :
  is_data uuid created model (chat_frame uuid created model content).
Proof. split; [apply chat_frame_not_final|apply chat_frame_not_done]. Qed.

Lemma count_last_two (ds : list bytes) (f d : bytes) :
  f <> d -> ~ In f ds -> ~ In d ds ->
  count_occ bytes_eq_dec (ds ++ [f; d]) f = 1%nat /\
  count_occ bytes_eq_dec (ds ++ [f; d]) d = 1%nat.
Proof.
  intros N F D.
  rewrite !count_occ_app.
  rewrite (proj1 (count_occ_not_In bytes_eq_dec ds f) F).
  rewrite (proj1 (count_occ_not_In bytes_eq_dec ds d) D).
  simpl.
  destruct (bytes_eq_dec f f) as [_|X]; [|now elim X].
  destruct (bytes_eq_dec d d) as [_|X]; [|now elim X].
  destruct (bytes_eq_dec d f) as [X|_]; [now elim N|].
  destruct (bytes_eq_dec f d) as [X|_]; [now elim N|].
  split; reflexivity.
Qed.

(** ** The shape of the chat output *)

Section ChatShape.

Variable uuid : jsstring.
Variable created : Num.number.
Variable model : jsstring.

Local Abbreviation feed := (chat_feed uuid created model).
Local Abbreviation feeds := (chat_feeds uuid created model).
Local Abbreviation on_line := (chat_line uuid created model).
Local Abbreviation final := (final_frame uuid created model).
Local Abbreviation data := (is_data uuid created model).
Local Abbreviation closed_output := (closed_output uuid created model).

Lemma chat_line_cases (l : jsstring) :
  on_line l = Return [final; done_frame] \/
  exists out, on_line l = Next out /\ Forall data out.
Proof.
  unfold chat_line.
  destruct (startsWith l (lit "data: ")); [|right; now exists []].
  destruct (Str.eqb _ _); [now left|right].
  destruct (JSON.parse _) as [d|]; [|now exists []].
  destruct (Get d _) as [r|]; [|now exists []].
  destruct (ToBoolean r); [|now exists []].
  eexists. split; [reflexivity|].
  constructor; [apply chat_frame_is_data|constructor].
Qed.

Lemma chat_read_lines_shape (x b : jsstring) (out : list bytes) (ret : bool) :
  read_lines on_line x = (b, out, ret) ->
  if ret then closed_output out else Forall data out.
Proof.
  revert b out ret.
  induction x as [x E|x l r E IH] using buffer_ind; intros b out ret H.
  - rewrite read_lines_eq, E in H. injection H as <- <- <-. constructor.
  - rewrite read_lines_eq, E in H.
    destruct (chat_line_cases l) as [L|[o [L D]]]; rewrite L in H.
    + injection H as <- <- <-. exists []. now split.
    + destruct (read_lines on_line r) as [[b1 o1] r1] eqn:R.
      injection H as <- <- <-. specialize (IH _ _ _ eq_refl).
      destruct r1.
      * destruct IH as [ds [-> F]]. exists (o ++ ds). split.
        -- now rewrite app_assoc.
        -- apply Forall_app. now split.
      * apply Forall_app. now split.
Qed.

Lemma chat_feed_finished (st : chat_state) (t : jsstring) :
  isFinished st = true -> feed st t = (st, []).
Proof. intros F. unfold chat_feed. now rewrite F. Qed.

Lemma chat_feeds_finished (st : chat_state) (ts : list jsstring) :
  isFinished st = true -> feeds st ts = (st, []).
Proof.
  intros F. induction ts as [|t ts IH]; simpl; [reflexivity|].
  now rewrite (chat_feed_finished st t F), IH.
Qed.

Lemma chat_lines_shape (b : jsstring) :
  if isFinished (fst (chat_lines uuid created model b))
  then closed_output (snd (chat_lines uuid created model b))
  else Forall data (snd (chat_lines uuid created model b)).
Proof.
  unfold chat_lines.
  destruct (read_lines on_line b) as [[b' out] ret] eqn:R. simpl.
  apply (chat_read_lines_shape _ _ _ _ R).
Qed.

Lemma chat_feed_shape (st : chat_state) (t : jsstring) :
  isFinished st = false ->
  if isFinished (fst (feed st t)) then closed_output (snd (feed st t))
  else Forall data (snd (feed st t)).
Proof.
  intros F. rewrite chat_feed_spec, F.
  destruct (pastThinkTag st); [apply chat_lines_shape|].
  destruct (after thinkTagEnd (buffer st ++ t)); [apply chat_lines_shape|].
  simpl. constructor.
Qed.

Lemma chat_feeds_shape (st : chat_state) (ts : list jsstring) :
  isFinished st = false ->
  if isFinished (fst (feeds st ts)) then closed_output (snd (feeds st ts))
  else Forall data (snd (feeds st ts)).
Proof.
  revert st; induction ts as [|t ts IH]; intros st F.
  - simpl. rewrite F. constructor.
  - pose proof (chat_feed_shape st t F) as S. simpl.
    destruct (feed st t) as [s1 o1]. simpl in S.
    destruct (isFinished s1) eqn:F1.
    + rewrite (chat_feeds_finished s1 ts F1). simpl.
      now rewrite F1, app_nil_r.
    + specialize (IH s1 F1). destruct (feeds s1 ts) as [s2 o2]. simpl in *.
      destruct (isFinished s2).
      * destruct IH as [ds [-> D]]. exists (o1 ++ ds). split.
        -- now rewrite app_assoc.
        -- apply Forall_app. now split.
      * apply Forall_app. now split.
Qed.

(** Every stream ends with the terminating frame and the sentinel frame,
    and has neither before. *)
Lemma chat_stream_shape (chunks : list bytes) :
  closed_output (chat_stream uuid created model chunks).
Proof.
  unfold chat_stream. rewrite chat_run_feeds.
  pose proof (chat_feeds_shape chat_init (map Utf8.decode chunks) eq_refl) as S.
  destruct (feeds chat_init (map Utf8.decode chunks)) as [st out].
  simpl in S. unfold chat_flush.
  destruct (isFinished st); simpl.
  - now rewrite app_nil_r.
  - exists out. now split.
Qed.

Lemma count_closed_output (out : list bytes) :
  closed_output out ->
  count_occ bytes_eq_dec out final = 1%nat /\
  count_occ bytes_eq_dec out done_frame = 1%nat.
Proof.
  intros [ds [-> D]].
  apply count_last_two.
  - apply final_frame_not_done.
  - intros I. rewrite Forall_forall in D.
    destruct (D _ I) as [X _]. exact (X eq_refl).
  - intros I. rewrite Forall_forall in D.
    destruct (D _ I) as [_ X]. exact (X eq_refl).
Qed.

End ChatShape.

(** ** JSON.parse never runs out of fuel *)

Module JSONFacts.

Import JSON.

Lemma progress_mono {A : Type} (s s' : jsstring) (res : presult A) :
  progress s' res -> (length s' <= length s)%nat -> progress s res.
Proof. destruct res; simpl; intros; (lia || assumption). Qed.

Lemma skip_ws_le (s : jsstring) : (length (skip_ws s) <= length s)%nat.
Proof.
  induction s as [|c s IH]; simpl; [lia|].
  destruct (is_ws c); simpl; lia.
Qed.

Lemma string_body_lt (s acc k r : jsstring) :
  string_body s acc = Some (k, r) -> (length r < length s)%nat.
Proof.
  remember (length s) as n eqn:Hn. revert s acc Hn.
  induction n as [n IH] using lt_wf_ind. intros s acc Hn H.
  destruct s as [|c s]; [discriminate H|].
  cbn [string_body] in H. simpl length in Hn.
  destruct (c =? 34).
  { injection H as <- <-. lia. }
  destruct (c =? 92).
  - destruct s as [|e s1]; [discriminate H|].
    destruct (e =? 117).
    + destruct s1 as [|a [|b [|c' [|d r2]]]]; try discriminate H.
      destruct (hex4 a b c' d); [|discriminate H].
      apply (IH (length r2)) in H; simpl in *; lia.
    + destruct (unescape e); [|discriminate H].
      apply (IH (length s1)) in H; simpl in *; lia.
  - destruct (c <? 32); [discriminate H|].
    apply (IH (length s)) in H; simpl in *; lia.
Qed.

Lemma span_digits_le (s ds r : jsstring) :
  span_digits s = (ds, r) -> (length r <= length s)%nat.
Proof.
  revert ds r; induction s as [|c s IH]; intros ds r H; simpl in H.
  - injection H as <- <-. simpl. lia.
  - destruct (is_digit c).
    + destruct (span_digits s) as [ds' r'] eqn:E. injection H as <- <-.
      specialize (IH _ _ eq_refl). simpl. lia.
    + injection H as <- <-. lia.
Qed.

Lemma number_lt (s : jsstring) (n : Num.number) (r : jsstring) :
  number s = Some (n, r) -> (length r < length s)%nat.
Proof.
  unfold number.
  set (s0 := if match s with c :: _ => c =? 45 | [] => false end then tl s else s).
  assert (L0 : (length s0 <= length s)%nat).
  { subst s0. destruct s as [|c s]; simpl; [lia|]. destruct (c =? 45); simpl; lia. }
  destruct (int_part s0) as [[ip s1]|] eqn:I; [|discriminate].
  assert (L1 : (length s1 < length s0)%nat).
  { unfold int_part in I. destruct s0 as [|c t]; [discriminate I|].
    destruct (c =? 48).
    - injection I as <- <-. simpl. lia.
    - destruct (is_digit c) eqn:D; [|discriminate I].
      injection I as I. simpl in I. rewrite D in I.
      destruct (span_digits t) as [ds' r'] eqn:E. injection I as <- <-.
      apply span_digits_le in E. simpl. lia. }
  destruct (frac_part s1) as [[fp s2]|] eqn:F; [|discriminate].
  assert (L2 : (length s2 <= length s1)%nat).
  { unfold frac_part in F. destruct s1 as [|c t]; [injection F as <- <-; lia|].
    destruct (c =? 46).
    - destruct (span_digits t) as [[|d ds] r'] eqn:E; [discriminate F|].
      injection F as <- <-. apply span_digits_le in E. simpl. lia.
    - injection F as <- <-. lia. }
  destruct (exp_part s2) as [[e s3]|] eqn:X; [|discriminate].
  assert (L3 : (length s3 <= length s2)%nat).
  { unfold exp_part in X. destruct s2 as [|c t]; [injection X as <- <-; lia|].
    destruct ((c =? 101) || (c =? 69)).
    - destruct (span_digits _) as [[|d ds] r'] eqn:E; [discriminate X|].
      injection X as <- <-. apply span_digits_le in E.
      destruct t as [|x t']; simpl in *; [lia|].
      destruct ((x =? 45) || (x =? 43)); simpl in *; lia.
    - injection X as <- <-. lia. }
  intros H. injection H as <- <-. lia.
Qed.

Lemma keyword_progress (s : jsstring) (c : ascii) (w : string) (v : value) :
  progress s (keyword s (String c w) v).
Proof.
  unfold keyword. destruct (startsWith s (lit (String c w))) eqn:E; [|exact I].
  apply startsWith_split in E. simpl.
  apply (f_equal (@length Z)) in E. rewrite length_app in E.
  simpl length in *. lia.
Qed.

Lemma parse_progress (fuel : nat) :
  (forall s, (2 * length s < fuel)%nat -> progress s (parse_value fuel s)) /\
  (forall s acc, (2 * length s + 1 < fuel)%nat ->
                 progress s (parse_elements fuel s acc)) /\
  (forall s acc, (2 * length s + 1 < fuel)%nat ->
                 progress s (parse_members fuel s acc)).
Proof.
  induction fuel as [|f [IHv [IHe IHm]]].
  - repeat split; intros; lia.
  - split; [|split].
    + intros s L. cbn [parse_value].
      pose proof (skip_ws_le s) as W.
      destruct (skip_ws s) as [|c r]; [exact I|]. simpl length in W.
      destruct (c =? 123).
      { pose proof (skip_ws_le r) as W2.
        destruct (skip_ws r) as [|d r']; [exact I|]. simpl length in W2.
        destruct (d =? 125); [simpl; lia|].
        apply (progress_mono _ (d :: r')); [apply IHm; simpl; lia|simpl; lia]. }
      destruct (c =? 91).
      { pose proof (skip_ws_le r) as W2.
        destruct (skip_ws r) as [|d r']; [exact I|]. simpl length in W2.
        destruct (d =? 93); [simpl; lia|].
        apply (progress_mono _ (d :: r')); [apply IHe; simpl; lia|simpl; lia]. }
      destruct (c =? 34).
      { destruct (string_body r []) as [[str r']|] eqn:B; [|exact I].
        apply string_body_lt in B. simpl. lia. }
      destruct (c =? 116).
      { apply (progress_mono _ (c :: r)); [apply keyword_progress|simpl; lia]. }
      destruct (c =? 102).
      { apply (progress_mono _ (c :: r)); [apply keyword_progress|simpl; lia]. }
      destruct (c =? 110).
      { apply (progress_mono _ (c :: r)); [apply keyword_progress|simpl; lia]. }
      destruct (number (c :: r)) as [[n r']|] eqn:N; [|exact I].
      apply number_lt in N. simpl in *. lia.
    + intros s acc L. cbn [parse_elements].
      pose proof (IHv s ltac:(lia)) as P.
      destruct (parse_value f s) as [v r| |]; [|exact I|exact P].
      simpl in P. pose proof (skip_ws_le r) as W.
      destruct (skip_ws r) as [|c r']; [exact I|]. simpl length in W.
      destruct (c =? 44).
      { apply (progress_mono _ r'); [apply IHe; lia|lia]. }
      destruct (c =? 93); [simpl; lia|exact I].
    + intros s acc L. cbn [parse_members].
      pose proof (skip_ws_le s) as W.
      destruct (skip_ws s) as [|q r0]; [exact I|]. simpl length in W.
      destruct (q =? 34); [|exact I].
      destruct (string_body r0 []) as [[k r1]|] eqn:B; [|exact I].
      apply string_body_lt in B.
      pose proof (skip_ws_le r1) as W1.
      destruct (skip_ws r1) as [|c r2]; [exact I|]. simpl length in W1.
      destruct (c =? 58); [|exact I].
      pose proof (IHv r2 ltac:(lia)) as P.
      destruct (parse_value f r2) as [v r3| |]; [|exact I|exact P].
      simpl in P. pose proof (skip_ws_le r3) as W3.
      destruct (skip_ws r3) as [|d r4]; [exact I|]. simpl length in W3.
      destruct (d =? 44).
      { apply (progress_mono _ r4); [apply IHm; lia|lia]. }
      destruct (d =? 125); [simpl; lia|exact I].
Qed.

(** The fuel [JSON.parse] gives its parser is never used up: [None] is a
    syntax error of the text. *)
Lemma parse_value_fuel (text : jsstring) :
  parse_value (S (2 * length text)) text <> POutOfFuel.
Proof.
  pose proof (proj1 (parse_progress (S (2 * length text))) text ltac:(lia)) as P.
  intros E. now rewrite E in P.
Qed.

End JSONFacts.

(** ** The sentinel is not JSON text *)

Lemma trim_start_spec (s : jsstring) :
  exists w, s = w ++ trim_start s /\ Forall (fun c => is_space c = true) w.
Proof.
  induction s as [|c s [w [E F]]]; simpl.
  - exists []. now split.
  - destruct (is_space c) eqn:S.
    + exists (c :: w). split; [simpl; now f_equal|now constructor].
    + exists []. now split.
Qed.

Lemma trim_spec (s : jsstring) :
  exists w1 w2, s = w1 ++ trim s ++ w2 /\ Forall (fun c => is_space c = true) w1.
Proof.
  unfold trim.
  destruct (trim_start_spec s) as [w1 [E1 F1]].
  destruct (trim_start_spec (rev (trim_start s))) as [w2 [E2 _]].
  exists w1, (rev w2). split; [|assumption].
  rewrite <- rev_app_distr, <- E2, rev_involutive. exact E1.
Qed.

(** A character that [trim] strips and the JSON grammar does not skip
    starts no JSON value. *)
Lemma parse_value_space (f : nat) (c : Z) (r : jsstring) :
  is_space c = true -> JSON.is_ws c = false ->
  JSON.parse_value (S f) (c :: r) = JSON.PSyntaxError.
Proof.
  intros S W. cbn [JSON.parse_value JSON.skip_ws]. rewrite W.
  assert (N : forall k, is_space k = false -> (c =? k) = false).
  { intros k K. destruct (c =? k) eqn:E; [|reflexivity].
    apply Z.eqb_eq in E. congruence. }
  rewrite !N by reflexivity.
  unfold JSON.number. rewrite (N 45) by reflexivity.
  unfold JSON.int_part. rewrite (N 48) by reflexivity.
  replace (JSON.is_digit c) with false; [reflexivity|].
  unfold JSON.is_digit.
  destruct (48 <=? c) eqn:A; [|reflexivity].
  destruct (c <=? 57) eqn:B; [|reflexivity].
  apply Z.leb_le in A. apply Z.leb_le in B.
  assert (D : c = 48 \/ c = 49 \/ c = 50 \/ c = 51 \/ c = 52 \/ c = 53 \/
              c = 54 \/ c = 55 \/ c = 56 \/ c = 57) by lia.
  repeat (destruct D as [D|D]; [subst c; discriminate S|]).
  subst c; discriminate S.
Qed.

Lemma parse_value_sentinel (f : nat) (w rest : jsstring) :
  Forall (fun c => is_space c = true) w ->
  JSON.parse_value (S (S (S f))) (w ++ 91 :: 68 :: rest) = JSON.PSyntaxError.
Proof.
  induction w as [|c w IH]; intros F.
  - reflexivity.
  - inversion F as [|? ? S F']; subst.
    destruct (JSON.is_ws c) eqn:W.
    + specialize (IH F').
      cbn [JSON.parse_value] in IH |- *.
      change ((c :: w) ++ 91 :: 68 :: rest) with (c :: (w ++ 91 :: 68 :: rest)).
      cbn [JSON.skip_ws]. rewrite W. exact IH.
    + now apply parse_value_space.
Qed.

(** The sentinel line is taken by the test before [JSON.parse], which
    would throw on it. *)
Lemma parse_sentinel (s : jsstring) :
  trim s = lit "[DONE]" -> JSON.parse s = None.
Proof.
  intros T. destruct (trim_spec s) as [w1 [w2 [E F]]].
  rewrite T in E. unfold JSON.parse.
  assert (L : exists f, (2 * length s)%nat = S (S f)).
  { rewrite E, !length_app. simpl length.
    exists (2 * length w1 + 10 + 2 * length w2)%nat. lia. }
  destruct L as [f ->].
  rewrite E. change (lit "[DONE]" ++ w2) with (91 :: 68 :: 79 :: 78 :: 69 :: 93 :: w2).
  now rewrite parse_value_sentinel.
Qed.

Lemma parsed_not_sentinel (s : jsstring) (v : value) :
  JSON.parse s = Some v -> Str.eqb (trim s) (lit "[DONE]") = false.
Proof.
  intros P. destruct (Str.eqb (trim s) (lit "[DONE]")) eqn:E; [|reflexivity].
  apply eqb_eq in E. apply parse_sentinel in E. congruence.
Qed.

(** ** One line *)

Section Lines.

Variable uuid : jsstring.
Variable created : Num.number.
Variable model : jsstring.

Lemma data_line_content (content : jsstring) :
  startsWith (lit "data: " ++ content) (lit "data: ") = true /\
  slice_from (lit "data: " ++ content) (len (lit "data: ")) = content.
Proof. split; [apply startsWith_app|apply slice_from_app]. Qed.

(** The sentinel line, in either transformer. *)
Lemma chat_line_sentinel (content : jsstring) :
  trim content = lit "[DONE]" ->
  chat_line uuid created model (lit "data: " ++ content) =
  Return [final_frame uuid created model; done_frame].
Proof.
  intros T. unfold chat_line.
  destruct (data_line_content content) as [-> ->].
  now rewrite (proj2 (eqb_eq _ _) T).
Qed.

Lemma completion_line_sentinel (content : jsstring) :
  trim content = lit "[DONE]" ->
  completion_line uuid created model (lit "data: " ++ content) =
  Return [done_frame].
Proof.
  intros T. unfold completion_line.
  destruct (data_line_content content) as [-> ->].
  now rewrite (proj2 (eqb_eq _ _) T).
Qed.

(** A line whose content parses. *)
Lemma chat_line_parsed (content : jsstring) (data : value) :
  JSON.parse content = Some data ->
  chat_line uuid created model (lit "data: " ++ content) =
  match Get data (lit "response") with
  | Some response =>
      if ToBoolean response
      then Next [chat_frame uuid created model (actualContent response)]
      else Next []
  | None => Next []
  end.
Proof.
  intros P. unfold chat_line.
  destruct (data_line_content content) as [-> ->].
  now rewrite (parsed_not_sentinel _ _ P), P.
Qed.

Lemma completion_line_parsed (content : jsstring) (data : value) :
  JSON.parse content = Some data ->
  completion_line uuid created model (lit "data: " ++ content) =
  match Get data (lit "response") with
  | Some response => Next [completion_frame uuid created model response]
  | None => Next []
  end.
Proof.
  intros P. unfold completion_line.
  destruct (data_line_content content) as [-> ->].
  now rewrite (parsed_not_sentinel _ _ P), P.
Qed.

(** A line whose content is neither the sentinel nor JSON text. *)
Lemma chat_line_unparsed (content : jsstring) :
  trim content <> lit "[DONE]" -> JSON.parse content = None ->
  chat_line uuid created model (lit "data: " ++ content) = Next [].
Proof.
  intros T P. unfold chat_line.
  destruct (data_line_content content) as [-> ->].
  destruct (Str.eqb (trim content) (lit "[DONE]")) eqn:E.
  - now apply eqb_eq in E.
  - now rewrite P.
Qed.

Lemma completion_line_unparsed (content : jsstring) :
  trim content <> lit "[DONE]" -> JSON.parse content = None ->
  completion_line uuid created model (lit "data: " ++ content) = Next [].
Proof.
  intros T P. unfold completion_line.
  destruct (data_line_content content) as [-> ->].
  destruct (Str.eqb (trim content) (lit "[DONE]")) eqn:E.
  - now apply eqb_eq in E.
  - now rewrite P.
Qed.

(** The first line of a text that starts with a line. *)
Lemma cut_line_intro (body rest : jsstring) :
  ~ In 10 body -> cut_line (body ++ 10 :: rest) = Some (body ++ [10], rest).
Proof.
  induction body as [|c body IH]; intros N; simpl.
  - reflexivity.
  - destruct (c =? 10) eqn:E.
    + apply Z.eqb_eq in E. elim N. now left.
    + rewrite IH; [reflexivity|]. intros I. apply N. now right.
Qed.

End Lines.

Lemma neq_of_eqb (a b : jsstring) : Str.eqb a b = false -> a <> b.
Proof. intros E H. apply eqb_eq in H. congruence. Qed.

(** ** Streams *)

Lemma chat_feed_init_nil (uuid : jsstring) (created : Num.number)
  (model : jsstring) :
  chat_feed uuid created model chat_init [] = (chat_init, []).
Proof. now rewrite chat_feed_spec. Qed.

Lemma completion_feed_init_nil (uuid : jsstring) (created : Num.number)
  (model : jsstring) :
  completion_feed uuid created model completion_init [] = (completion_init, []).
Proof. now rewrite completion_feed_spec. Qed.

(** The chat transformer does not see where its decoded input was cut. *)
Lemma chat_texts_concat (uuid : jsstring) (created : Num.number)
  (model : jsstring) (ts : list jsstring) :
  snd (chat_feeds uuid created model chat_init ts) =
  snd (chat_feed uuid created model chat_init (concat ts)) /\
  chat_equiv (fst (chat_feeds uuid created model chat_init ts))
             (fst (chat_feed uuid created model chat_init (concat ts))).
Proof.
  destruct ts as [|t ts].
  - simpl concat. rewrite chat_feed_init_nil. simpl.
    split; [reflexivity|apply chat_equiv_refl].
  - apply chat_feeds_concat.
Qed.

Lemma chat_run_single (uuid : jsstring) (created : Num.number)
  (model : jsstring) (st : chat_state) (chunk : bytes) :
  chat_run uuid created model st [chunk] =
  chat_feed uuid created model st (Utf8.decode chunk).
Proof.
  simpl. rewrite chat_transform_feed.
  destruct (chat_feed uuid created model st (Utf8.decode chunk)).
  now rewrite app_nil_r.
Qed.

Lemma completion_run_single (uuid : jsstring) (created : Num.number)
  (model : jsstring) (st : completion_state) (chunk : bytes) :
  completion_run uuid created model st [chunk] =
  completion_feed uuid created model st (Utf8.decode chunk).
Proof.
  simpl. rewrite completion_transform_feed.
  destruct (completion_feed uuid created model st (Utf8.decode chunk)).
  now rewrite app_nil_r.
Qed.

(** *** More on the line loop *)

Lemma cut_line_none_iff (s : jsstring) : cut_line s = None <-> ~ In 10 s.
Proof.
  induction s as [|c s IH]; simpl.
  - split; [intros _ []|reflexivity].
  - destruct (c =? 10) eqn:E.
    + apply Z.eqb_eq in E. split; [discriminate|]. intros N. elim N. now left.
    + apply Z.eqb_neq in E. destruct (cut_line s) as [[l r]|].
      * split; [discriminate|]. intros N. exfalso.
        assert (X : ~ In 10 s) by (intros I; apply N; now right).
        apply IH in X. discriminate X.
      * split; [|reflexivity]. intros _ [I|I]; [congruence|].
        now apply (proj1 IH).
Qed.

Section LineLoopMore.

Variable on_line : jsstring -> step.

(** A loop that was not left by [return] has used up the lines. *)
Lemma read_lines_exhausts (x b : jsstring) (out : list bytes) :
  read_lines on_line x = (b, out, false) -> cut_line b = None.
Proof.
  revert b out. induction x as [x E|x l r E IH] using buffer_ind; intros b out H.
  - rewrite read_lines_eq, E in H. now injection H as <- _.
  - rewrite read_lines_eq, E in H.
    destruct (on_line l) as [o|o]; [|discriminate].
    destruct (read_lines on_line r) as [[b1 o1] r1].
    injection H as <- _ ->. now apply (IH b1 o1).
Qed.

(** A first line after which the loop goes on. *)
Lemma read_lines_next (body rest : jsstring) (out : list bytes) :
  ~ In 10 body -> on_line (body ++ [10]) = Next out ->
  read_lines on_line ((body ++ [10]) ++ rest) =
  let '(b, o, ret) := read_lines on_line rest in (b, out ++ o, ret).
Proof.
  intros N L. rewrite read_lines_eq.
  replace ((body ++ [10]) ++ rest) with (body ++ 10 :: rest)
    by (now rewrite <- app_assoc).
  now rewrite (cut_line_intro body rest N), L.
Qed.

End LineLoopMore.

Lemma data_prefix_no_newline (body : jsstring) :
  ~ In 10 body -> ~ In 10 (lit "data: " ++ body).
Proof.
  intros N I. apply in_app_or in I as [I|I]; [|now apply N].
  vm_compute in I. intuition discriminate.
Qed.

Lemma data_line_cut (body rest : jsstring) :
  ~ In 10 body ->
  cut_line ((lit "data: " ++ body ++ [10]) ++ rest) =
  Some (lit "data: " ++ body ++ [10], rest).
Proof.
  intros N.
  replace ((lit "data: " ++ body ++ [10]) ++ rest)
    with ((lit "data: " ++ body) ++ 10 :: rest)
    by (now rewrite <- !app_assoc).
  rewrite cut_line_intro.
  - now rewrite <- app_assoc.
  - intros I. apply in_app_or in I as [I|I]; [|now apply N].
    vm_compute in I. intuition discriminate.
Qed.

(** *** The frames of the completion transformer *)

Section CompletionShape.

Variable uuid : jsstring.
Variable created : Num.number.
Variable model : jsstring.

Local Abbreviation feed := (completion_feed uuid created model).
Local Abbreviation feeds := (completion_feeds uuid created model).
Local Abbreviation lines := (completion_lines uuid created model).
Local Abbreviation on_line := (completion_line uuid created model).
Local Abbreviation data := (completion_data uuid created model).
Local Abbreviation quiet := (completion_quiet uuid created model).

Lemma completion_line_cases (l : jsstring) :
  on_line l = Return [done_frame] \/
  exists out, on_line l = Next out /\ Forall data out.
Proof.
  unfold completion_line.
  destruct (startsWith l (lit "data: ")); [|right; now exists []].
  destruct (Str.eqb _ _); [now left|right].
  destruct (JSON.parse _) as [d|]; [|now exists []].
  destruct (Get d _) as [r|]; [|now exists []].
  eexists. split; [reflexivity|].
  constructor; [now exists r|constructor].
Qed.

(** What one run of the loop enqueues: frames with fragments, and then
    the sentinel frame if the loop was left by [return]. *)
Lemma completion_read_lines_shape (x b : jsstring) (out : list bytes) (ret : bool) :
  read_lines on_line x = (b, out, ret) ->
  if ret then exists ds, out = ds ++ [done_frame] /\ Forall data ds
  else Forall data out.
Proof.
  revert b out ret.
  induction x as [x E|x l r E IH] using buffer_ind; intros b out ret H.
  - rewrite read_lines_eq, E in H. injection H as <- <- <-. constructor.
  - rewrite read_lines_eq, E in H.
    destruct (completion_line_cases l) as [L|[o [L D]]]; rewrite L in H.
    + injection H as <- <- <-. exists []. now split.
    + destruct (read_lines on_line r) as [[b1 o1] r1] eqn:R.
      injection H as <- <- <-. specialize (IH _ _ _ eq_refl).
      destruct r1.
      * destruct IH as [ds [-> F]]. exists (o ++ ds). split.
        -- now rewrite app_assoc.
        -- apply Forall_app. now split.
      * apply Forall_app. now split.
Qed.

Lemma completion_data_not_done (ds : list bytes) :
  Forall data ds -> ~ In done_frame ds.
Proof.
  intros F I. rewrite Forall_forall in F. destruct (F _ I) as [r E].
  exact (completion_frame_not_done uuid created model r (eq_sym E)).
Qed.

(** A loop that enqueued nothing has used up the lines. *)
Lemma completion_read_lines_silent (x b : jsstring) (ret : bool) :
  read_lines on_line x = (b, [], ret) -> ret = false /\ cut_line b = None.
Proof.
  intros H. destruct ret.
  - pose proof (completion_return_done uuid created model x b [] H) as I.
    destruct I.
  - split; [reflexivity|]. now apply (read_lines_exhausts on_line x b []).
Qed.

Lemma completion_lines_silent (b : jsstring) :
  snd (lines b) = [] -> snd (lines (c_buffer (fst (lines b)))) = [].
Proof.
  unfold completion_lines.
  destruct (read_lines on_line b) as [[b' out] ret] eqn:R. cbn [fst snd c_buffer].
  intros ->. destruct (completion_read_lines_silent _ _ _ R) as [_ N].
  now rewrite (read_lines_no_newline on_line b' N).
Qed.

Lemma completion_quiet_lines (b : jsstring) :
  quiet (fst (lines b)) <-> snd (lines (c_buffer (fst (lines b)))) = [].
Proof.
  unfold completion_quiet. rewrite completion_transform_feed.
  change (Utf8.decode []) with (@nil Z). rewrite completion_feed_spec.
  assert (P : c_pastThinkTag (fst (lines b)) = true).
  { unfold completion_lines. now destruct (read_lines on_line b) as [[b' out] ret]. }
  rewrite P, app_nil_r. reflexivity.
Qed.

(** The loop on a buffer to which text is appended, when no line that
    gets a frame is left behind a sentinel line. *)
Lemma completion_lines_read (x b : jsstring) (out : list bytes) (ret : bool) :
  read_lines on_line x = (b, out, ret) -> lines x = (mkCompletion b true, out).
Proof. intros R. unfold completion_lines. now rewrite R. Qed.

Lemma completion_lines_app_quiet (p y : jsstring) :
  quiet (fst (lines (p ++ y))) ->
  snd (lines (p ++ y)) = snd (lines p) ++ snd (feed (fst (lines p)) y) /\
  quiet (fst (feed (fst (lines p)) y)).
Proof.
  rewrite completion_quiet_lines.
  destruct (read_lines on_line p) as [[b out] ret] eqn:R.
  rewrite (completion_lines_read _ _ _ _ R). cbn [fst snd].
  rewrite (completion_feed_spec uuid created model (mkCompletion b true) y).
  cbn [c_pastThinkTag c_buffer].
  destruct (read_lines on_line (b ++ y)) as [[b' out'] ret'] eqn:R'.
  rewrite (completion_lines_read _ _ _ _ R'). cbn [fst snd].
  pose proof (read_lines_app on_line p y) as A. rewrite R in A.
  destruct ret.
  - rewrite (completion_lines_read _ _ _ _ A). cbn [fst snd c_buffer].
    intros Q.
    rewrite (completion_lines_read _ _ _ _ R') in Q. cbn [fst snd] in Q.
    subst out'. rewrite app_nil_r. split; [reflexivity|].
    replace (mkCompletion b' true) with (fst (lines (b ++ y)))
      by now rewrite (completion_lines_read _ _ _ _ R').
    apply completion_quiet_lines. apply completion_lines_silent.
    now rewrite (completion_lines_read _ _ _ _ R').
  - rewrite R' in A.
    rewrite (completion_lines_read _ _ _ _ A). cbn [fst snd c_buffer].
    intros Q. split; [reflexivity|].
    replace (mkCompletion b' true) with (fst (lines (b ++ y)))
      by now rewrite (completion_lines_read _ _ _ _ R').
    apply completion_quiet_lines.
    now rewrite (completion_lines_read _ _ _ _ R').
Qed.

Lemma completion_feed_app_quiet (st : completion_state) (x y : jsstring) :
  quiet (fst (feed st (x ++ y))) ->
  snd (feed st (x ++ y)) = snd (feed st x) ++ snd (feed (fst (feed st x)) y) /\
  quiet (fst (feed (fst (feed st x)) y)).
Proof.
  rewrite (completion_feed_spec uuid created model st (x ++ y)),
          (completion_feed_spec uuid created model st x).
  rewrite app_assoc.
  destruct (c_pastThinkTag st) eqn:P.
  - apply completion_lines_app_quiet.
  - destruct (after thinkTagEnd (c_buffer st ++ x)) as [post|] eqn:E.
    + rewrite (after_app_some _ _ _ y E). apply completion_lines_app_quiet.
    + cbn [fst snd app]. rewrite completion_feed_spec.
      cbn [c_pastThinkTag c_buffer]. auto.
Qed.

(** Texts fed one after the other, against their concatenation fed at
    once, when no line that gets a frame is left behind a sentinel
    line. *)
Lemma completion_feeds_concat_quiet (st : completion_state) (t : jsstring)
  (ts : list jsstring) :
  quiet (fst (feed st (concat (t :: ts)))) ->
  snd (feeds st (t :: ts)) = snd (feed st (concat (t :: ts))).
Proof.
  revert st t; induction ts as [|u ts IH]; intros st t Q.
  - simpl. rewrite app_nil_r. destruct (feed st t) as [s1 o1]. simpl.
    now rewrite app_nil_r.
  - change (concat (t :: u :: ts)) with (t ++ concat (u :: ts)) in *.
    destruct (completion_feed_app_quiet st t _ Q) as [O Q1].
    rewrite O.
    change (feeds st (t :: u :: ts)) with
      (let '(st1, out1) := feed st t in
       let '(st2, out2) := feeds st1 (u :: ts) in (st2, out1 ++ out2)).
    destruct (feed st t) as [s1 o1]. cbn [fst snd] in *.
    rewrite <- (IH s1 u Q1).
    now destruct (feeds s1 (u :: ts)).
Qed.

(** A session that enqueued no sentinel frame in its last call is
    quiet. *)
Lemma completion_quiet_no_sentinel (st : completion_state) (t : jsstring) :
  ~ In done_frame (snd (feed st t)) -> quiet (fst (feed st t)).
Proof.
  rewrite completion_feed_spec.
  assert (L : forall b, ~ In done_frame (snd (lines b)) -> quiet (fst (lines b))).
  { intros b N. apply completion_quiet_lines. unfold completion_lines in *.
    destruct (read_lines on_line b) as [[b' out] ret] eqn:R.
    cbn [fst snd c_buffer] in *.
    destruct ret.
    - elim N. now apply (completion_return_done uuid created model b b').
    - now rewrite (read_lines_no_newline on_line b'
                     (read_lines_exhausts on_line b b' out R)). }
  destruct (c_pastThinkTag st); [apply L|].
  destruct (after thinkTagEnd (c_buffer st ++ t)) as [post|] eqn:E; [apply L|].
  intros _. unfold completion_quiet. rewrite completion_transform_feed.
  change (Utf8.decode []) with (@nil Z). rewrite completion_feed_spec.
  cbn [fst c_pastThinkTag c_buffer]. rewrite app_nil_r. now rewrite E.
Qed.

(** One call enqueues the sentinel frame at most once, and then as its
    last frame. *)
Lemma completion_feed_shape (st : completion_state) (t : jsstring) :
  Forall data (snd (feed st t)) \/
  exists ds, snd (feed st t) = ds ++ [done_frame] /\ Forall data ds.
Proof.
  rewrite completion_feed_spec.
  assert (L : forall b, Forall data (snd (lines b)) \/
                        exists ds, snd (lines b) = ds ++ [done_frame] /\
                                   Forall data ds).
  { intros b. unfold completion_lines.
    destruct (read_lines on_line b) as [[b' out] ret] eqn:R. cbn [snd].
    pose proof (completion_read_lines_shape _ _ _ _ R) as S.
    destruct ret; [now right|now left]. }
  destruct (c_pastThinkTag st); [apply L|].
  destruct (after thinkTagEnd (c_buffer st ++ t)); [apply L|].
  left. constructor.
Qed.

Lemma count_data (ds : list bytes) :
  Forall data ds -> count_occ bytes_eq_dec ds done_frame = 0%nat.
Proof.
  intros F. apply count_occ_not_In. now apply completion_data_not_done.
Qed.

Lemma completion_feed_count (st : completion_state) (t : jsstring) :
  (count_occ bytes_eq_dec (snd (feed st t)) done_frame <= 1)%nat.
Proof.
  destruct (completion_feed_shape st t) as [F|[ds [-> F]]].
  - rewrite (count_data _ F). lia.
  - rewrite count_occ_app, (count_data _ F). simpl.
    destruct (bytes_eq_dec done_frame done_frame); lia.
Qed.

Lemma completion_feeds_count (st : completion_state) (ts : list jsstring) :
  (count_occ bytes_eq_dec (snd (feeds st ts)) done_frame <= length ts)%nat.
Proof.
  revert st; induction ts as [|t ts IH]; intros st; simpl; [lia|].
  pose proof (completion_feed_count st t) as C.
  destruct (feed st t) as [s1 o1]. specialize (IH s1).
  destruct (feeds s1 ts) as [s2 o2]. cbn [snd] in *.
  rewrite count_occ_app. lia.
Qed.

End CompletionShape.

(** *** The frames of a stream, from its decoded text *)

Section Streams.

Variable uuid : jsstring.
Variable created : Num.number.
Variable model : jsstring.

Lemma completion_stream_run (chunks : list bytes) :
  completion_stream uuid created model chunks =
  snd (completion_run uuid created model completion_init chunks).
Proof.
  unfold completion_stream, completion_flush.
  destruct (completion_run uuid created model completion_init chunks).
  simpl. apply app_nil_r.
Qed.

(** The frames of a completion stream, from its decoded text. *)
Lemma completion_stream_text (chunks : list bytes) :
  completion_quiet uuid created model
    (fst (completion_feed uuid created model completion_init (decoded chunks))) ->
  completion_stream uuid created model chunks =
  snd (completion_feed uuid created model completion_init (decoded chunks)).
Proof.
  rewrite completion_stream_run, completion_run_feeds. unfold decoded.
  destruct (map Utf8.decode chunks) as [|t ts].
  - intros _. simpl concat. now rewrite completion_feed_init_nil.
  - apply completion_feeds_concat_quiet.
Qed.

(** The frames of a chat stream, from its decoded text. *)
Lemma chat_stream_text (chunks : list bytes) :
  chat_stream uuid created model chunks =
  snd (chat_feed uuid created model chat_init (decoded chunks)) ++
  chat_flush uuid created model
    (fst (chat_feed uuid created model chat_init (decoded chunks))).
Proof.
  unfold chat_stream. rewrite chat_run_feeds. unfold decoded.
  destruct (chat_texts_concat uuid created model (map Utf8.decode chunks))
    as [O [F S]].
  destruct (chat_feeds uuid created model chat_init (map Utf8.decode chunks))
    as [s1 o1].
  destruct (chat_feed uuid created model chat_init
              (concat (map Utf8.decode chunks))) as [s2 o2].
  cbn [fst snd] in *. subst o2. f_equal. unfold chat_flush. now rewrite F.
Qed.

Lemma chat_feed_init (t : jsstring) :
  chat_feed uuid created model chat_init t =
  match after thinkTagEnd t with
  | Some post => chat_lines uuid created model post
  | None => (mkChat t false false, [])
  end.
Proof. now rewrite chat_feed_spec. Qed.

Lemma completion_feed_init (t : jsstring) :
  completion_feed uuid created model completion_init t =
  match after thinkTagEnd t with
  | Some post => completion_lines uuid created model post
  | None => (mkCompletion t false, [])
  end.
Proof. now rewrite completion_feed_spec. Qed.

(** Data lines whose contents parse, in completion mode: one frame for
    each line. *)
Lemma completion_data_lines (bodies : list jsstring) (responses : list value)
  (rest : jsstring) :
  Forall2 carries bodies responses ->
  read_lines (completion_line uuid created model) (data_lines bodies ++ rest) =
  let '(b, o, ret) := read_lines (completion_line uuid created model) rest in
  (b, map (completion_frame uuid created model) responses ++ o, ret).
Proof.
  induction 1 as [|body r bodies responses [N [data [P G]]] F IH].
  - simpl. now destruct (read_lines _ rest) as [[b o] ret].
  - unfold data_lines in *. cbn [map concat].
    rewrite <- app_assoc.
    replace (lit "data: " ++ body ++ [10]) with ((lit "data: " ++ body) ++ [10])
      by (now rewrite <- app_assoc).
    rewrite (read_lines_next _ (lit "data: " ++ body) _
               [completion_frame uuid created model r]).
    + rewrite IH. now destruct (read_lines _ rest) as [[b o] ret].
    + now apply data_prefix_no_newline.
    + rewrite <- app_assoc.
      now rewrite (completion_line_parsed uuid created model _ _ P), G.
Qed.

(** Data lines whose contents parse, in chat mode: one frame for each
    truthy response. *)
Lemma chat_data_lines_all (bodies : list jsstring) (responses : list value)
  (rest : jsstring) :
  Forall2 carries bodies responses ->
  read_lines (chat_line uuid created model) (data_lines bodies ++ rest) =
  let '(b, o, ret) := read_lines (chat_line uuid created model) rest in
  (b, flat_map (fun r => if ToBoolean r
                         then [chat_frame uuid created model (actualContent r)]
                         else []) responses ++ o,
   ret).
Proof.
  induction 1 as [|body r bodies responses [N [data [P G]]] F IH].
  - simpl. now destruct (read_lines _ rest) as [[b o] ret].
  - unfold data_lines in *. cbn [map concat flat_map].
    rewrite <- app_assoc.
    replace (lit "data: " ++ body ++ [10]) with ((lit "data: " ++ body) ++ [10])
      by (now rewrite <- app_assoc).
    rewrite (read_lines_next _ (lit "data: " ++ body) _
               (if ToBoolean r
                then [chat_frame uuid created model (actualContent r)] else [])).
    + rewrite IH. destruct (read_lines _ rest) as [[b o] ret].
      now rewrite app_assoc.
    + now apply data_prefix_no_newline.
    + rewrite <- app_assoc.
      rewrite (chat_line_parsed uuid created model _ _ P), G.
      now destruct (ToBoolean r).
Qed.

Section Ends.

Variable chunks : list bytes.
Variable bodies : list jsstring.
Variable responses : list value.
Hypothesis parsed : Forall2 carries bodies responses.

Local Abbreviation deltas :=
  (flat_map (fun r => if ToBoolean r
                      then [chat_frame uuid created model (actualContent r)]
                      else []) responses).
Local Abbreviation fragments :=
  (map (completion_frame uuid created model) responses).

(** A stream whose text after the marker is data lines and then the
    sentinel line. *)
Lemma chat_stream_sentinel (body rest : jsstring) :
  ~ In 10 body -> trim (body ++ [10]) = lit "[DONE]" ->
  after thinkTagEnd (decoded chunks) =
    Some (data_lines bodies ++ (lit "data: " ++ body ++ [10]) ++ rest) ->
  chat_stream uuid created model chunks =
  deltas ++ [final_frame uuid created model; done_frame].
Proof.
  intros N T A. rewrite chat_stream_text, chat_feed_init, A.
  unfold chat_lines. rewrite (chat_data_lines_all _ _ _ parsed).
  rewrite read_lines_eq, (data_line_cut _ _ N).
  rewrite (chat_line_sentinel uuid created model _ T).
  cbn [fst snd]. unfold chat_flush. cbn [isFinished negb].
  now rewrite app_nil_r.
Qed.

Lemma completion_stream_sentinel (body rest : jsstring) :
  ~ In 10 body -> trim (body ++ [10]) = lit "[DONE]" ->
  after thinkTagEnd (decoded chunks) =
    Some (data_lines bodies ++ (lit "data: " ++ body ++ [10]) ++ rest) ->
  snd (completion_lines uuid created model rest) = [] ->
  completion_stream uuid created model chunks = fragments ++ [done_frame].
Proof.
  intros N T A Q.
  assert (E : completion_feed uuid created model completion_init (decoded chunks) =
              (mkCompletion rest true, fragments ++ [done_frame])).
  { rewrite completion_feed_init, A. unfold completion_lines.
    rewrite (completion_data_lines _ _ _ parsed).
    rewrite read_lines_eq, (data_line_cut _ _ N).
    now rewrite (completion_line_sentinel uuid created model _ T). }
  rewrite completion_stream_text; rewrite E; [reflexivity|].
  unfold completion_quiet. rewrite completion_transform_feed.
  change (Utf8.decode []) with (@nil Z). rewrite completion_feed_spec.
  cbn [fst c_pastThinkTag c_buffer]. now rewrite app_nil_r.
Qed.

(** A stream whose text after the marker is data lines and then an
    unfinished line. *)
Lemma chat_stream_open (tail : jsstring) :
  ~ In 10 tail ->
  after thinkTagEnd (decoded chunks) = Some (data_lines bodies ++ tail) ->
  chat_stream uuid created model chunks =
  deltas ++ [final_frame uuid created model; done_frame].
Proof.
  intros N A. rewrite chat_stream_text, chat_feed_init, A.
  unfold chat_lines. rewrite (chat_data_lines_all _ _ _ parsed).
  rewrite (read_lines_no_newline _ tail (proj2 (cut_line_none_iff tail) N)).
  cbn [fst snd]. unfold chat_flush. cbn [isFinished negb].
  now rewrite app_nil_r.
Qed.

Lemma completion_stream_open (tail : jsstring) :
  ~ In 10 tail ->
  after thinkTagEnd (decoded chunks) = Some (data_lines bodies ++ tail) ->
  completion_stream uuid created model chunks = fragments.
Proof.
  intros N A.
  pose proof (read_lines_no_newline (completion_line uuid created model) tail
                (proj2 (cut_line_none_iff tail) N)) as R.
  assert (E : completion_feed uuid created model completion_init (decoded chunks) =
              (mkCompletion tail true, fragments)).
  { rewrite completion_feed_init, A. unfold completion_lines.
    rewrite (completion_data_lines _ _ _ parsed), R.
    now rewrite app_nil_r. }
  rewrite completion_stream_text; rewrite E; [reflexivity|].
  unfold completion_quiet. rewrite completion_transform_feed.
  change (Utf8.decode []) with (@nil Z). rewrite completion_feed_spec.
  cbn [fst c_pastThinkTag c_buffer]. rewrite app_nil_r.
  unfold completion_lines. now rewrite R.
Qed.

End Ends.

End Streams.

Lemma done_frame_bytes : done_frame = lit "data: [DONE]" ++ [10; 10].
Proof. vm_compute. reflexivity. Qed.

(** * The claims *)

(** ** C1: chunk boundaries *)

(** C1, as amended. When cutting the input into chunks does not change
    the decoded text (every chunk is decoded on its own, so this asks
    that no chunk ends inside a multi-byte character and none starts
    with a byte order mark in mid-stream; all-ASCII input qualifies), the
    chat transformer enqueues the same frames for the chunks fed one
    after the other as for the whole input fed as one chunk, before and
    after the closing flush. So does the completion transformer, unless a
    line that gets a frame follows a sentinel line: that is, when a call
    with an empty chunk after the whole input would enqueue nothing, which
    holds in particular when the whole input yields no sentinel frame.
    The condition cannot be dropped: where it fails, the whole input
    followed by an empty chunk gets more frames than the whole input. *)
Theorem chunk_boundary_invariance (uuid : jsstring) (created : Num.number)
  (model : jsstring) (chunks : list bytes) :
  Utf8.decode (concat chunks) = decoded chunks ->
  snd (chat_run uuid created model chat_init chunks) =
  snd (chat_run uuid created model chat_init [concat chunks]) /\
  chat_stream uuid created model chunks =
  chat_stream uuid created model [concat chunks] /\
  (snd (completion_transform uuid created model
          (fst (completion_run uuid created model completion_init
                  [concat chunks])) []) = [] ->
   completion_stream uuid created model chunks =
   completion_stream uuid created model [concat chunks]) /\
  (~ In done_frame (completion_stream uuid created model [concat chunks]) ->
   snd (completion_transform uuid created model
          (fst (completion_run uuid created model completion_init
                  [concat chunks])) []) = []) /\
  (snd (completion_transform uuid created model
          (fst (completion_run uuid created model completion_init
                  [concat chunks])) []) <> [] ->
   completion_stream uuid created model [concat chunks; []] <>
   completion_stream uuid created model [concat chunks]).
Proof.
  intros D.
  split; [|split].
  - rewrite chat_run_single, D, chat_run_feeds. unfold decoded.
    apply chat_texts_concat.
  - rewrite !chat_stream_text. unfold decoded at 3 4. cbn [map concat].
    now rewrite app_nil_r, D.
  - fold (completion_quiet uuid created model
            (fst (completion_run uuid created model completion_init
                    [concat chunks]))).
    rewrite (completion_stream_run uuid created model [concat chunks]).
    rewrite (completion_stream_run uuid created model [concat chunks; []]).
    rewrite completion_run_single, D.
    split; [|split].
    + apply completion_stream_text.
    + apply completion_quiet_no_sentinel.
    + intros Q E. apply Q. clear Q.
      change (completion_run uuid created model completion_init [concat chunks; []])
        with (let '(st1, out1) := completion_transform uuid created model
                                    completion_init (concat chunks) in
              let '(st2, out2) := completion_run uuid created model st1 [[]] in
              (st2, out1 ++ out2)) in E.
      rewrite completion_transform_feed, D in E.
      unfold completion_quiet.
      destruct (completion_feed uuid created model completion_init
                  (decoded chunks)) as [s1 o1].
      rewrite completion_run_single in E. rewrite completion_transform_feed.
      cbn [fst] in *.
      destruct (completion_feed uuid created model s1 (Utf8.decode []))
        as [s2 o2].
      cbn [fst snd] in *.
      rewrite <- (app_nil_r o1) in E at 2. now apply app_inv_head in E.
Qed.

(** On a stream cut inside the marker and inside the sentinel line
    ([cut_stream]): the sentinel line is its last line, and the
    completion transformer enqueues the same frames for the three chunks
    as for the whole input. *)
Lemma chunk_boundary_invariance_witness :
  chat_stream uuid0 created0 model0 cut_stream =
  chat_stream uuid0 created0 model0 [concat cut_stream] /\
  completion_stream uuid0 created0 model0 cut_stream =
  completion_stream uuid0 created0 model0 [concat cut_stream] /\
  In done_frame (completion_stream uuid0 created0 model0 [concat cut_stream]).
Proof.
  assert (D : Utf8.decode (concat cut_stream) = decoded cut_stream)
    by (vm_compute; reflexivity).
  assert (Q : snd (completion_transform uuid0 created0 model0
                     (fst (completion_run uuid0 created0 model0 completion_init
                             [concat cut_stream])) []) = [])
    by (vm_compute; reflexivity).
  split; [|split].
  - exact (proj1 (proj2 (chunk_boundary_invariance uuid0 created0 model0
                           cut_stream D))).
  - exact (proj1 (proj2 (proj2 (chunk_boundary_invariance uuid0 created0 model0
                                  cut_stream D))) Q).
  - vm_compute. right. left. reflexivity.
Defined.

(** C1 as stated fails. In chat mode the two bytes of an e with acute
    accent, cut between two chunks ([cut_accent]), become two replacement
    characters. In completion mode a line behind the sentinel line gets
    a frame when it arrives in a chunk of its own ([late_line]), and none
    when it arrives in the chunk of the sentinel line. *)
Lemma chunk_split_counterexample :
  concat (chat_stream uuid0 created0 model0 cut_accent) <>
  concat (chat_stream uuid0 created0 model0 [concat cut_accent]) /\
  concat (completion_stream uuid0 created0 model0 late_line) <>
  concat (completion_stream uuid0 created0 model0 [concat late_line]).
Proof. split; apply neq_of_eqb; vm_compute; reflexivity. Qed.

(** All-ASCII input is decoded to itself, however it is cut. *)
Lemma decode_ascii (bs : bytes) :
  Forall (fun b => 0 <= b < 128) bs -> Utf8.decode bs = bs.
Proof.
  intros F. unfold Utf8.decode.
  assert (R : Utf8.run Utf8.initial bs = bs).
  { induction F as [|b bs B F IH]; [reflexivity|].
    cbn [Utf8.run]. unfold Utf8.handler, Utf8.lead. cbn [Utf8.bytes_needed Utf8.initial].
    cbn [Z.eqb].
    replace (0 <=? b) with true by (symmetry; apply Z.leb_le; lia).
    replace (b <=? 127) with true by (symmetry; apply Z.leb_le; lia).
    cbn [andb app]. now rewrite IH. }
  rewrite R.
  assert (B : Utf8.strip_bom bs = bs).
  { destruct F as [|b bs B F]; [reflexivity|]. unfold Utf8.strip_bom.
    replace (b =? 65279) with false by (symmetry; apply Z.eqb_neq; lia).
    reflexivity. }
  rewrite B. clear R B.
  induction F as [|b bs B F IH]; [reflexivity|].
  cbn [flat_map]. unfold Utf8.utf16 at 1.
  replace (b <? 65536) with true by (symmetry; apply Z.ltb_lt; lia).
  cbn [app]. now rewrite IH.
Qed.

Lemma ascii_chunks_decoded (chunks : list bytes) :
  Forall (fun b => 0 <= b < 128) (concat chunks) ->
  Utf8.decode (concat chunks) = decoded chunks.
Proof.
  intros F. rewrite (decode_ascii _ F). unfold decoded.
  induction chunks as [|c cs IH]; [reflexivity|].
  simpl in *. apply Forall_app in F as [Fc Fs].
  now rewrite (decode_ascii c Fc), <- IH.
Qed.

(** ** C2: the terminating frames *)




(** ** C3: after the sentinel *)

(** In chat mode a finished session ignores every further chunk and
    enqueues nothing more. *)
Lemma chat_finished_ignores (uuid : jsstring) (created : Num.number)
  (model : jsstring) (st : chat_state) (chunks : list bytes) :
  isFinished st = true ->
  chat_run uuid created model st chunks = (st, []) /\
  chat_flush uuid created model st = [].
Proof.
  intros F. split.
  - rewrite chat_run_feeds. now apply chat_feeds_finished.
  - unfold chat_flush. now rewrite F.
Qed.

(** The sentinel line finishes the chat session, whatever follows it in
    the buffer. *)
Lemma chat_sentinel_finishes (uuid : jsstring) (created : Num.number)
  (model : jsstring) (body rest : jsstring) :
  ~ In 10 body -> trim (body ++ [10]) = lit "[DONE]" ->
  chat_lines uuid created model ((lit "data: " ++ body) ++ 10 :: rest) =
  (mkChat rest true true, [final_frame uuid created model; done_frame]).
Proof.
  intros N T. unfold chat_lines. rewrite read_lines_eq.
  rewrite cut_line_intro.
  - rewrite <- app_assoc. now rewrite (chat_line_sentinel uuid created model _ T).
  - intros I. apply in_app_or in I as [I|I]; [|now apply N].
    vm_compute in I. intuition discriminate.
Qed.

(** C3 fails in completion mode, which keeps no [isFinished]: the
    [return] after the sentinel frame leaves only the current call, and
    the next chunk is read as before. A line that arrives after the
    sentinel line still gets its frame. *)
Theorem completion_continues_after_sentinel :
  completion_stream uuid0 created0 model0 late_line =
  [done_frame; completion_frame uuid0 created0 model0 (VStr (lit "late"))].
Proof. vm_compute. reflexivity. Qed.

(** ** C5: flushing twice *)

(** C5, as amended. [flush] writes no variable. On a finished session
    (the sentinel line was read) it enqueues nothing, so a second flush
    changes nothing; on an unfinished chat session every flush enqueues
    the terminating frame and the sentinel frame, so a second flush in
    sequence enqueues them a second time. The completion transformer has
    no flush, and closing it enqueues nothing however often. *)
Theorem flush_twice (uuid : jsstring) (created : Num.number) (model : jsstring)
  (st : chat_state) (cst : completion_state) :
  chat_flush uuid created model st =
    (if isFinished st then []
     else [final_frame uuid created model; done_frame]) /\
  chat_flush uuid created model st ++ chat_flush uuid created model st =
    (if isFinished st then []
     else [final_frame uuid created model; done_frame;
           final_frame uuid created model; done_frame]) /\
  completion_flush cst ++ completion_flush cst = completion_flush cst.
Proof.
  unfold chat_flush, completion_flush.
  destruct (isFinished st); repeat split; reflexivity.
Qed.

(** C5 as stated fails: a chat stream that ended without a sentinel line
    ([unfinished_stream]) is unfinished, and [flush] called twice on it enqueues
    four frames, not two. *)
Lemma flush_twice_counterexample :
  let st := fst (chat_run uuid0 created0 model0 chat_init unfinished_stream) in
  chat_flush uuid0 created0 model0 st ++ chat_flush uuid0 created0 model0 st <>
  chat_flush uuid0 created0 model0 st /\
  length (chat_flush uuid0 created0 model0 st ++
          chat_flush uuid0 created0 model0 st) = 4%nat /\
  length (chat_flush uuid0 created0 model0 st) = 2%nat.
Proof.
  split; [|vm_compute; split; reflexivity].
  intros E. apply (f_equal (@length bytes)) in E. vm_compute in E.
  discriminate E.
Qed.

(** ** C9: the two ways to end a stream *)

(** C9. How the two transformers end a stream, with [bodies] the
    contents of the data lines after the marker and [responses] what
    they carry. When the sentinel line follows these lines, the
    completion stream is one frame for each line and then the sentinel
    frame, with no terminating frame (this as long as no line that gets a
    frame follows the sentinel line), and the chat stream is one frame for
    each truthy response, the terminating frame with [finish_reason]
    [stop], and the sentinel frame. When the input ends without a sentinel
    line, closing the completion stream adds nothing to the frames of the
    lines, and the flush of the chat stream still adds the terminating
    frame and the sentinel frame; so it is when the marker never
    arrives. *)
Theorem finalization_asymmetry (uuid : jsstring) (created : Num.number)
  (model : jsstring) (chunks : list bytes) (bodies : list jsstring)
  (responses : list value) :
  Forall2 carries bodies responses ->
  let terminating :=
    Utf8.encode
      (lit "data: " ++
       JSON.stringify_text
         (VObj [(lit "id", VStr uuid);
                (lit "created", VNum created);
                (lit "object", VStr (lit "chat.completion.chunk"));
                (lit "model", VStr model);
                (lit "choices",
                 VArr [VObj [(lit "delta", VObj []);
                             (lit "index", VNum (Num.of_Z 0));
                             (lit "finish_reason", VStr (lit "stop"))]])])
       ++ [10; 10]) in
  let sentinel := lit "data: [DONE]" ++ [10; 10] in
  let deltas :=
    flat_map (fun r => if ToBoolean r
                       then [chat_frame uuid created model (actualContent r)]
                       else []) responses in
  let fragments := map (completion_frame uuid created model) responses in
  (forall body rest,
     ~ In 10 body -> trim (body ++ [10]) = lit "[DONE]" ->
     after thinkTagEnd (decoded chunks) =
       Some (data_lines bodies ++ (lit "data: " ++ body ++ [10]) ++ rest) ->
     chat_stream uuid created model chunks = deltas ++ [terminating; sentinel] /\
     (snd (completion_lines uuid created model rest) = [] ->
      completion_stream uuid created model chunks = fragments ++ [sentinel])) /\
  (forall tail,
     ~ In 10 tail ->
     after thinkTagEnd (decoded chunks) = Some (data_lines bodies ++ tail) ->
     chat_stream uuid created model chunks = deltas ++ [terminating; sentinel] /\
     completion_stream uuid created model chunks = fragments) /\
  (after thinkTagEnd (decoded chunks) = None ->
   chat_stream uuid created model chunks = [terminating; sentinel] /\
   completion_stream uuid created model chunks = []).
Proof.
  intros C terminating sentinel deltas fragments.
  change terminating with (final_frame uuid created model).
  unfold sentinel. rewrite <- done_frame_bytes.
  split; [|split].
  - intros body rest N T A. split.
    + exact (chat_stream_sentinel uuid created model chunks bodies responses C
               body rest N T A).
    + exact (completion_stream_sentinel uuid created model chunks bodies
               responses C body rest N T A).
  - intros tail N A. split.
    + exact (chat_stream_open uuid created model chunks bodies responses C
               tail N A).
    + exact (completion_stream_open uuid created model chunks bodies responses
               C tail N A).
  - intros A. split.
    + rewrite chat_stream_text, chat_feed_init, A. reflexivity.
    + pose proof (completion_feed_init uuid created model (decoded chunks)) as E.
      rewrite A in E.
      rewrite completion_stream_text; rewrite E; [reflexivity|].
      rewrite <- E. apply completion_quiet_no_sentinel. now rewrite E.
Qed.

(** On a stream with one data line and the sentinel line, cut inside the
    marker and inside the sentinel line ([cut_stream]), and on a stream
    with one data line that ends without a sentinel line
    ([unfinished_stream]). *)
Lemma finalization_asymmetry_witness :
  (chat_stream uuid0 created0 model0 cut_stream =
   [Utf8.encode
      (txt "data: {'id':'b1946ac9','created':1700000000,'object':'chat.completion.chunk','model':'llama-3','choices':[{'delta':{'role':'assistant','content':'Hi'},'index':0,'finish_reason':null}]}"
       ++ [10; 10]);
    Utf8.encode
      (txt "data: {'id':'b1946ac9','created':1700000000,'object':'chat.completion.chunk','model':'llama-3','choices':[{'delta':{},'index':0,'finish_reason':'stop'}]}"
       ++ [10; 10]);
    txt "data: [DONE]" ++ [10; 10]] /\
   completion_stream uuid0 created0 model0 cut_stream =
   [Utf8.encode
      (txt "data: {'id':'b1946ac9','created':1700000000,'object':'text_completion','model':'llama-3','choices':[{'text':'Hi','index':0,'logprobs':null,'finish_reason':null}]}"
       ++ [10; 10]);
    txt "data: [DONE]" ++ [10; 10]]) /\
  (chat_stream uuid0 created0 model0 unfinished_stream =
   [Utf8.encode
      (txt "data: {'id':'b1946ac9','created':1700000000,'object':'chat.completion.chunk','model':'llama-3','choices':[{'delta':{'role':'assistant','content':'Hi'},'index':0,'finish_reason':null}]}"
       ++ [10; 10]);
    Utf8.encode
      (txt "data: {'id':'b1946ac9','created':1700000000,'object':'chat.completion.chunk','model':'llama-3','choices':[{'delta':{},'index':0,'finish_reason':'stop'}]}"
       ++ [10; 10]);
    txt "data: [DONE]" ++ [10; 10]] /\
   completion_stream uuid0 created0 model0 unfinished_stream =
   [Utf8.encode
      (txt "data: {'id':'b1946ac9','created':1700000000,'object':'text_completion','model':'llama-3','choices':[{'text':'Hi','index':0,'logprobs':null,'finish_reason':null}]}"
       ++ [10; 10])]).
Proof.
  assert (C : Forall2 carries [txt "{'response':'Hi'}"] [VStr (lit "Hi")]).
  { constructor; [|constructor]. split.
    - vm_compute. intuition discriminate.
    - exists (VObj [(lit "response", VStr (lit "Hi"))]).
      split; vm_compute; reflexivity. }
  assert (N : ~ In 10 (lit "[DONE]")) by (vm_compute; intuition discriminate).
  assert (T : trim (lit "[DONE]" ++ [10]) = lit "[DONE]")
    by (vm_compute; reflexivity).
  assert (A : after thinkTagEnd (decoded cut_stream) =
              Some (data_lines [txt "{'response':'Hi'}"] ++
                    (lit "data: " ++ lit "[DONE]" ++ [10]) ++ []))
    by (vm_compute; reflexivity).
  assert (Q : snd (completion_lines uuid0 created0 model0 []) = [])
    by reflexivity.
  assert (N' : ~ In 10 (@nil Z)) by (intros []).
  assert (A' : after thinkTagEnd (decoded unfinished_stream) =
               Some (data_lines [txt "{'response':'Hi'}"] ++ []))
    by (vm_compute; reflexivity).
  pose proof (proj1 (finalization_asymmetry uuid0 created0 model0 cut_stream
                       _ _ C) (lit "[DONE]") [] N T A) as [H1 H2].
  pose proof (proj1 (proj2 (finalization_asymmetry uuid0 created0 model0
                              unfinished_stream _ _ C)) [] N' A') as [H3 H4].
  specialize (H2 Q).
  split; split.
  - rewrite H1. vm_compute. reflexivity.
  - rewrite H2. vm_compute. reflexivity.
  - rewrite H3. vm_compute. reflexivity.
  - rewrite H4. vm_compute. reflexivity.
Defined.

(** ** C6: lines that do not parse *)



(** ** C7: the content of a chat frame *)

(** C7, as amended. A complete data line whose content parses, read by an
    unfinished chat session that is past the marker: [transform] empties
    the buffer and enqueues at most one frame, whose [delta.content] is
    read off [response]. A string that is not empty is taken as it is. Of
    an object, [text] is taken if that is truthy, else [content] if that
    is truthy, else the JSON text of the object. An array, a number that
    is neither zero nor NaN, and [true] give their JSON text. The empty
    string and every other falsy response give no frame. *)
Theorem chat_fragment_fallback (uuid : jsstring) (created : Num.number)
  (model : jsstring) (st : chat_state) (chunk : bytes) (body : jsstring)
  (data response : value) :
  isFinished st = false ->
  pastThinkTag st = true ->
  buffer st ++ Utf8.decode chunk = lit "data: " ++ body ++ [10] ->
  ~ In 10 body ->
  JSON.parse (body ++ [10]) = Some data ->
  Get data (lit "response") = Some response ->
  let frame := fun content : value =>
    Utf8.encode
      (lit "data: " ++
       JSON.stringify_text
         (VObj [(lit "id", VStr uuid);
                (lit "created", VNum created);
                (lit "object", VStr (lit "chat.completion.chunk"));
                (lit "model", VStr model);
                (lit "choices",
                 VArr [VObj [(lit "delta",
                              VObj [(lit "role", VStr (lit "assistant"));
                                    (lit "content", content)]);
                             (lit "index", VNum (Num.of_Z 0));
                             (lit "finish_reason", VNull)]])])
       ++ [10; 10]) in
  chat_transform uuid created model st chunk =
  (mkChat [] false true,
   match response with
   | VStr s => if Str.eqb s [] then [] else [frame (VStr s)]
   | VObj props =>
       [frame (if ToBoolean (lookup props (lit "text"))
               then lookup props (lit "text")
               else if ToBoolean (lookup props (lit "content"))
                    then lookup props (lit "content")
                    else VStr (JSON.stringify_text (VObj props)))]
   | VArr items => [frame (VStr (JSON.stringify_text (VArr items)))]
   | VNum n =>
       if Num.truthy n then [frame (VStr (JSON.stringify_text (VNum n)))]
       else []
   | VBool true => [frame (VStr (lit "true"))]
   | VBool false | VNull | VUndefined => []
   end).
Proof.
  intros F P B N J G frame.
  rewrite chat_transform_feed, chat_feed_spec, F, P, B.
  unfold chat_lines.
  rewrite <- (app_nil_r (lit "data: " ++ body ++ [10])).
  rewrite read_lines_eq, (data_line_cut _ _ N).
  rewrite (chat_line_parsed uuid created model _ _ J), G.
  change frame with (chat_frame uuid created model).
  rewrite (read_lines_no_newline _ [] eq_refl).
  destruct response as [| |[|]|n|s|items|props]; cbn [ToBoolean negb app].
  - reflexivity.
  - reflexivity.
  - reflexivity.
  - reflexivity.
  - destruct (Num.truthy n); reflexivity.
  - destruct (Str.eqb s []); reflexivity.
  - reflexivity.
  - unfold actualContent, or_else. cbn [OptGet].
    destruct (ToBoolean (lookup props (lit "text"))) eqn:A; [now rewrite A|].
    destruct (ToBoolean (lookup props (lit "content"))); reflexivity.
Qed.

(** A session that holds the start of a line; the chunk completes it. The
    response is an object with an empty [text] and a [content]: the
    content is taken. *)
Lemma chat_fragment_fallback_witness :
  chat_transform uuid0 created0 model0 (mkChat (txt "data: {'resp") false true)
    (txt "onse':{'text':'','content':'Hi'}}" ++ [10]) =
  (mkChat [] false true,
   [Utf8.encode
      (txt "data: {'id':'b1946ac9','created':1700000000,'object':'chat.completion.chunk','model':'llama-3','choices':[{'delta':{'role':'assistant','content':'Hi'},'index':0,'finish_reason':null}]}"
       ++ [10; 10])]).
Proof.
  rewrite (chat_fragment_fallback uuid0 created0 model0
             (mkChat (txt "data: {'resp") false true)
             (txt "onse':{'text':'','content':'Hi'}}" ++ [10])
             (txt "{'response':{'text':'','content':'Hi'}}")
             (VObj [(lit "response",
                     VObj [(lit "text", VStr []);
                           (lit "content", VStr (lit "Hi"))])])
             (VObj [(lit "text", VStr []); (lit "content", VStr (lit "Hi"))])).
  - vm_compute. reflexivity.
  - reflexivity.
  - reflexivity.
  - vm_compute. reflexivity.
  - vm_compute. intuition discriminate.
  - vm_compute. reflexivity.
  - reflexivity.
Defined.

(** C7 as stated fails for the empty string and for an object with an
    empty [text]. A line whose response is the empty string gets no
    frame, so the string is not used as content. A response whose [text]
    is the empty string and that has no [content] gets a frame whose
    content is the JSON text of the object, not its [text]. *)
Lemma chat_fragment_fallback_counterexample :
  chat_transform uuid0 created0 model0 (mkChat [] false true)
    (txt "data: {'response':''}" ++ [10]) =
  (mkChat [] false true, []) /\
  chat_transform uuid0 created0 model0 (mkChat [] false true)
    (txt "data: {'response':{'text':''}}" ++ [10]) =
  (mkChat [] false true,
   [Utf8.encode
      (txt "data: {'id':'b1946ac9','created':1700000000,'object':'chat.completion.chunk','model':'llama-3','choices':[{'delta':{'role':'assistant','content':'{\'text\':\'\'}'},'index':0,'finish_reason':null}]}"
       ++ [10; 10])]).
Proof. split; vm_compute; reflexivity. Qed.

(** ** C10: falsy responses in chat mode *)

(** C10. A line of the chat transformer whose content parses and whose
    [response] is falsy, or cannot be read because the parsed value is
    [null], enqueues no frame; absent, [null], the empty string, zero and
    [false] are falsy. *)
Theorem chat_falsy_response_dropped (uuid : jsstring) (created : Num.number)
  (model : jsstring) (content : jsstring) (data : value) :
  JSON.parse content = Some data ->
  match Get data (lit "response") with
  | Some response => ToBoolean response = false
  | None => True
  end ->
  chat_line uuid created model (lit "data: " ++ content) = Next [] /\
  (forall props,
     JSON.has_key props (lit "response") = false ->
     Get (VObj props) (lit "response") = Some VUndefined) /\
  ToBoolean VUndefined = false /\
  ToBoolean VNull = false /\
  ToBoolean (VStr []) = false /\
  ToBoolean (VNum (S754_zero false)) = false /\
  ToBoolean (VNum (S754_zero true)) = false /\
  ToBoolean (VBool false) = false.
Proof.
  intros P F. split.
  - rewrite (chat_line_parsed uuid created model _ _ P).
    destruct (Get data (lit "response")) as [r|]; [now rewrite F|reflexivity].
  - split; [|repeat split].
    intros props H. cbn [Get]. f_equal.
    induction props as [|[k v] props IH]; [reflexivity|].
    cbn [JSON.has_key lookup] in *.
    destruct (Str.eqb (lit "response") k); [discriminate H|now apply IH].
Qed.

Lemma chat_falsy_response_dropped_witness :
  chat_line uuid0 created0 model0
    (lit "data: " ++ txt "{'response':'','p':0.5}" ++ [10]) = Next [].
Proof.
  apply (chat_falsy_response_dropped uuid0 created0 model0
           (txt "{'response':'','p':0.5}" ++ [10])
           (VObj [(lit "response", VStr []);
                  (lit "p", VNum (Num.of_decimal false 5 (-1)))])).
  - vm_compute. reflexivity.
  - reflexivity.
Defined.

(** ** C8: a frame of the completion transformer *)

Lemma parse_response_42 :
  JSON.parse (txt "{'response':'42'}" ++ [10]) =
  Some (VObj [(lit "response", VStr (lit "42"))]).
Proof. vm_compute. reflexivity. Qed.

(** C8 (scenario B). Once the preamble is closed and the buffer is
    empty, the chunk [data: {"response":"42"}] with its newline makes the
    completion transformer enqueue exactly one frame: [data: ], the JSON
    text of the object below ([text] is "42", [object] is
    "text_completion", index 0, [logprobs] and [finish_reason] null, with
    the [id], [created] and [model] of the session), and two newlines.
    The state is left as it was. *)
Theorem completion_scenario_B (uuid : jsstring) (created : Num.number)
  (model : jsstring) (st : completion_state) :
  c_pastThinkTag st = true ->
  c_buffer st = [] ->
  completion_transform uuid created model st
    (txt "data: {'response':'42'}" ++ [10]) =
  (st,
   [Utf8.encode
      (lit "data: " ++
       JSON.stringify_text
         (VObj [(lit "id", VStr uuid);
                (lit "created", VNum created);
                (lit "object", VStr (lit "text_completion"));
                (lit "model", VStr model);
                (lit "choices",
                 VArr [VObj [(lit "text", VStr (lit "42"));
                             (lit "index", VNum (Num.of_Z 0));
                             (lit "logprobs", VNull);
                             (lit "finish_reason", VNull)]])])
       ++ [10; 10])]).
Proof.
  intros P B. destruct st as [b p]. simpl in P, B. subst b p.
  rewrite completion_transform_feed, completion_feed_spec.
  cbn [c_pastThinkTag c_buffer app].
  replace (Utf8.decode (txt "data: {'response':'42'}" ++ [10]))
    with ((lit "data: " ++ txt "{'response':'42'}" ++ [10]) ++ [])
    by (vm_compute; reflexivity).
  unfold completion_lines. rewrite read_lines_eq.
  rewrite data_line_cut by (vm_compute; intuition discriminate).
  rewrite (completion_line_parsed uuid created model _ _ parse_response_42).
  cbn [Get lookup]. 
  replace (Str.eqb (lit "response") (lit "response")) with true
    by (vm_compute; reflexivity).
  rewrite read_lines_no_newline by reflexivity.
  reflexivity.
Qed.

Lemma completion_scenario_B_witness :
  completion_transform uuid0 created0 model0 (mkCompletion [] true)
    (txt "data: {'response':'42'}" ++ [10]) =
  (mkCompletion [] true,
   [Utf8.encode
      (txt "data: {'id':'b1946ac9','created':1700000000,'object':'text_completion','model':'llama-3','choices':[{'text':'42','index':0,'logprobs':null,'finish_reason':null}]}"
       ++ [10; 10])]).
Proof.
  rewrite (completion_scenario_B uuid0 created0 model0 (mkCompletion [] true)
             eq_refl eq_refl).
  vm_compute. reflexivity.
Defined.

(** ** C4: the preamble *)

Lemma after_app_none (needle s t : jsstring) :
  after needle (s ++ t) = None -> after needle s = None.
Proof.
  intros H. destruct (after needle s) as [post|] eqn:E; [|reflexivity].
  rewrite (after_app_some _ _ _ t E) in H. discriminate H.
Qed.

Lemma chat_feeds_app (uuid : jsstring) (created : Num.number) (model : jsstring)
  (st : chat_state) (a b : list jsstring) :
  chat_feeds uuid created model st (a ++ b) =
  let '(s1, o1) := chat_feeds uuid created model st a in
  let '(s2, o2) := chat_feeds uuid created model s1 b in (s2, o1 ++ o2).
Proof.
  revert st; induction a as [|t a IH]; intros st; simpl.
  - now destruct (chat_feeds uuid created model st b).
  - destruct (chat_feed uuid created model st t) as [s1 o1]. rewrite IH.
    destruct (chat_feeds uuid created model s1 a) as [s2 o2].
    destruct (chat_feeds uuid created model s2 b) as [s3 o3].
    now rewrite app_assoc.
Qed.

Lemma completion_feeds_app (uuid : jsstring) (created : Num.number)
  (model : jsstring) (st : completion_state) (a b : list jsstring) :
  completion_feeds uuid created model st (a ++ b) =
  let '(s1, o1) := completion_feeds uuid created model st a in
  let '(s2, o2) := completion_feeds uuid created model s1 b in (s2, o1 ++ o2).
Proof.
  revert st; induction a as [|t a IH]; intros st; simpl.
  - now destruct (completion_feeds uuid created model st b).
  - destruct (completion_feed uuid created model st t) as [s1 o1]. rewrite IH.
    destruct (completion_feeds uuid created model s1 a) as [s2 o2].
    destruct (completion_feeds uuid created model s2 b) as [s3 o3].
    now rewrite app_assoc.
Qed.

(** While the marker has not been seen the text is only collected. *)
Lemma chat_feeds_preamble (uuid : jsstring) (created : Num.number)
  (model : jsstring) (b : jsstring) (ts : list jsstring) :
  after thinkTagEnd (b ++ concat ts) = None ->
  chat_feeds uuid created model (mkChat b false false) ts =
  (mkChat (b ++ concat ts) false false, []).
Proof.
  revert b; induction ts as [|t ts IH]; intros b H; simpl in *.
  - now rewrite app_nil_r.
  - rewrite chat_feed_spec. cbn [isFinished pastThinkTag buffer].
    rewrite app_assoc in H.
    rewrite (after_app_none _ _ _ H), (IH _ H).
    now rewrite app_assoc.
Qed.

Lemma completion_feeds_preamble (uuid : jsstring) (created : Num.number)
  (model : jsstring) (b : jsstring) (ts : list jsstring) :
  after thinkTagEnd (b ++ concat ts) = None ->
  completion_feeds uuid created model (mkCompletion b false) ts =
  (mkCompletion (b ++ concat ts) false, []).
Proof.
  revert b; induction ts as [|t ts IH]; intros b H; simpl in *.
  - now rewrite app_nil_r.
  - rewrite completion_feed_spec. cbn [c_pastThinkTag c_buffer].
    rewrite app_assoc in H.
    rewrite (after_app_none _ _ _ H), (IH _ H).
    now rewrite app_assoc.
Qed.

(** The chunk that completes the marker: the line loop runs on the text
    after the marker, and on nothing else. *)
Lemma chat_run_marker (uuid : jsstring) (created : Num.number) (model : jsstring)
  (pre : list bytes) (c : bytes) (post : jsstring) (rest : list bytes) :
  after thinkTagEnd (decoded pre) = None ->
  after thinkTagEnd (decoded pre ++ Utf8.decode c) = Some post ->
  chat_run uuid created model chat_init (pre ++ c :: rest) =
  let '(s1, o1) := chat_lines uuid created model post in
  let '(s2, o2) := chat_run uuid created model s1 rest in (s2, o1 ++ o2).
Proof.
  intros N S. rewrite chat_run_feeds, map_app, chat_feeds_app.
  unfold chat_init. rewrite (chat_feeds_preamble _ _ _ [] _ N).
  cbn [map chat_feeds app]. rewrite chat_feed_spec.
  cbn [isFinished pastThinkTag buffer]. fold (decoded pre). rewrite S.
  destruct (chat_lines uuid created model post) as [s1 o1].
  rewrite chat_run_feeds.
  now destruct (chat_feeds uuid created model s1 (map Utf8.decode rest)).
Qed.

Lemma completion_run_marker (uuid : jsstring) (created : Num.number)
  (model : jsstring) (pre : list bytes) (c : bytes) (post : jsstring)
  (rest : list bytes) :
  after thinkTagEnd (decoded pre) = None ->
  after thinkTagEnd (decoded pre ++ Utf8.decode c) = Some post ->
  completion_run uuid created model completion_init (pre ++ c :: rest) =
  let '(s1, o1) := completion_lines uuid created model post in
  let '(s2, o2) := completion_run uuid created model s1 rest in (s2, o1 ++ o2).
Proof.
  intros N S. rewrite completion_run_feeds, map_app, completion_feeds_app.
  unfold completion_init. rewrite (completion_feeds_preamble _ _ _ [] _ N).
  cbn [map completion_feeds app]. rewrite completion_feed_spec.
  cbn [c_pastThinkTag c_buffer]. fold (decoded pre). rewrite S.
  destruct (completion_lines uuid created model post) as [s1 o1].
  rewrite completion_run_feeds.
  now destruct (completion_feeds uuid created model s1 (map Utf8.decode rest)).
Qed.

(** C4. The frames of a stream do not depend on its preamble. Let the
    chunk [c1] complete the first occurrence of the marker after the
    chunks [pre1], with the text [post] behind the marker, and likewise
    [c2] after [pre2] with the same [post]: whatever chunks follow, both
    transformers enqueue the same frames for the two streams, namely
    those of the line loop on [post] and of the later chunks. And while
    the marker has not occurred, [transform] enqueues nothing: such a
    stream gets no frame with content, only, in chat mode, the two
    frames of the flush. *)
Theorem preamble_exclusion (uuid : jsstring) (created : Num.number)
  (model : jsstring) (pre1 pre2 : list bytes) (c1 c2 : bytes) (post : jsstring)
  (rest : list bytes) :
  after thinkTagEnd (decoded pre1) = None ->
  after thinkTagEnd (decoded pre2) = None ->
  after thinkTagEnd (decoded pre1 ++ Utf8.decode c1) = Some post ->
  after thinkTagEnd (decoded pre2 ++ Utf8.decode c2) = Some post ->
  chat_run uuid created model chat_init (pre1 ++ [c1]) =
  chat_lines uuid created model post /\
  completion_run uuid created model completion_init (pre1 ++ [c1]) =
  completion_lines uuid created model post /\
  chat_stream uuid created model (pre1 ++ c1 :: rest) =
  chat_stream uuid created model (pre2 ++ c2 :: rest) /\
  completion_stream uuid created model (pre1 ++ c1 :: rest) =
  completion_stream uuid created model (pre2 ++ c2 :: rest) /\
  snd (chat_run uuid created model chat_init pre1) = [] /\
  chat_stream uuid created model pre1 =
  [final_frame uuid created model; done_frame] /\
  completion_stream uuid created model pre1 = [].
Proof.
  intros N1 N2 S1 S2.
  split.
  { rewrite (chat_run_marker _ _ _ _ _ _ [] N1 S1).
    destruct (chat_lines uuid created model post) as [s o].
    simpl. now rewrite app_nil_r. }
  split.
  { rewrite (completion_run_marker _ _ _ _ _ _ [] N1 S1).
    destruct (completion_lines uuid created model post) as [s o].
    simpl. now rewrite app_nil_r. }
  split.
  { unfold chat_stream.
    now rewrite (chat_run_marker _ _ _ _ _ _ rest N1 S1),
                (chat_run_marker _ _ _ _ _ _ rest N2 S2). }
  split.
  { unfold completion_stream.
    now rewrite (completion_run_marker _ _ _ _ _ _ rest N1 S1),
                (completion_run_marker _ _ _ _ _ _ rest N2 S2). }
  unfold chat_stream, completion_stream.
  rewrite chat_run_feeds, completion_run_feeds.
  unfold chat_init, completion_init.
  rewrite (chat_feeds_preamble _ _ _ [] _ N1).
  rewrite (completion_feeds_preamble _ _ _ [] _ N1).
  repeat split.
Qed.

(** Two streams with different preambles, cut differently around the
    marker, and the same text behind it. *)
Lemma preamble_exclusion_witness :
  chat_stream uuid0 created0 model0 (preamble_a ++ marker_a :: tail_ab) =
  chat_stream uuid0 created0 model0 (preamble_b ++ marker_b :: tail_ab) /\
  completion_stream uuid0 created0 model0 (preamble_a ++ marker_a :: tail_ab) =
  completion_stream uuid0 created0 model0 (preamble_b ++ marker_b :: tail_ab) /\
  chat_stream uuid0 created0 model0 preamble_a =
  [final_frame uuid0 created0 model0; done_frame].
Proof.
  pose proof (preamble_exclusion uuid0 created0 model0 preamble_a preamble_b
                marker_a marker_b (txt "data: {'resp") tail_ab
                eq_refl eq_refl eq_refl eq_refl) as H.
  repeat split; apply H.
Defined.

(** ** Scenarios of the specification *)

(** Scenario A: the marker cut between two chunks. One frame with
    content [Hi], then the terminating frame and the sentinel frame. *)
Example scenario_A :
  chat_stream uuid0 created0 model0
    [txt "reasoning...</thi";
     txt "nk>data: {'response':'Hi'}" ++ [10] ++ txt "data: [DONE]" ++ [10]] =
  [Utf8.encode
     (txt "data: {'id':'b1946ac9','created':1700000000,'object':'chat.completion.chunk','model':'llama-3','choices':[{'delta':{'role':'assistant','content':'Hi'},'index':0,'finish_reason':null}]}"
      ++ [10; 10]);
   Utf8.encode
     (txt "data: {'id':'b1946ac9','created':1700000000,'object':'chat.completion.chunk','model':'llama-3','choices':[{'delta':{},'index':0,'finish_reason':'stop'}]}"
      ++ [10; 10]);
   Utf8.encode (txt "data: [DONE]" ++ [10; 10])].
Proof. vm_compute. reflexivity. Qed.

(** Scenario C: two lines, two frames, each with its own fragment. *)
Example scenario_C :
  snd (chat_run uuid0 created0 model0 chat_init
         [txt "</think>data: {'response':'Hel'}" ++ [10] ++
          txt "data: {'response':'lo'}" ++ [10]]) =
  [chat_frame uuid0 created0 model0 (VStr (lit "Hel"));
   chat_frame uuid0 created0 model0 (VStr (lit "lo"))].
Proof. vm_compute. reflexivity. Qed.

(** * More of the gateway *)

(** ** streamToBuffer *)

Lemma fold_left_length_acc (chunks : list bytes) (n : nat) :
  fold_left (fun acc chunk => (acc + length chunk)%nat) chunks n =
  (n + length (concat chunks))%nat.
Proof.
  revert n; induction chunks as [|c cs IH]; intros n; simpl.
  - lia.
  - rewrite IH, length_app. lia.
Qed.

Lemma Uint8Array_set_fill (done chunk pad : bytes) :
  (length chunk <= length pad)%nat ->
  Uint8Array_set (done ++ pad) chunk (length done) =
  Some ((done ++ chunk) ++ skipn (length chunk) pad).
Proof.
  intros L. unfold Uint8Array_set. rewrite length_app.
  replace (length done + length chunk <=? length done + length pad)%nat
    with true by (symmetry; apply Nat.leb_le; lia).
  f_equal. rewrite firstn_app, firstn_all, Nat.sub_diag. simpl firstn.
  rewrite app_nil_r, skipn_app.
  rewrite skipn_all2 by lia.
  replace (length done + length chunk - length done)%nat with (length chunk) by lia.
  now rewrite <- app_assoc.
Qed.

Lemma copy_chunks_fill (chunks : list bytes) (done pad : bytes) :
  length pad = length (concat chunks) ->
  copy_chunks chunks (done ++ pad) (length done) = Some (done ++ concat chunks).
Proof.
  revert done pad; induction chunks as [|c cs IH]; intros done pad L; simpl in *.
  - destruct pad; [reflexivity|discriminate].
  - rewrite length_app in L.
    rewrite Uint8Array_set_fill by lia.
    replace (length done + length c)%nat with (length (done ++ c))
      by (rewrite length_app; reflexivity).
    rewrite IH.
    + now rewrite <- app_assoc.
    + rewrite length_skipn. lia.
Qed.

(** X1. [streamToBuffer] returns the chunks of the stream joined in the
    order they were read. The buffer it allocates has room for every
    chunk at its offset, so [set] never throws, and its length is the
    sum of the lengths of the chunks; a stream with no chunk gives the
    empty buffer. *)
Theorem streamToBuffer_concat (stream : list bytes) :
  streamToBuffer stream = Some (concat stream) /\
  length (concat stream) = list_sum (map (@length Z) stream).
Proof.
  split.
  - unfold streamToBuffer. rewrite fold_left_length_acc. simpl.
    apply (copy_chunks_fill stream [] (repeat 0 (length (concat stream)))).
    apply repeat_length.
  - induction stream as [|c cs IH]; simpl; [reflexivity|].
    rewrite length_app. lia.
Qed.

(** ** The bearer token *)

Lemma String_split_no_sep (s : jsstring) (sep : Z) :
  ~ In sep s -> String_split s sep = [s].
Proof.
  induction s as [|c s IH]; intros N; simpl; [reflexivity|].
  destruct (c =? sep) eqn:E.
  - apply Z.eqb_eq in E. elim N. now left.
  - rewrite IH; [reflexivity|]. intros I. apply N. now right.
Qed.

Lemma String_split_app (a r : jsstring) (sep : Z) :
  ~ In sep a -> String_split (a ++ sep :: r) sep = a :: String_split r sep.
Proof.
  induction a as [|c a IH]; intros N; simpl.
  - now rewrite Z.eqb_refl.
  - destruct (c =? sep) eqn:E.
    + apply Z.eqb_eq in E. elim N. now left.
    + rewrite IH; [reflexivity|]. intros I. apply N. now right.
Qed.

(** The parts of a split hold no separator, and put together with the
    separator between them they give the string back. *)
Lemma String_split_inv (s : jsstring) (sep : Z) :
  match String_split s sep with
  | [] => False
  | [p] => s = p /\ ~ In sep p
  | p :: ps => exists r, s = p ++ sep :: r /\ ~ In sep p /\ String_split r sep = ps
  end.
Proof.
  induction s as [|c s IH]; simpl.
  - split; [reflexivity|intros []].
  - destruct (c =? sep) eqn:E.
    + apply Z.eqb_eq in E. subst c.
      destruct (String_split s sep) as [|p ps] eqn:S; [contradiction|].
      exists s. repeat split; [intros []|assumption].
    + apply Z.eqb_neq in E.
      destruct (String_split s sep) as [|p [|q ps]] eqn:S; [contradiction| |].
      * destruct IH as [-> N]. split; [reflexivity|].
        intros [I|I]; [congruence|contradiction].
      * destruct IH as [r [-> [N R]]]. exists r. repeat split; [|assumption].
        intros [I|I]; [congruence|contradiction].
Qed.

Lemma lit_Bearer_no_space : ~ In 32 (lit "Bearer").
Proof. vm_compute. intuition discriminate. Qed.

Lemma extractToken_Bearer (t : jsstring) :
  ~ In 32 t -> extractToken (Some (lit "Bearer " ++ t)) = Some t.
Proof.
  intros N. unfold extractToken.
  change (lit "Bearer " ++ t) with (lit "Bearer" ++ 32 :: t).
  replace (ToBoolean (VStr (lit "Bearer" ++ 32 :: t))) with true by reflexivity.
  cbv zeta.
  rewrite (String_split_app _ _ _ lit_Bearer_no_space).
  rewrite (String_split_no_sep _ _ N). reflexivity.
Qed.

Lemma extractToken_inv (h t : jsstring) :
  extractToken (Some h) = Some t -> h = lit "Bearer " ++ t /\ ~ In 32 t.
Proof.
  unfold extractToken. destruct (ToBoolean (VStr h)); [|discriminate]. cbv zeta.
  pose proof (String_split_inv h 32) as I.
  destruct (String_split h 32) as [|p0 [|p1 [|p2 ps]]]; try discriminate.
  cbn [length Nat.eqb nth andb].
  destruct (Str.eqb p0 (lit "Bearer")) eqn:E; [|discriminate].
  apply eqb_eq in E. subst p0. intros H. injection H as <-.
  destruct I as [r [-> [_ R]]].
  pose proof (String_split_inv r 32) as J. rewrite R in J.
  destruct J as [-> N]. split; [reflexivity|assumption].
Qed.

(** X2. [extractToken] returns a token exactly for a header that is
    [Bearer], one space, and a token without a space, and it returns
    that token. Any other header gives [null]: another scheme, [bearer]
    in lower case, no space, two spaces, a token with a space in it. *)
Theorem extractToken_spec (h t : jsstring) :
  extractToken (Some h) = Some t <-> h = lit "Bearer " ++ t /\ ~ In 32 t.
Proof.
  split.
  - apply extractToken_inv.
  - intros [-> N]. now apply extractToken_Bearer.
Qed.

(** X3. The middleware lets a request pass exactly when [ACCESS_TOKEN] is
    set and the header is [Bearer], one space, and that token, which
    then has no space in it. So with [ACCESS_TOKEN] unset, or set to a
    text with a space, no request passes. A missing or empty header is
    answered with the AuthenticationError, every other request that does
    not pass with the PermissionError. *)
Theorem bearerAuthentication_spec (header ACCESS_TOKEN : option jsstring) :
  (bearerAuthentication header ACCESS_TOKEN = Authenticated <->
   exists t, ACCESS_TOKEN = Some t /\ header = Some (lit "Bearer " ++ t) /\
             ~ In 32 t) /\
  (bearerAuthentication header ACCESS_TOKEN = AuthenticationError (lit "Unauthorized") <->
   header = None \/ header = Some []) /\
  (bearerAuthentication header ACCESS_TOKEN = Authenticated \/
   bearerAuthentication header ACCESS_TOKEN = AuthenticationError (lit "Unauthorized") \/
   bearerAuthentication header ACCESS_TOKEN = PermissionError (lit "Forbidden")).
Proof.
  unfold bearerAuthentication.
  destruct header as [h|]; cbn [negb].
  2:{ split; [|split].
      - split; [discriminate|]. intros [t [_ [H _]]]. discriminate.
      - split; [now left|reflexivity].
      - right; now left. }
  destruct h as [|c h].
  { split; [|split].
    - split; [discriminate|]. intros [t [_ [H _]]]. discriminate.
    - split; [now right|reflexivity].
    - right; now left. }
  replace (ToBoolean (VStr (c :: h))) with true by reflexivity. cbn [negb].
  cbv zeta.
  destruct (extractToken _) as [t|] eqn:X.
  - apply extractToken_inv in X as [X N].
    destruct ACCESS_TOKEN as [a|]; cbv beta iota.
    + destruct (Str.eqb a t) eqn:E; cbn [negb].
      * apply eqb_eq in E. subst a. split; [|split].
        -- split; [|reflexivity]. intros _. exists t. rewrite X. now repeat split.
        -- split; [discriminate|]. intros [H|H]; discriminate.
        -- now left.
      * split; [|split].
        -- split; [discriminate|]. intros [t' [A [H N']]].
           injection A as ->. rewrite X in H. injection H as H. subst t'.
           assert (T : Str.eqb t t = true) by now apply eqb_eq. congruence.
        -- split; [discriminate|]. intros [H|H]; discriminate.
        -- right; now right.
    + cbn [negb]. split; [|split].
      * split; [discriminate|]. intros [t' [A _]]. discriminate.
      * split; [discriminate|]. intros [H|H]; discriminate.
      * right; now right.
  - cbn [negb].
    assert (M : match ACCESS_TOKEN with Some _ => false | None => false end = false)
      by now destruct ACCESS_TOKEN.
    rewrite M. cbn [negb]. split; [|split].
    + split; [discriminate|]. intros [t [_ [H N]]].
      rewrite H, (extractToken_Bearer t N) in X. discriminate.
    + split; [discriminate|]. intros [H|H]; discriminate.
    + right; now right.
Qed.

(** ** completionHandler *)

Lemma eqb_nil_false (s : jsstring) : Str.eqb s [] = false <-> s <> [].
Proof. destruct s; simpl; split; congruence. Qed.

(** X4. The prompt of a completion request passes lines 21-31 exactly
    when it is a non-empty string. The third test never fires: an empty
    string is falsy and is rejected by the first one with [prompt is
    required], so [no prompt provided] is never thrown. Reading
    [json.prompt] never throws either. *)
Theorem validate_prompt_spec (json : value) :
  (forall p, validate_prompt json = inr p <->
             OptGet json (lit "prompt") = VStr p /\ p <> []) /\
  validate_prompt json <>
  inl (ValidationError (lit "no prompt provided") (Some (lit "prompt"))) /\
  validate_prompt json <> inl TypeError.
Proof.
  unfold validate_prompt, Get_or_throw, bind, throw.
  destruct json as [| |b|n|s|items|props]; cbn [OptGet ToBoolean negb Get];
    try (split; [intros p; split; [discriminate|intros [H _]; discriminate]
                |split; discriminate]).
  destruct (lookup props (lit "prompt")) as [| |b|n|s|items|ps] eqn:L;
    cbn [ToBoolean negb];
    try (split; [intros p; split; [discriminate|intros [H _]; discriminate]
                |split; discriminate]).
  - destruct b; cbn [negb];
      (split; [intros p; split; [discriminate|intros [H _]; discriminate]
              |split; discriminate]).
  - destruct (Num.truthy n); cbn [negb];
      (split; [intros p; split; [discriminate|intros [H _]; discriminate]
              |split; discriminate]).
  - destruct s as [|c s].
    + cbn. split; [intros p; split; [discriminate|intros [H N]]|split; discriminate].
      injection H as <-. now elim N.
    + cbn [Str.eqb negb].
      replace (len (c :: s) =? 0) with false
        by (symmetry; apply Z.eqb_neq; unfold len; simpl length; lia).
      split; [intros p; split|split; discriminate].
      * intros H. injection H as <-. split; [reflexivity|discriminate].
      * intros [H _]. now injection H as <-.
Qed.

(** *** Comparisons of Numbers *)

Lemma SFcompare_refl (x : Num.number) :
  x <> S754_nan -> SFcompare x x = Some Eq.
Proof.
  destruct x as [s|s| |s m e]; intros N; simpl.
  - reflexivity.
  - now destruct s.
  - now elim N.
  - rewrite Z.compare_refl, Pos.compare_cont_refl. now destruct s.
Qed.

Lemma SFleb_refl (x : Num.number) : x <> S754_nan -> SFleb x x = true.
Proof. intros N. unfold SFleb. now rewrite SFcompare_refl. Qed.

Lemma SFcompare_None (a b : Num.number) :
  SFcompare a b = None -> a = S754_nan \/ b = S754_nan.
Proof.
  destruct a as [s|s| |s m e], b as [s'|s'| |s' m' e']; simpl;
    try discriminate; auto.
Qed.

Lemma SFleb_zero_l (a b : bool) (x : Num.number) :
  SFleb (S754_zero a) x = SFleb (S754_zero b) x.
Proof. now destruct x. Qed.

Lemma SFleb_zero_r (a b : bool) (x : Num.number) :
  SFleb x (S754_zero a) = SFleb x (S754_zero b).
Proof. now destruct x. Qed.

Lemma min_le (n hi : Num.number) :
  n <> S754_nan -> hi <> S754_nan -> SFleb (Math.min n hi) hi = true.
Proof.
  intros N H. unfold Math.min.
  destruct (SFcompare n hi) as [[| |]|] eqn:C.
  - destruct n as [sa|sa| |sa ma ea]; try (unfold SFleb; now rewrite C).
    destruct hi as [sb|sb| |sb mb eb]; try (unfold SFleb; now rewrite C).
    reflexivity.
  - unfold SFleb. now rewrite C.
  - now apply SFleb_refl.
  - destruct (SFcompare_None _ _ C); contradiction.
Qed.

Lemma min_not_nan (n hi : Num.number) :
  n <> S754_nan -> hi <> S754_nan -> Math.min n hi <> S754_nan.
Proof.
  intros N H. unfold Math.min.
  destruct (SFcompare n hi) as [[| |]|] eqn:C; try assumption.
  - destruct n; try assumption. destruct hi; try assumption. discriminate.
  - destruct (SFcompare_None _ _ C); contradiction.
Qed.

(** [Math.max(lo, x)] for an [x] that is at most [hi]: the result lies
    between [lo] and [hi]. *)
Lemma max_range (lo hi x : Num.number) :
  SFleb lo hi = true -> x <> S754_nan -> SFleb x hi = true ->
  SFleb lo (Math.max lo x) = true /\ SFleb (Math.max lo x) hi = true.
Proof.
  intros LH N XH.
  assert (Nlo : lo <> S754_nan) by (intros ->; discriminate LH).
  unfold Math.max.
  destruct (SFcompare lo x) as [[| |]|] eqn:C.
  - destruct lo as [sa|sa| |sa ma ea];
      try (split; [now apply SFleb_refl|assumption]).
    destruct x as [sb|sb| |sb mb eb];
      try (split; [now apply SFleb_refl|assumption]).
    split; [reflexivity|]. now rewrite (SFleb_zero_l _ sa).
  - split; [|assumption]. unfold SFleb. now rewrite C.
  - split; [now apply SFleb_refl|assumption].
  - destruct (SFcompare_None _ _ C); contradiction.
Qed.

Lemma max_ge (lo x : Num.number) :
  lo <> S754_nan -> x <> S754_nan -> SFleb lo (Math.max lo x) = true.
Proof.
  intros L N. unfold Math.max.
  destruct (SFcompare lo x) as [[| |]|] eqn:C.
  - destruct lo as [sa|sa| |sa ma ea]; try now apply SFleb_refl.
    destruct x as [sb|sb| |sb mb eb]; try now apply SFleb_refl.
    reflexivity.
  - unfold SFleb. now rewrite C.
  - now apply SFleb_refl.
  - destruct (SFcompare_None _ _ C); contradiction.
Qed.

Lemma clamp_range (lo hi n : Num.number) :
  SFleb lo hi = true -> n <> S754_nan ->
  SFleb lo (Math.max lo (Math.min n hi)) = true /\
  SFleb (Math.max lo (Math.min n hi)) hi = true.
Proof.
  intros LH N.
  assert (H : hi <> S754_nan) by (intros ->; destruct lo; discriminate LH).
  apply max_range; [assumption|now apply min_not_nan|now apply min_le].
Qed.

Lemma truthy_not_nan (n : Num.number) : Num.truthy n = true -> n <> S754_nan.
Proof. intros T ->. discriminate T. Qed.

Lemma clamped_range (v : value) (hi default : Num.number) :
  SFleb (Num.of_Z 0) hi = true ->
  SFleb (Num.of_Z 0) default = true -> SFleb default hi = true ->
  SFleb (Num.of_Z 0) (clamped v hi default) = true /\
  SFleb (clamped v hi default) hi = true.
Proof.
  intros H D1 D2. unfold clamped.
  destruct v as [| |b|n|s|items|props]; cbn [ToBoolean typeof_number andb];
    rewrite ?andb_false_r; try (split; assumption).
  rewrite andb_true_r.
  destruct (Num.truthy n) eqn:T; [|split; assumption].
  apply clamp_range; [assumption|now apply truthy_not_nan].
Qed.

Lemma clamped_default (v : value) (hi default : Num.number) :
  (ToBoolean v = false \/ typeof_number v = false) ->
  clamped v hi default = default.
Proof.
  unfold clamped. intros [H|H]; rewrite H; [reflexivity|].
  now rewrite andb_false_r.
Qed.

Section CompletionFacts.

Variable resolveModel : value -> result jsstring.
Variable MODEL_CONTEXT_WINDOWS : jsstring -> option Num.number.
Variable calculateDefaultMaxTokens : jsstring -> Num.number.

Local Abbreviation prepare :=
  (completion_prepare resolveModel MODEL_CONTEXT_WINDOWS
     calculateDefaultMaxTokens).

(** What a request that gets past line 60 has gone through. *)
Lemma completion_prepare_inv (contentType : option jsstring) (json : value)
  (r : completion_request) :
  prepare contentType json = inr r ->
  exists model prompt max_tokens requested,
    is_json contentType = true /\
    resolveModel (OptGet json (lit "model")) = inr model /\
    validate_prompt json = inr prompt /\
    Get json (lit "max_tokens") = Some max_tokens /\
    Get json (lit "model") = Some requested /\
    r = mkRequest model prompt
          (if negb (ToBoolean (OptGet json (lit "stream"))) then VBool false
           else OptGet json (lit "stream"))
          (max_tokens_of MODEL_CONTEXT_WINDOWS calculateDefaultMaxTokens
             model max_tokens)
          (clamped (OptGet json (lit "temperature")) (Num.of_Z 2)
             (Num.of_decimal false 7 (-1)))
          (clamped (OptGet json (lit "top_p")) (Num.of_Z 1)
             (Num.of_decimal false 9 (-1)))
          (or_else requested (VStr model)).
Proof.
  unfold completion_prepare, bind, throw, Get_or_throw.
  destruct (is_json contentType); cbn [negb]; [|discriminate].
  destruct (resolveModel _) as [e|model]; [discriminate|].
  destruct (validate_prompt json) as [e|prompt]; [discriminate|].
  destruct (Get json (lit "max_tokens")) as [max_tokens|]; [|discriminate].
  destruct (Get json (lit "model")) as [requested|]; [|discriminate].
  intros H. injection H as <-.
  exists model, prompt, max_tokens, requested. now repeat split.
Qed.

(** X5. For every request that [completionHandler] accepts, the
    temperature given to the model lies in [0, 2] and [top_p] in [0, 1].
    A falsy temperature gives the default 0.7 and a falsy [top_p] the
    default 0.9: absent, [null], and also the number zero, which is
    therefore never passed on. *)
Theorem completion_sampling_range (contentType : option jsstring) (json : value)
  (r : completion_request) :
  prepare contentType json = inr r ->
  (SFleb (Num.of_Z 0) (r_temperature r) = true /\
   SFleb (r_temperature r) (Num.of_Z 2) = true) /\
  (SFleb (Num.of_Z 0) (r_topP r) = true /\
   SFleb (r_topP r) (Num.of_Z 1) = true) /\
  (ToBoolean (OptGet json (lit "temperature")) = false ->
   r_temperature r = Num.of_decimal false 7 (-1)) /\
  (ToBoolean (OptGet json (lit "top_p")) = false ->
   r_topP r = Num.of_decimal false 9 (-1)).
Proof.
  intros H.
  destruct (completion_prepare_inv _ _ _ H)
    as [model [prompt [max_tokens [requested [_ [_ [_ [_ [_ ->]]]]]]]]].
  cbn [r_temperature r_topP].
  split; [|split; [|split]].
  - apply clamped_range; reflexivity.
  - apply clamped_range; reflexivity.
  - intros F. apply clamped_default. now left.
  - intros F. apply clamped_default. now left.
Qed.

Lemma contextWindow_not_nan (model : jsstring) :
  contextWindow MODEL_CONTEXT_WINDOWS model <> S754_nan.
Proof.
  unfold contextWindow. destruct (MODEL_CONTEXT_WINDOWS model) as [w|].
  - destruct (Num.truthy w) eqn:T; [now apply truthy_not_nan|discriminate].
  - discriminate.
Qed.

(** X6. A [max_tokens] that is a positive number is passed on as at
    least 1, and as at most the context window of the model when that is
    at least 1. A model that the table does not list has the window
    4096. *)
Theorem completion_max_tokens_range (model : jsstring) (n : Num.number) :
  SFltb (Num.of_Z 0) n = true ->
  SFleb (Num.of_Z 1)
    (max_tokens_of MODEL_CONTEXT_WINDOWS calculateDefaultMaxTokens model (VNum n))
  = true /\
  (SFleb (Num.of_Z 1) (contextWindow MODEL_CONTEXT_WINDOWS model) = true ->
   SFleb
     (max_tokens_of MODEL_CONTEXT_WINDOWS calculateDefaultMaxTokens model (VNum n))
     (contextWindow MODEL_CONTEXT_WINDOWS model) = true) /\
  (MODEL_CONTEXT_WINDOWS model = None ->
   contextWindow MODEL_CONTEXT_WINDOWS model = Num.of_Z 4096).
Proof.
  intros P. unfold max_tokens_of. rewrite P.
  assert (N : n <> S754_nan) by (intros ->; discriminate P).
  pose proof (contextWindow_not_nan model) as W.
  split; [|split].
  - apply max_ge; [discriminate|now apply min_not_nan].
  - intros L. now apply clamp_range.
  - intros E. unfold contextWindow. now rewrite E.
Qed.

End CompletionFacts.

(** A temperature of zero comes out as 0.7, a [top_p] of 5 as at most 1. *)
Lemma completion_sampling_range_witness :
  exists r,
    completion_prepare resolveModel0 MODEL_CONTEXT_WINDOWS0
      calculateDefaultMaxTokens0 json_type completion_body = inr r /\
    r_temperature r = Num.of_decimal false 7 (-1) /\
    SFleb (r_topP r) (Num.of_Z 1) = true.
Proof.
  eexists. split; [vm_compute; reflexivity|].
  match goal with
  | |- r_temperature ?r = _ /\ _ =>
      pose proof (completion_sampling_range resolveModel0 MODEL_CONTEXT_WINDOWS0
                    calculateDefaultMaxTokens0 json_type completion_body r
                    ltac:(vm_compute; reflexivity)) as [_ [[_ T] [Z _]]]
  end.
  split; [apply Z; reflexivity|exact T].
Defined.

(** A [max_tokens] of 2.5 for a listed model, and the window of a model
    that is not listed. *)
Lemma completion_max_tokens_range_witness :
  SFleb (Num.of_Z 1)
    (max_tokens_of MODEL_CONTEXT_WINDOWS0 calculateDefaultMaxTokens0
       (lit "llama-3") (VNum (Num.of_decimal false 25 (-1)))) = true /\
  contextWindow MODEL_CONTEXT_WINDOWS0 (lit "gpt") = Num.of_Z 4096.
Proof.
  pose proof (completion_max_tokens_range MODEL_CONTEXT_WINDOWS0
                calculateDefaultMaxTokens0 (lit "llama-3")
                (Num.of_decimal false 25 (-1)) eq_refl) as [A _].
  pose proof (completion_max_tokens_range MODEL_CONTEXT_WINDOWS0
                calculateDefaultMaxTokens0 (lit "gpt")
                (Num.of_decimal false 25 (-1)) eq_refl) as [_ [_ B]].
  split; [exact A|exact (B eq_refl)].
Defined.

(** ** max_tokens of chatHandler *)

Lemma round_ratio_not_nan (neg : bool) (p q : Z) :
  Num.round_ratio neg p q <> S754_nan.
Proof.
  unfold Num.round_ratio. destruct (p <=? 0); [discriminate|]. cbv zeta.
  match goal with
  | |- match ?m with _ => _ end <> _ => destruct m; try discriminate
  end.
  match goal with
  | |- (if ?c then _ else _) <> _ => destruct c; discriminate
  end.
Qed.

Lemma of_Z_not_nan (z : Z) : Num.of_Z z <> S754_nan.
Proof.
  unfold Num.of_Z, Num.of_decimal.
  destruct (Z.abs z <=? 0); [discriminate|].
  destruct (0 >=? 0); apply round_ratio_not_nan.
Qed.

Lemma floor_not_nan (x : Num.number) :
  x <> S754_nan -> Math.floor x <> S754_nan.
Proof.
  intros N. destruct x as [s|s| |s m e]; cbn [Math.floor]; try assumption.
  destruct (e >=? 0); [assumption|]. cbv zeta.
  match goal with
  | |- (if ?c then _ else _) <> _ => destruct c; [discriminate|]
  end.
  apply of_Z_not_nan.
Qed.

Lemma mul_finite_not_nan (x : Num.number) (s : bool) (m : positive) (e : Z) :
  x <> S754_nan -> Math.mul x (S754_finite s m e) <> S754_nan.
Proof.
  intros N. destruct x as [sx|sx| |sx mx ex]; cbn [Math.mul];
    try discriminate; [now elim N|].
  apply round_ratio_not_nan.
Qed.

Lemma min_nan_r (n : Num.number) : Math.min n S754_nan = S754_nan.
Proof. now destruct n. Qed.

Lemma min_nan_l (n : Num.number) : Math.min S754_nan n = S754_nan.
Proof. reflexivity. Qed.

Lemma max_nan_r (n : Num.number) : Math.max n S754_nan = S754_nan.
Proof. now destruct n. Qed.

(** X7. [max_tokens] of a chat request. When the table has a context
    window for the model, the result is at least 10; it is at most 16384
    when the request gives no positive number, and at most the window
    when it gives one and the window is at least 10. When the table has
    no entry for the model the result is NaN, whatever the request says:
    unlike [completionHandler], this handler has no fallback for the
    window. *)
Theorem chat_max_tokens_range (context_window : option Num.number)
  (requested : value) :
  (context_window = None ->
   chat_max_tokens context_window requested = S754_nan) /\
  (forall w,
     context_window = Some w -> w <> S754_nan ->
     SFleb (Num.of_Z 10) (chat_max_tokens context_window requested) = true /\
     ((forall n, requested = VNum n -> SFltb (Num.of_Z 0) n = false) ->
      SFleb (chat_max_tokens context_window requested) (Num.of_Z 16384) = true) /\
     (forall n, requested = VNum n -> SFltb (Num.of_Z 0) n = true ->
                SFleb (Num.of_Z 10) w = true ->
                SFleb (chat_max_tokens context_window requested) w = true)).
Proof.
  split.
  - intros ->. unfold chat_max_tokens. cbv zeta.
    assert (D : Math.min (Math.floor (Math.mul S754_nan
                                         (Num.of_decimal false 7 (-1))))
                  (Num.of_Z 16384) = S754_nan) by reflexivity.
    rewrite D.
    destruct requested as [| |b|n|s|items|props]; try reflexivity.
    destruct (SFltb (Num.of_Z 0) n); [|reflexivity].
    now rewrite min_nan_r.
  - intros w -> W. unfold chat_max_tokens. cbv zeta.
    assert (F : Math.floor (Math.mul w (Num.of_decimal false 7 (-1)))
                <> S754_nan).
    { apply floor_not_nan. now apply mul_finite_not_nan. }
    set (x := Math.floor (Math.mul w (Num.of_decimal false 7 (-1)))) in *.
    assert (D : SFleb (Num.of_Z 10)
                  (Math.max (Num.of_Z 10) (Math.min x (Num.of_Z 16384))) = true /\
                SFleb (Math.max (Num.of_Z 10) (Math.min x (Num.of_Z 16384)))
                  (Num.of_Z 16384) = true).
    { apply clamp_range; [reflexivity|assumption]. }
    destruct requested as [| |b|n|s|items|props];
      try (split; [apply D|split; [intros _; apply D|intros n E; discriminate E]]).
    destruct (SFltb (Num.of_Z 0) n) eqn:P.
    + assert (N : n <> S754_nan) by (intros ->; discriminate P).
      split; [|split].
      * apply max_ge; [apply of_Z_not_nan|now apply min_not_nan].
      * intros H. specialize (H n eq_refl). congruence.
      * intros n' _ _ L.
        apply max_range; [assumption|now apply min_not_nan|now apply min_le].
    + split; [apply D|]. split; [intros _; apply D|].
      intros n' E Q. injection E as <-. congruence.
Qed.

(** ** embeddingsHandler and ragChatHandler *)

Lemma len_zero (s : jsstring) : (len s =? 0) = true <-> s = [].
Proof.
  unfold len. destruct s; simpl; split; try reflexivity; try discriminate.
Qed.

Lemma validate_items_spec (items : list value) (texts : list jsstring) :
  validate_items items = inr texts <->
  items = map VStr texts /\ Forall (fun t => trim t <> []) texts.
Proof.
  revert texts; induction items as [|v items IH]; intros texts; simpl.
  - split.
    + intros H. injection H as <-. split; [reflexivity|constructor].
    + intros [H _]. destruct texts; [reflexivity|discriminate].
  - destruct v as [| |b|n|s|its|props];
      try (split; [discriminate|intros [H _]; destruct texts; discriminate]).
    destruct (len (trim s) =? 0) eqn:E.
    + apply len_zero in E. split; [discriminate|].
      intros [H F]. destruct texts as [|t texts]; [discriminate|].
      injection H as <- _. inversion F; subst. contradiction.
    + unfold bind. destruct (validate_items items) as [e|ts] eqn:V.
      * split; [discriminate|]. intros [H F].
        destruct texts as [|t texts]; [discriminate|].
        injection H as <- H.
        discriminate (proj2 (IH texts) (conj H (Forall_inv_tail F))).
      * split.
        -- intros H. injection H as <-.
           destruct (proj1 (IH ts) eq_refl) as [-> F].
           split; [reflexivity|]. constructor; [|assumption].
           intros T. apply len_zero in T. congruence.
        -- intros [H F]. destruct texts as [|t texts]; [discriminate|].
           injection H as <- H.
           pose proof (proj2 (IH texts) (conj H (Forall_inv_tail F))) as X.
           now injection X as ->.
Qed.

(** X8. The input of an embeddings request passes lines 159-183 exactly
    when it is a string with a character that [trim] keeps, which is
    taken as a list of one, or an array of 1 to 100 such strings, which
    is taken as it is. *)
Theorem prepare_input_spec (input : value) (texts : list jsstring) :
  prepare_input input = inr texts <->
  ((exists s, input = VStr s /\ texts = [s]) \/ input = VArr (map VStr texts)) /\
  (1 <= length texts <= 100)%nat /\
  Forall (fun t => trim t <> []) texts.
Proof.
  unfold prepare_input, bind, throw.
  destruct input as [| |b|n|s|items|props];
    try (split; [discriminate|intros [[[s [H _]]|H] _]; discriminate]).
  - cbn [length Z.of_nat Z.eqb Z.ltb Z.compare Pos.compare Pos.compare_cont].
    change (Z.of_nat 1 =? 0) with false. change (100 <? Z.of_nat 1) with false.
    cbv iota. rewrite (validate_items_spec [VStr s] texts). split.
    + intros [H F]. destruct texts as [|t [|u texts]]; try discriminate.
      injection H as <-. split; [left; now exists s|]. split; [simpl; lia|assumption].
    + intros [[[s' [H ->]]|H] [_ F]]; [|discriminate].
      injection H as <-. now split.
  - destruct (Z.of_nat (length items) =? 0) eqn:E0.
    { apply Z.eqb_eq in E0. split; [discriminate|].
      intros [[[s [H _]]|H] [L _]]; [discriminate|].
      injection H as ->. rewrite length_map in E0. lia. }
    destruct (100 <? Z.of_nat (length items)) eqn:E1.
    { apply Z.ltb_lt in E1. split; [discriminate|].
      intros [[[s [H _]]|H] [L _]]; [discriminate|].
      injection H as ->. rewrite length_map in E1. lia. }
    apply Z.eqb_neq in E0. apply Z.ltb_ge in E1.
    rewrite (validate_items_spec items texts). split.
    + intros [-> F]. rewrite length_map in E0, E1.
      split; [now right|]. split; [lia|assumption].
    + intros [[[s [H _]]|H] [_ F]]; [discriminate|].
      injection H as ->. now split.
Qed.

Lemma ceil_div_4 (n : Z) : 1 <= n -> 1 <= Math.ceil_div n 4 <= n.
Proof.
  intros H. unfold Math.ceil_div.
  pose proof (Z.div_mod (- n) 4 ltac:(lia)) as D.
  pose proof (Z.mod_pos_bound (- n) 4 ltac:(lia)) as M.
  lia.
Qed.

Lemma totalTokens_acc (texts : list jsstring) (acc : Z) :
  fold_left (fun sum text => sum + Math.ceil_div (len text) 4) texts acc =
  acc + totalTokens texts.
Proof.
  unfold totalTokens.
  revert acc; induction texts as [|t texts IH]; intros acc; simpl; [lia|].
  rewrite IH, (IH (Math.ceil_div (len t) 4)). lia.
Qed.

Lemma totalTokens_cons (t : jsstring) (texts : list jsstring) :
  totalTokens (t :: texts) = Math.ceil_div (len t) 4 + totalTokens texts.
Proof. unfold totalTokens at 1. simpl. now rewrite totalTokens_acc. Qed.

Lemma totalTokens_bounds (texts : list jsstring) :
  Forall (fun t => t <> []) texts ->
  Z.of_nat (length texts) <= totalTokens texts <= len (concat texts).
Proof.
  induction 1 as [|t texts N F IH].
  - unfold totalTokens, len. simpl. lia.
  - rewrite totalTokens_cons. unfold len in *. simpl concat.
    rewrite length_app. simpl length.
    assert (L : 1 <= Z.of_nat (length t)) by (destruct t; [congruence|simpl; lia]).
    pose proof (ceil_div_4 _ L). lia.
Qed.

Lemma trim_nonempty (t : jsstring) : trim t <> [] -> t <> [].
Proof. intros H ->. now apply H. Qed.

Lemma pooling_of_cases (v : value) :
  pooling_of v = lit "mean" \/ pooling_of v = lit "cls".
Proof.
  unfold pooling_of. destruct v as [| |b|n|s|items|props]; try now left.
  destruct (ToBoolean (VStr s)); [|now left]. cbn [andb].
  destruct (Str.eqb (lit "mean") s) eqn:A.
  { apply eqb_eq in A. now left. }
  destruct (Str.eqb (lit "cls") s) eqn:B; [|now left].
  apply eqb_eq in B. now right.
Qed.

Section EmbeddingsFacts.

Variable resolveModel : value -> result jsstring.

(** X9. What an accepted embeddings request gives to the model: between
    1 and 100 texts, each with a character that [trim] keeps, and a
    pooling that is [mean] or [cls]. The token count reported for them
    (line 214) is at least the number of texts and at most the number of
    their code units. *)
Theorem embeddings_prepare_sound (contentType : option jsstring) (json : value)
  (r : embeddings_request) :
  embeddings_prepare resolveModel contentType json = inr r ->
  (exists input, Get json (lit "input") = Some input /\
                 prepare_input input = inr (e_inputText r)) /\
  (1 <= length (e_inputText r) <= 100)%nat /\
  Forall (fun t => trim t <> []) (e_inputText r) /\
  (e_pooling r = lit "mean" \/ e_pooling r = lit "cls") /\
  Z.of_nat (length (e_inputText r)) <= totalTokens (e_inputText r)
    <= len (concat (e_inputText r)).
Proof.
  unfold embeddings_prepare, bind, throw, Get_or_throw.
  destruct (is_json contentType); cbn [negb]; [|discriminate].
  destruct (Get json (lit "input")) as [input|]; [|discriminate].
  destruct (ToBoolean input); cbn [negb]; [|discriminate].
  destruct (Get json (lit "model")) as [requested|]; [|discriminate].
  destruct (if ToBoolean requested then resolveModel requested else _)
    as [e|model]; [discriminate|].
  destruct (Get json (lit "pooling")) as [pooling|]; [|discriminate].
  destruct (prepare_input input) as [e|texts] eqn:P; [discriminate|].
  intros H. injection H as <-. cbn [e_inputText e_pooling].
  destruct (proj1 (prepare_input_spec input texts) P) as [_ [L F]].
  split; [now exists input|]. split; [assumption|]. split; [assumption|].
  split; [apply pooling_of_cases|].
  apply totalTokens_bounds.
  eapply Forall_impl; [|exact F]. intros t. apply trim_nonempty.
Qed.

End EmbeddingsFacts.

(** Two texts of five and two characters, and a pooling that falls back
    to [mean]. *)
Lemma embeddings_prepare_sound_witness :
  exists r,
    embeddings_prepare resolveModel0 json_type embeddings_body = inr r /\
    e_pooling r = lit "mean" /\
    2 <= totalTokens (e_inputText r) <= 7.
Proof.
  eexists. split; [vm_compute; reflexivity|].
  match goal with
  | |- e_pooling ?r = _ /\ _ =>
      pose proof (embeddings_prepare_sound resolveModel0 json_type
                    embeddings_body r ltac:(vm_compute; reflexivity))
        as [_ [_ [_ [_ T]]]]
  end.
  split; [reflexivity|exact T].
Defined.

(** *** ragChatHandler *)

Lemma Array_splice_before_last (a : list value) (x d : value) :
  a <> [] -> Array_splice a (-1) 0 [x] = removelast a ++ [x; last a d].
Proof.
  intros N. pose proof (app_removelast_last d N) as E.
  remember (removelast a) as p eqn:Hp. remember (last a d) as l eqn:Hl.
  clear Hp Hl N. subst a. unfold Array_splice.
  rewrite length_app. simpl length.
  change (-1 <? 0) with true. cbv iota zeta.
  rewrite Z.max_l by lia. rewrite Z.max_l by lia.
  rewrite Z.min_l by lia. rewrite Z.add_0_r.
  replace (Z.to_nat (Z.of_nat (length p + 1) + -1)) with (length p) by lia.
  rewrite firstn_app, firstn_all, Nat.sub_diag. simpl firstn.
  rewrite skipn_app, skipn_all, Nat.sub_diag. simpl skipn.
  now rewrite app_nil_r.
Qed.

Lemma nth_last (a : list value) (d : value) :
  nth (length a - 1) a d = last a d.
Proof.
  induction a as [|x a IH]; [reflexivity|].
  destruct a as [|y a]; [reflexivity|].
  change (last (x :: y :: a) d) with (last (y :: a) d). rewrite <- IH.
  simpl. now rewrite Nat.sub_0_r.
Qed.

(** X10. [ragChatHandler] accepts a request only when [messages] is a
    non-empty array whose last element has the role [user]. A non-empty
    context is then inserted as one message right before that last
    message, the messages before it keeping their order; with an empty
    context the messages are left as they are. *)
Theorem rag_context_before_last (contentType : option jsstring) (body : value)
  (messages : list value) (lastMessage : value) (context : jsstring)
  (sources : list value) :
  rag_messages contentType body = inr (messages, lastMessage) ->
  Get body (lit "messages") = Some (VArr messages) /\
  messages = removelast messages ++ [lastMessage] /\
  Get lastMessage (lit "role") = Some (VStr (lit "user")) /\
  (context = [] -> enhancedMessages messages context sources = messages) /\
  (context <> [] ->
   enhancedMessages messages context sources =
   removelast messages ++ [contextMessage context sources; lastMessage]).
Proof.
  unfold rag_messages, bind, throw, Get_or_throw.
  destruct (is_json contentType); cbn [negb]; [|discriminate].
  destruct (Get body (lit "messages")) as [[| |b|n|s|items|props]|];
    try discriminate.
  destruct (Z.of_nat (length items) =? 0) eqn:E; [discriminate|].
  cbv zeta.
  destruct (Get (nth (length items - 1) items VUndefined) (lit "role"))
    as [[| |b|n|s|its|props]|] eqn:G; try discriminate.
  destruct (Str.eqb s (lit "user")) eqn:U; cbn [negb]; [|discriminate].
  apply eqb_eq in U. subst s.
  intros H. injection H as <- <-.
  assert (N : items <> []) by (intros ->; discriminate E).
  rewrite nth_last in *.
  split; [reflexivity|]. split; [now apply app_removelast_last|].
  split; [assumption|]. split.
  - intros ->. reflexivity.
  - intros C. unfold enhancedMessages.
    replace (ToBoolean (VStr context)) with true
      by (destruct context; [congruence|reflexivity]).
    now apply Array_splice_before_last.
Qed.

(** A system message and a question: the context goes between them. *)
Lemma rag_context_before_last_witness :
  enhancedMessages
    [VObj [(lit "role", VStr (lit "system"));
           (lit "content", VStr (lit "Be brief."))];
     VObj [(lit "role", VStr (lit "user")); (lit "content", VStr (lit "Why?"))]]
    (lit "Because.") [VNull; VNull] =
  [VObj [(lit "role", VStr (lit "system"));
         (lit "content", VStr (lit "Be brief."))];
   contextMessage (lit "Because.") [VNull; VNull];
   VObj [(lit "role", VStr (lit "user")); (lit "content", VStr (lit "Why?"))]].
Proof.
  pose proof (rag_context_before_last json_type rag_body _ _ (lit "Because.")
                [VNull; VNull] eq_refl) as [_ [_ [_ [_ H]]]].
  apply H. discriminate.
Defined.

(** ** Lines that are skipped, and the order of the frames *)

(** X11. A complete line that does not start with the six characters
    [data: ] (an empty line, a comment, an [event:] line, [data:]
    without the space) is skipped by both transformers: it gets no
    frame, and the lines after it are read as if it had not been
    there. *)
Theorem unprefixed_line_skipped (uuid : jsstring) (created : Num.number)
  (model : jsstring) (body rest : jsstring) :
  ~ In 10 body ->
  startsWith (body ++ [10]) (lit "data: ") = false ->
  chat_line uuid created model (body ++ [10]) = Next [] /\
  completion_line uuid created model (body ++ [10]) = Next [] /\
  chat_lines uuid created model ((body ++ [10]) ++ rest) =
  chat_lines uuid created model rest /\
  completion_lines uuid created model ((body ++ [10]) ++ rest) =
  completion_lines uuid created model rest.
Proof.
  intros N S.
  assert (C : chat_line uuid created model (body ++ [10]) = Next [])
    by (unfold chat_line; now rewrite S).
  assert (K : completion_line uuid created model (body ++ [10]) = Next [])
    by (unfold completion_line; now rewrite S).
  repeat split; try assumption.
  - unfold chat_lines. rewrite (read_lines_next _ _ _ _ N C).
    now destruct (read_lines _ rest) as [[b o] r].
  - unfold completion_lines. rewrite (read_lines_next _ _ _ _ N K).
    now destruct (read_lines _ rest) as [[b o] r].
Qed.

(** A data line without the space after the colon, and a comment line. *)
Lemma unprefixed_line_skipped_witness :
  chat_lines uuid0 created0 model0
    ((txt "data:{'response':'Hi'}" ++ [10]) ++ txt "data: [DONE]" ++ [10]) =
  chat_lines uuid0 created0 model0 (txt "data: [DONE]" ++ [10]) /\
  completion_lines uuid0 created0 model0
    ((txt ": keep-alive" ++ [10]) ++ txt "data: {'response':'Hi'}" ++ [10]) =
  completion_lines uuid0 created0 model0 (txt "data: {'response':'Hi'}" ++ [10]).
Proof.
  split.
  - apply (unprefixed_line_skipped uuid0 created0 model0
             (txt "data:{'response':'Hi'}") (txt "data: [DONE]" ++ [10])).
    + vm_compute. intuition discriminate.
    + reflexivity.
  - apply (unprefixed_line_skipped uuid0 created0 model0
             (txt ": keep-alive") (txt "data: {'response':'Hi'}" ++ [10])).
    + vm_compute. intuition discriminate.
    + reflexivity.
Defined.

Section InOrder.

Variable uuid : jsstring.
Variable created : Num.number.
Variable model : jsstring.

Lemma chat_data_lines (bodies : list jsstring) (responses : list value)
  (rest : jsstring) :
  Forall2 carries bodies responses ->
  Forall (fun r => ToBoolean r = true) responses ->
  read_lines (chat_line uuid created model) (data_lines bodies ++ rest) =
  let '(b, o, ret) := read_lines (chat_line uuid created model) rest in
  (b, map (fun r => chat_frame uuid created model (actualContent r)) responses ++ o,
   ret).
Proof.
  induction 1 as [|body r bodies responses [N [data [P G]]] F IH]; intros T.
  - simpl. now destruct (read_lines _ rest) as [[b o] ret].
  - unfold data_lines in *. cbn [map concat].
    rewrite <- app_assoc.
    replace (lit "data: " ++ body ++ [10]) with ((lit "data: " ++ body) ++ [10])
      by (now rewrite <- app_assoc).
    rewrite (read_lines_next _ (lit "data: " ++ body) _
               [chat_frame uuid created model (actualContent r)]).
    + rewrite (IH (Forall_inv_tail T)).
      now destruct (read_lines _ rest) as [[b o] ret].
    + now apply data_prefix_no_newline.
    + rewrite <- app_assoc.
      rewrite (chat_line_parsed uuid created model _ _ P), G.
      now rewrite (Forall_inv T).
Qed.

(** X12. Data lines whose contents parse are answered with one frame per
    line, in the order of the lines, each frame made from the response
    of its own line; the text after the last newline stays in the
    buffer. This holds for the completion transformer whatever the
    responses are, and for the chat transformer when every response is
    truthy. *)
Theorem frames_in_line_order (bodies : list jsstring) (responses : list value)
  (tail : jsstring) :
  Forall2 carries bodies responses ->
  ~ In 10 tail ->
  completion_lines uuid created model (data_lines bodies ++ tail) =
  (mkCompletion tail true, map (completion_frame uuid created model) responses) /\
  (Forall (fun r => ToBoolean r = true) responses ->
   chat_lines uuid created model (data_lines bodies ++ tail) =
   (mkChat tail false true,
    map (fun r => chat_frame uuid created model (actualContent r)) responses)).
Proof.
  intros C N. apply cut_line_none_iff in N. split.
  - unfold completion_lines.
    rewrite (completion_data_lines uuid created model _ _ _ C).
    rewrite (read_lines_no_newline _ _ N). now rewrite app_nil_r.
  - intros T. unfold chat_lines. rewrite (chat_data_lines _ _ _ C T).
    rewrite (read_lines_no_newline _ _ N). now rewrite app_nil_r.
Qed.

End InOrder.

(** Two lines and the beginning of a third. *)
Lemma frames_in_line_order_witness :
  completion_lines uuid0 created0 model0
    (data_lines [txt "{'response':'Hel'}"; txt "{'response':'lo'}"] ++
     txt "data: {'resp") =
  (mkCompletion (txt "data: {'resp") true,
   map (completion_frame uuid0 created0 model0) [VStr (lit "Hel"); VStr (lit "lo")])
  /\
  chat_lines uuid0 created0 model0
    (data_lines [txt "{'response':'Hel'}"; txt "{'response':'lo'}"] ++
     txt "data: {'resp") =
  (mkChat (txt "data: {'resp") false true,
   map (fun r => chat_frame uuid0 created0 model0 (actualContent r))
     [VStr (lit "Hel"); VStr (lit "lo")]).
Proof.
  assert (C : Forall2 carries [txt "{'response':'Hel'}"; txt "{'response':'lo'}"]
                [VStr (lit "Hel"); VStr (lit "lo")]).
  { repeat constructor.
    - vm_compute. intuition discriminate.
    - eexists. split; [vm_compute; reflexivity|reflexivity].
    - vm_compute. intuition discriminate.
    - eexists. split; [vm_compute; reflexivity|reflexivity]. }
  assert (N : ~ In 10 (txt "data: {'resp")) by (vm_compute; intuition discriminate).
  split.
  - exact (proj1 (frames_in_line_order uuid0 created0 model0 _ _ _ C N)).
  - refine (proj2 (frames_in_line_order uuid0 created0 model0 _ _ _ C N) _).
    repeat constructor.
Defined.

(** ** The state of a chat session *)

Section ChatInvariant.

Variable uuid : jsstring.
Variable created : Num.number.
Variable model : jsstring.

Local Abbreviation feed := (chat_feed uuid created model).
Local Abbreviation feeds := (chat_feeds uuid created model).
Local Abbreviation lines := (chat_lines uuid created model).
Local Abbreviation state_after := (chat_state_after uuid created model).

Lemma chat_lines_invariant (b : jsstring) :
  chat_invariant (fst (lines b)) /\ pastThinkTag (fst (lines b)) = true.
Proof.
  unfold chat_lines.
  destruct (read_lines (chat_line uuid created model) b) as [[b' out] ret] eqn:R.
  cbn [fst]. split; [|reflexivity]. split; cbn [isFinished pastThinkTag buffer].
  - reflexivity.
  - intros _ ->. apply cut_line_none_iff. now apply (read_lines_exhausts _ _ _ _ R).
Qed.

Lemma chat_feed_invariant (st : chat_state) (t : jsstring) :
  chat_invariant st ->
  chat_invariant (fst (feed st t)) /\
  (pastThinkTag st = true -> pastThinkTag (fst (feed st t)) = true) /\
  (isFinished st = true -> feed st t = (st, [])) /\
  (pastThinkTag (fst (feed st t)) = false ->
   feed st t = (mkChat (buffer st ++ t) false false, [])).
Proof.
  intros I. rewrite chat_feed_spec.
  destruct (isFinished st) eqn:F.
  { cbn [fst]. split; [assumption|]. split; [auto|]. split; [reflexivity|].
    intros P. destruct I as [I _]. rewrite (I F) in P. discriminate P. }
  destruct (pastThinkTag st) eqn:P.
  { destruct (chat_lines_invariant (buffer st ++ t)) as [J Q].
    split; [assumption|]. split; [auto|]. split; [discriminate|].
    intros X. rewrite Q in X. discriminate X. }
  destruct (after thinkTagEnd (buffer st ++ t)) as [post|].
  - destruct (chat_lines_invariant post) as [J Q].
    split; [assumption|]. split; [discriminate|]. split; [discriminate|].
    intros X. rewrite Q in X. discriminate X.
  - cbn [fst]. split; [split; discriminate|].
    split; [discriminate|]. split; [discriminate|reflexivity].
Qed.

Lemma chat_feeds_invariant (st : chat_state) (ts : list jsstring) :
  chat_invariant st ->
  chat_invariant (fst (feeds st ts)) /\
  (pastThinkTag st = true -> pastThinkTag (fst (feeds st ts)) = true) /\
  (pastThinkTag (fst (feeds st ts)) = false -> isFinished st = false ->
   feeds st ts = (mkChat (buffer st ++ concat ts) false false, [])).
Proof.
  revert st; induction ts as [|t ts IH]; intros st I.
  - cbn [chat_feeds fst concat]. split; [assumption|]. split; [auto|].
    intros P F. rewrite app_nil_r. destruct st as [b f p]. cbn in *. now subst.
  - cbn [chat_feeds].
    destruct (chat_feed_invariant st t I) as [I1 [M1 [_ B1]]].
    destruct (feed st t) as [s1 o1] eqn:E1. cbn [fst] in *.
    destruct (IH s1 I1) as [I2 [M2 B2]].
    destruct (feeds s1 ts) as [s2 o2] eqn:E2. cbn [fst] in *.
    split; [assumption|]. split; [auto|].
    intros P F.
    destruct (pastThinkTag s1) eqn:P1.
    { rewrite (M2 eq_refl) in P. discriminate P. }
    specialize (B1 eq_refl). injection B1 as -> ->.
    specialize (B2 P eq_refl). injection B2 as -> ->.
    cbn [buffer concat app]. now rewrite app_assoc.
Qed.

(** X13. The variables of a chat transformer after any chunks from the
    start of a stream. [isFinished] is only set once the marker was
    seen. Once the marker was seen, and while the session is not
    finished, the buffer holds no newline: it is the unfinished last
    line. While the marker has not been seen nothing is enqueued and the
    buffer holds the whole decoded input. Later chunks never reset a
    flag, and they leave a finished session as it is. *)
Theorem chat_session_invariant (chunks more : list bytes) :
  (isFinished (state_after chunks) = true ->
   pastThinkTag (state_after chunks) = true) /\
  (pastThinkTag (state_after chunks) = true ->
   isFinished (state_after chunks) = false ->
   ~ In 10 (buffer (state_after chunks))) /\
  (pastThinkTag (state_after chunks) = false ->
   chat_run uuid created model chat_init chunks =
   (mkChat (decoded chunks) false false, [])) /\
  (pastThinkTag (state_after chunks) = true ->
   pastThinkTag (state_after (chunks ++ more)) = true) /\
  (isFinished (state_after chunks) = true ->
   state_after (chunks ++ more) = state_after chunks).
Proof.
  unfold chat_state_after. rewrite !chat_run_feeds, map_app, chat_feeds_app.
  assert (I0 : chat_invariant chat_init) by (split; discriminate).
  destruct (chat_feeds_invariant chat_init (map Utf8.decode chunks) I0)
    as [[I1 I2] [_ B]].
  destruct (feeds chat_init (map Utf8.decode chunks)) as [st out] eqn:E.
  cbn [fst] in *.
  destruct (chat_feeds_invariant st (map Utf8.decode more) (conj I1 I2))
    as [_ [M _]].
  split; [assumption|]. split; [assumption|]. split; [|split].
  - intros P. now apply B.
  - destruct (feeds st (map Utf8.decode more)) as [st' out']. exact M.
  - intros F. rewrite (chat_feeds_finished uuid created model st _ F).
    reflexivity.
Qed.

End ChatInvariant.

(** ** A line without a response *)

Lemma lookup_absent (props : list (jsstring * value)) (k : jsstring) :
  JSON.has_key props k = false -> lookup props k = VUndefined.
Proof.
  induction props as [|[k' v] props IH]; [reflexivity|].
  cbn [JSON.has_key lookup].
  destruct (Str.eqb k k'); [discriminate|exact IH].
Qed.

(** X14. A data line whose content parses to an object without a
    [response] key: the completion transformer still enqueues a frame,
    and the choice in it has no [text] member, as [JSON.stringify]
    leaves out a property that is [undefined]; the chat transformer
    enqueues nothing. *)
Theorem completion_frame_without_text (uuid : jsstring) (created : Num.number)
  (model : jsstring) (content : jsstring) (props : list (jsstring * value)) :
  JSON.parse content = Some (VObj props) ->
  JSON.has_key props (lit "response") = false ->
  completion_line uuid created model (lit "data: " ++ content) =
  Next [Utf8.encode
          (lit "data: " ++
           JSON.stringify_text
             (VObj [(lit "id", VStr uuid);
                    (lit "created", VNum created);
                    (lit "object", VStr (lit "text_completion"));
                    (lit "model", VStr model);
                    (lit "choices",
                     VArr [VObj [(lit "index", VNum (Num.of_Z 0));
                                 (lit "logprobs", VNull);
                                 (lit "finish_reason", VNull)]])])
           ++ [10; 10])] /\
  chat_line uuid created model (lit "data: " ++ content) = Next [].
Proof.
  intros P H.
  rewrite (completion_line_parsed uuid created model _ _ P).
  rewrite (chat_line_parsed uuid created model _ _ P).
  cbn [Get]. rewrite (lookup_absent _ _ H). split; reflexivity.
Qed.

(** A line whose object has another key only. *)
Lemma completion_frame_without_text_witness :
  completion_line uuid0 created0 model0
    (lit "data: " ++ txt "{'p':0.5}" ++ [10]) =
  Next [Utf8.encode
          (txt "data: {'id':'b1946ac9','created':1700000000,'object':'text_completion','model':'llama-3','choices':[{'index':0,'logprobs':null,'finish_reason':null}]}"
           ++ [10; 10])].
Proof.
  rewrite (proj1 (completion_frame_without_text uuid0 created0 model0
                    (txt "{'p':0.5}" ++ [10])
                    [(lit "p", VNum (Num.of_decimal false 5 (-1)))]
                    ltac:(vm_compute; reflexivity) eq_refl)).
  vm_compute. reflexivity.
Defined.

(** ** Frames are events *)

Lemma no_control_app (a b : list Z) :
  no_control a -> no_control b -> no_control (a ++ b).
Proof. intros A B. apply Forall_app. now split. Qed.

Lemma no_control_lit_check (s : list Z) :
  forallb (fun c => 32 <=? c) s = true -> no_control s.
Proof.
  intros H. apply Forall_forall. intros c I.
  rewrite forallb_forall in H. apply Z.leb_le. now apply H.
Qed.

Lemma hexdigit_range (n : Z) : 0 <= n -> 32 <= JSON.hexdigit n.
Proof. intros H. unfold JSON.hexdigit. destruct (n <? 10); lia. Qed.

Lemma no_control_uescape (c : Z) : no_control (JSON.uescape c).
Proof.
  unfold JSON.uescape.
  repeat constructor; try lia;
    apply hexdigit_range; apply Z.mod_pos_bound; lia.
Qed.

Lemma no_control_escape_unit (c : Z) : no_control (JSON.escape_unit c).
Proof.
  unfold JSON.escape_unit.
  repeat match goal with
         | |- context [if ?c =? ?k then _ else _] =>
             destruct (c =? k); [repeat constructor; lia|]
         end.
  destruct (c <? 32) eqn:E; [apply no_control_uescape|].
  apply Z.ltb_ge in E. repeat constructor. exact E.
Qed.

Lemma no_control_quote_body (s : jsstring) : no_control (JSON.quote_body s).
Proof.
  remember (length s) as n eqn:Hn. revert s Hn.
  induction n as [n IH] using lt_wf_ind. intros s Hn.
  destruct s as [|c r]; [constructor|].
  cbn [JSON.quote_body].
  destruct (Utf8.is_high c) eqn:Hc.
  - unfold Utf8.is_high in Hc. apply andb_true_iff in Hc as [Hc _].
    apply Z.leb_le in Hc.
    destruct r as [|d r']; [apply no_control_uescape|].
    destruct (Utf8.is_low d) eqn:Hd.
    + unfold Utf8.is_low in Hd. apply andb_true_iff in Hd as [Hd _].
      apply Z.leb_le in Hd.
      constructor; [lia|]. constructor; [lia|].
      apply (IH (length r')); [subst n; simpl; lia|reflexivity].
    + apply no_control_app; [apply no_control_uescape|].
      apply (IH (length (d :: r'))); [subst n; simpl; lia|reflexivity].
  - destruct (Utf8.is_low c).
    + apply no_control_app; [apply no_control_uescape|].
      apply (IH (length r)); [subst n; simpl; lia|reflexivity].
    + apply no_control_app; [apply no_control_escape_unit|].
      apply (IH (length r)); [subst n; simpl; lia|reflexivity].
Qed.

Lemma no_control_quote (s : jsstring) : no_control (JSON.quote s).
Proof.
  unfold JSON.quote. apply no_control_app; [repeat constructor; lia|].
  apply no_control_app; [apply no_control_quote_body|repeat constructor; lia].
Qed.

Lemma no_control_join (parts : list jsstring) :
  Forall no_control parts -> no_control (JSON.join parts).
Proof.
  induction 1 as [|p parts P F IH]; [constructor|].
  cbn [JSON.join]. destruct parts as [|q parts]; [assumption|].
  apply no_control_app; [assumption|].
  apply no_control_app; [repeat constructor; lia|assumption].
Qed.

(** *** Number::toString *)

Lemma no_control_digits_fuel (fuel : nat) (n : Z) (acc : jsstring) :
  0 <= n -> no_control acc -> no_control (Num.digits_fuel fuel n acc).
Proof.
  revert n acc; induction fuel as [|f IH]; intros n acc N A; [assumption|].
  cbn [Num.digits_fuel]. destruct (n <? 10).
  - constructor; [lia|assumption].
  - apply IH.
    + apply Z.div_pos; lia.
    + constructor; [|assumption].
      pose proof (Z.mod_pos_bound n 10 ltac:(lia)). lia.
Qed.

Lemma no_control_digits (n : Z) : 0 <= n -> no_control (Num.digits n).
Proof. intros N. apply no_control_digits_fuel; [assumption|constructor]. Qed.

Lemma no_control_zeros (n : Z) : no_control (Num.zeros n).
Proof.
  unfold Num.zeros. induction (Z.to_nat n) as [|k IH]; [constructor|].
  constructor; [lia|assumption].
Qed.

Lemma no_control_firstn (n : nat) (s : list Z) :
  no_control s -> no_control (firstn n s).
Proof.
  revert s; induction n as [|n IH]; intros s H; [constructor|].
  destruct H as [|c s C H]; [constructor|].
  constructor; [assumption|now apply IH].
Qed.

Lemma no_control_skipn (n : nat) (s : list Z) :
  no_control s -> no_control (skipn n s).
Proof.
  revert s; induction n as [|n IH]; intros s H; [assumption|].
  destruct H as [|c s C H]; [constructor|]. now apply IH.
Qed.

Lemma no_control_layout (ds : jsstring) (n : Z) :
  no_control ds -> no_control (Num.layout ds n).
Proof.
  intros D. unfold Num.layout.
  destruct ((-5 <=? n) && (n <=? 21)).
  - destruct (Z.of_nat (length ds) <=? n).
    + apply no_control_app; [assumption|apply no_control_zeros].
    + destruct (0 <? n).
      * apply no_control_app; [now apply no_control_firstn|].
        apply no_control_app; [repeat constructor; lia|now apply no_control_skipn].
      * apply no_control_app; [repeat constructor; lia|].
        apply no_control_app; [apply no_control_zeros|assumption].
  - assert (X : no_control ([101; if n - 1 <? 0 then 45 else 43] ++
                            Num.digits (Z.abs (n - 1)))).
    { apply no_control_app.
      - repeat constructor; [lia|]. destruct (n - 1 <? 0); lia.
      - apply no_control_digits. lia. }
    destruct ds as [|d [|e rest]]; [assumption| |].
    + constructor; [exact (Forall_inv D)|assumption].
    + constructor; [exact (Forall_inv D)|].
      constructor; [lia|].
      apply no_control_app; [exact (Forall_inv_tail D)|assumption].
Qed.

Lemma scale10_pos (p q d : Z) :
  0 <= p -> 0 < q ->
  0 <= fst (Num.scale10 p q d) /\ 0 < snd (Num.scale10 p q d).
Proof.
  intros P Q. unfold Num.scale10. destruct (d >=? 0) eqn:E; cbn [fst snd].
  - split; [assumption|]. apply Z.mul_pos_pos; [assumption|].
    apply Z.pow_pos_nonneg; lia.
  - split; [|assumption]. apply Z.mul_nonneg_nonneg; [assumption|].
    apply Z.pow_nonneg. lia.
Qed.

Lemma shortest_nonneg (fuel : nat) (x : Num.number) (p q n0 k : Z) :
  0 <= p -> 0 < q -> 0 <= fst (Num.shortest fuel x p q n0 k).
Proof.
  intros P Q. revert k; induction fuel as [|f IH]; intros k.
  - cbn [Num.shortest].
    pose proof (scale10_pos p q (n0 - k) P Q) as [A B].
    destruct (Num.scale10 p q (n0 - k)) as [a b]. cbn [fst snd] in *.
    apply Z.div_pos; assumption.
  - cbn [Num.shortest].
    pose proof (scale10_pos p q (n0 - k) P Q) as [A B].
    destruct (Num.scale10 p q (n0 - k)) as [a b]. cbn [fst snd] in *.
    assert (L : 0 <= a / b) by (apply Z.div_pos; assumption).
    assert (T : 0 <= 10 ^ (k - 1)) by (apply Z.pow_nonneg; lia).
    assert (R : forall c, 0 <= c ->
                0 <= fst (if c =? 10 ^ k then (10 ^ (k - 1), n0 + 1) else (c, n0))).
    { intros c C. now destruct (c =? 10 ^ k). }
    destruct (Num.eqb (Num.of_decimal false (a / b) (n0 - k)) x),
             (Num.eqb (Num.of_decimal false (a / b + 1) (n0 - k)) x).
    + destruct (2 * a <? (a / b + (a / b + 1)) * b); [now apply R|].
      destruct ((a / b + (a / b + 1)) * b <? 2 * a); [apply R; lia|].
      destruct (Z.even (a / b)); apply R; lia.
    + now apply R.
    + apply R; lia.
    + apply IH.
Qed.

Lemma no_control_toString (x : Num.number) : no_control (Num.toString x).
Proof.
  assert (S : forall s : bool, no_control (if s then [45] else [])).
  { intros [|]; repeat constructor. lia. }
  destruct x as [s|s| |s m e]; cbn [Num.toString];
    try (apply no_control_lit_check; reflexivity).
  - apply no_control_app; [apply S|apply no_control_lit_check; reflexivity].
  - cbv zeta.
    set (p := if e >=? 0 then Z.pos m * 2 ^ e else Z.pos m).
    set (q := if e >=? 0 then 1 else 2 ^ (- e)).
    assert (P : 0 <= p).
    { unfold p. destruct (e >=? 0) eqn:E; [|lia].
      apply Z.mul_nonneg_nonneg; [lia|]. apply Z.pow_nonneg. lia. }
    assert (Q : 0 < q).
    { unfold q. destruct (e >=? 0) eqn:E; [lia|].
      apply Z.pow_pos_nonneg; lia. }
    destruct (Num.round_ratio false p q) as [s'|s'| |s' m' e'] eqn:R;
      try (apply no_control_lit_check; reflexivity).
    + apply no_control_app; [apply S|apply no_control_lit_check; reflexivity].
    + pose proof (shortest_nonneg 17 (S754_finite s' m' e') p q
                    (Num.magnitude 700 p q 0) 1 P Q) as N.
      destruct (Num.shortest 17 (S754_finite s' m' e') p q
                  (Num.magnitude 700 p q 0) 1) as [s10 n].
      cbn [fst] in N.
      apply no_control_app; [apply S|].
      apply no_control_layout. now apply no_control_digits.
Qed.

Lemma no_control_serialize_number (n : Num.number) :
  no_control (JSON.serialize_number n).
Proof.
  destruct n; cbn [JSON.serialize_number];
    try (apply no_control_lit_check; reflexivity);
    apply no_control_toString.
Qed.

(** Induction over a value and the values inside it. *)
Lemma value_nested_ind (P : value -> Prop) :
  P VUndefined -> P VNull -> (forall b, P (VBool b)) -> (forall n, P (VNum n)) ->
  (forall s, P (VStr s)) ->
  (forall items, Forall P items -> P (VArr items)) ->
  (forall props, Forall (fun kv => P (snd kv)) props -> P (VObj props)) ->
  forall v, P v.
Proof.
  intros HU HN HB HNum HS HA HO.
  fix IH 1. intros [| |b|n|s|items|props].
  - exact HU.
  - exact HN.
  - apply HB.
  - apply HNum.
  - apply HS.
  - apply HA. induction items as [|x items IHi]; constructor.
    + apply IH.
    + exact IHi.
  - apply HO. induction props as [|[k x] props IHp]; constructor.
    + apply IH.
    + exact IHp.
Qed.

Lemma no_control_serialize (v : value) (t : jsstring) :
  JSON.serialize v = Some t -> no_control t.
Proof.
  revert t. induction v as [| |b|n|s|items IH|props IH] using value_nested_ind;
    intros t H; cbn [JSON.serialize] in H; try discriminate; injection H as <-.
  - apply no_control_lit_check; reflexivity.
  - destruct b; apply no_control_lit_check; reflexivity.
  - apply no_control_serialize_number.
  - apply no_control_quote.
  - constructor; [lia|].
    apply no_control_app; [|repeat constructor; lia].
    apply no_control_join. apply Forall_map.
    eapply Forall_impl; [|exact IH]. intros x X. cbv beta.
    destruct (JSON.serialize x) as [t|] eqn:E; [now apply X|].
    apply no_control_lit_check; reflexivity.
  - constructor; [lia|].
    apply no_control_app; [|repeat constructor; lia].
    apply no_control_join. apply Forall_flat_map.
    eapply Forall_impl; [|exact IH]. intros [k x] X. cbn [fst snd] in *.
    destruct (JSON.serialize x) as [t|] eqn:E; [|constructor].
    constructor; [|constructor].
    change (no_control (JSON.quote k ++ 58 :: t)).
    apply no_control_app; [apply no_control_quote|].
    constructor; [lia|now apply X].
Qed.

Lemma no_control_stringify_text (v : value) : no_control (JSON.stringify_text v).
Proof.
  unfold JSON.stringify_text. destruct (JSON.serialize v) as [t|] eqn:E.
  - now apply (no_control_serialize v).
  - apply no_control_lit_check; reflexivity.
Qed.

(** *** TextEncoder *)

Lemma no_control_encode_cp (cp : Z) : 32 <= cp -> no_control (Utf8.encode_cp cp).
Proof.
  intros H. unfold Utf8.encode_cp.
  assert (S : forall k, 0 <= Z.shiftr cp k).
  { intros k. apply Z.shiftr_nonneg. lia. }
  assert (L : forall x, 0 <= Z.land x 63).
  { intros x. apply Z.land_nonneg. right. lia. }
  destruct (cp <? 128); [repeat constructor; assumption|].
  destruct (cp <? 2048).
  { repeat constructor; [specialize (S 6)|specialize (L cp)]; lia. }
  destruct (cp <? 65536).
  { repeat constructor;
      [specialize (S 12)|specialize (L (Z.shiftr cp 6))|specialize (L cp)]; lia. }
  repeat constructor;
    [specialize (S 18)|specialize (L (Z.shiftr cp 12))
    |specialize (L (Z.shiftr cp 6))|specialize (L cp)]; lia.
Qed.

Lemma no_control_encode (s : jsstring) : no_control s -> no_control (Utf8.encode s).
Proof.
  remember (length s) as n eqn:Hn. revert s Hn.
  induction n as [n IH] using lt_wf_ind. intros s Hn H.
  destruct H as [|c r C R]; [constructor|].
  assert (X : no_control (Utf8.encode_cp Utf8.REPLACEMENT))
    by (apply no_control_lit_check; reflexivity).
  cbn [Utf8.encode].
  destruct (Utf8.is_high c) eqn:Hc.
  - destruct R as [|d r' D R']; [assumption|].
    destruct (Utf8.is_low d) eqn:Hd.
    + apply no_control_app.
      * apply no_control_encode_cp.
        unfold Utf8.is_high in Hc. unfold Utf8.is_low in Hd.
        apply andb_true_iff in Hc as [Hc _]. apply andb_true_iff in Hd as [Hd _].
        apply Z.leb_le in Hc. apply Z.leb_le in Hd. lia.
      * apply (IH (length r')); [subst n; simpl; lia|reflexivity|assumption].
    + apply no_control_app; [assumption|].
      apply (IH (length (d :: r'))); [subst n; simpl; lia|reflexivity|].
      now constructor.
  - destruct (Utf8.is_low c).
    + apply no_control_app; [assumption|].
      apply (IH (length r)); [subst n; simpl; lia|reflexivity|assumption].
    + apply no_control_app; [now apply no_control_encode_cp|].
      apply (IH (length r)); [subst n; simpl; lia|reflexivity|assumption].
Qed.

(** *** Frames *)

Lemma sse_event_encode (text : jsstring) :
  no_control text -> sse_event (Utf8.encode (lit "data: " ++ text ++ [10; 10])).
Proof.
  intros T. exists (Utf8.encode text). split; [|now apply no_control_encode].
  cbn [lit app]. 
  change (Z.of_N (N_of_ascii "d")) with 100. change (Z.of_N (N_of_ascii "a")) with 97.
  change (Z.of_N (N_of_ascii "t")) with 116. change (Z.of_N (N_of_ascii ":")) with 58.
  change (Z.of_N (N_of_ascii " ")) with 32.
  rewrite !encode_ascii_cons by lia.
  do 6 f_equal.
  rewrite (encode_app_ascii text 10 [10]) by lia.
  now rewrite (encode_ascii_cons 10 []) by lia.
Qed.

Lemma sse_event_done : sse_event done_frame.
Proof.
  exists (lit "[DONE]"). split; [reflexivity|].
  apply no_control_lit_check; reflexivity.
Qed.

Section Events.

Variable uuid : jsstring.
Variable created : Num.number.
Variable model : jsstring.

Lemma sse_event_chat_frame (content : value) :
  sse_event (chat_frame uuid created model content).
Proof. apply sse_event_encode. apply no_control_stringify_text. Qed.

Lemma sse_event_final_frame : sse_event (final_frame uuid created model).
Proof. apply sse_event_encode. apply no_control_stringify_text. Qed.

Lemma sse_event_completion_frame (response : value) :
  sse_event (completion_frame uuid created model response).
Proof. apply sse_event_encode. apply no_control_stringify_text. Qed.

Lemma chat_line_events (l : jsstring) :
  Forall sse_event
    (match chat_line uuid created model l with Next out | Return out => out end).
Proof.
  unfold chat_line.
  destruct (startsWith l (lit "data: ")); [|constructor].
  destruct (Str.eqb _ _).
  { constructor; [apply sse_event_final_frame|].
    constructor; [apply sse_event_done|constructor]. }
  destruct (JSON.parse _) as [data|]; [|constructor].
  destruct (Get data _) as [r|]; [|constructor].
  destruct (ToBoolean r); [|constructor].
  constructor; [apply sse_event_chat_frame|constructor].
Qed.

Lemma completion_line_events (l : jsstring) :
  Forall sse_event
    (match completion_line uuid created model l with
     | Next out | Return out => out
     end).
Proof.
  pose proof (completion_line_frames uuid created model l) as F.
  eapply Forall_impl; [|exact F]. cbv beta.
  intros f [->|[r ->]]; [apply sse_event_done|apply sse_event_completion_frame].
Qed.

End Events.

Section LoopEvents.

Variable on_line : jsstring -> step.
Hypothesis on_line_events :
  forall l, Forall sse_event (match on_line l with Next out | Return out => out end).

Lemma read_lines_events (x : jsstring) :
  Forall sse_event (snd (fst (read_lines on_line x))).
Proof.
  induction x as [x E|x l r E IH] using buffer_ind.
  - rewrite read_lines_eq, E. constructor.
  - rewrite read_lines_eq, E.
    pose proof (on_line_events l) as L.
    destruct (on_line l) as [o|o]; [|exact L].
    destruct (read_lines on_line r) as [[b1 o1] r1]. cbn [fst snd] in *.
    apply Forall_app. now split.
Qed.

End LoopEvents.

Section StreamEvents.

Variable uuid : jsstring.
Variable created : Num.number.
Variable model : jsstring.

Lemma chat_feed_events (st : chat_state) (t : jsstring) :
  Forall sse_event (snd (chat_feed uuid created model st t)).
Proof.
  rewrite chat_feed_spec.
  assert (L : forall b, Forall sse_event (snd (chat_lines uuid created model b))).
  { intros b. unfold chat_lines.
    pose proof (read_lines_events _ (chat_line_events uuid created model) b) as R.
    now destruct (read_lines _ b) as [[b' o] r]. }
  destruct (isFinished st); [constructor|].
  destruct (pastThinkTag st); [apply L|].
  destruct (after thinkTagEnd (buffer st ++ t)); [apply L|constructor].
Qed.

Lemma chat_feeds_events (st : chat_state) (ts : list jsstring) :
  Forall sse_event (snd (chat_feeds uuid created model st ts)).
Proof.
  revert st; induction ts as [|t ts IH]; intros st; simpl; [constructor|].
  pose proof (chat_feed_events st t) as F.
  destruct (chat_feed uuid created model st t) as [s1 o1]. specialize (IH s1).
  destruct (chat_feeds uuid created model s1 ts) as [s2 o2]. cbn [snd] in *.
  apply Forall_app. now split.
Qed.

(** X15. Every frame that either transformer enqueues, for any chunks
    and any [uuid], [created] and [model], is the six bytes [data: ], a
    body, and two newlines, and the body holds no byte below 32. No
    newline or carriage return of a response, an id or a model name ends
    the event early: [JSON.stringify] escapes them. *)
Theorem frames_are_events (chunks : list bytes) :
  Forall sse_event (chat_stream uuid created model chunks) /\
  Forall sse_event (completion_stream uuid created model chunks).
Proof.
  split.
  - unfold chat_stream. rewrite chat_run_feeds.
    pose proof (chat_feeds_events chat_init (map Utf8.decode chunks)) as F.
    destruct (chat_feeds uuid created model chat_init (map Utf8.decode chunks))
      as [st out]. cbn [snd] in F.
    apply Forall_app. split; [assumption|].
    unfold chat_flush. destruct (isFinished st); cbn [negb]; [constructor|].
    constructor; [apply sse_event_final_frame|].
    constructor; [apply sse_event_done|constructor].
  - unfold completion_stream, completion_flush. rewrite completion_run_feeds.
    pose proof (completion_feeds_frames uuid created model completion_init
                  (map Utf8.decode chunks)) as F.
    destruct (completion_feeds uuid created model completion_init
                (map Utf8.decode chunks)) as [st out]. cbn [snd] in F.
    rewrite app_nil_r.
    eapply Forall_impl; [|exact F]. cbv beta.
    intros f [->|[r ->]];
      [apply sse_event_done|apply sse_event_completion_frame].
Qed.

End StreamEvents.

(** ** chatHandler: messages, tools and the OSS input *)

Lemma is_string_eq (v : value) (s : jsstring) :
  is_string v s = true <-> v = VStr s.
Proof.
  destruct v as [| |b|n|t|items|props]; simpl; split; try discriminate.
  - intros E. apply eqb_eq in E. now subst.
  - intros E. injection E as ->. now apply eqb_eq.
Qed.

(** A property [toString] of its own makes an object unprintable: the
    template literals of lines 129 and 181-185 throw a TypeError for it,
    also when it sits in an array. *)
Example ToString_own_property :
  ToString (VObj [(lit "toString", VNum (Num.of_Z 1))]) = None /\
  ToString (VArr [VStr (lit "a"); VObj [(lit "toString", VNull)]]) = None /\
  ToString (VArr [VStr (lit "a"); VNull; VObj []]) =
  Some (lit "a,,[object Object]") /\
  oss_input
    [VObj [(lit "role", VStr (lit "user"));
           (lit "content", VObj [(lit "toString", VStr (lit "x"))])]] =
  inl TypeError /\
  validate_tools [VObj [(lit "type", VObj [(lit "toString", VBool true)])]] =
  inl TypeError.
Proof. vm_compute. repeat split. Qed.

Lemma validate_tools_sound (tools : list value) :
  validate_tools tools = inr tt ->
  Forall (fun tool => is_function_tool tool /\ has_name tool) tools.
Proof.
  induction tools as [|tool tools IH]; intros H; [constructor|].
  cbn [validate_tools] in H. unfold bind, throw, Get_or_throw in H.
  destruct (Get tool (lit "type")) as [type|] eqn:T; [|discriminate].
  destruct (is_string type (lit "function")) eqn:S; cbn [negb] in H;
    [|now destruct (ToString_or_throw type)].
  apply is_string_eq in S. subst type.
  destruct (Get tool (lit "function")) as [function|] eqn:F; [|discriminate].
  destruct (ToBoolean (OptGet function (lit "name"))) eqn:N; cbn [negb] in H;
    [|discriminate].
  constructor; [|now apply IH].
  split; [exact T|]. exists function. now split.
Qed.

Lemma wrapped_functions (functions : list value) :
  Forall is_function_tool
    (map (fun func => VObj [(lit "type", VStr (lit "function"));
                            (lit "function", func)]) functions).
Proof.
  apply Forall_map. apply Forall_forall. intros f _. reflexivity.
Qed.

Lemma or_else_auto_truthy (v : value) :
  ToBoolean (or_else v (VStr (lit "auto"))) = true.
Proof. unfold or_else. destruct (ToBoolean v) eqn:E; [exact E|reflexivity]. Qed.

(** What lines 121-144 leave in [tools] and [toolChoice]. *)
Lemma chat_tools_sound (json tools toolChoice : value) :
  chat_tools json = inr (tools, toolChoice) ->
  (tools = VNull /\ toolChoice = VNull \/
   exists items, tools = VArr items /\ Forall is_function_tool items /\
                 ToBoolean toolChoice = true) /\
  (forall functions,
     OptGet json (lit "functions") = VArr functions ->
     tools = VArr (map (fun func => VObj [(lit "type", VStr (lit "function"));
                                          (lit "function", func)]) functions)) /\
  (forall items,
     (forall functions, OptGet json (lit "functions") <> VArr functions) ->
     tools = VArr items -> Forall has_name items).
Proof.
  unfold chat_tools, bind.
  assert (V : forall items u,
            validate_tools items = inr u ->
            Forall (fun tool => is_function_tool tool /\ has_name tool) items).
  { intros items [] H. now apply validate_tools_sound. }
  destruct (OptGet json (lit "functions")) as [| |b1|n1|s1|functions|props1] eqn:Fn.
  6:{ intros H.
      assert (R : tools =
                  VArr (map (fun func => VObj [(lit "type", VStr (lit "function"));
                                               (lit "function", func)]) functions)
                  /\ toolChoice =
                     or_else (OptGet json (lit "function_call")) (VStr (lit "auto"))).
      { destruct (OptGet json (lit "tools")) as [| |b2|n2|s2|items|props2];
          try (injection H as <- <-; now split).
        destruct (validate_tools items) as [e|u]; [discriminate|].
        injection H as <- <-; now split. }
      destruct R as [-> ->].
      split; [right; eexists; split; [reflexivity|];
              split; [apply wrapped_functions|apply or_else_auto_truthy]|].
      split; [intros fs E; now injection E as <-|].
      intros its NF. now elim (NF functions). }
  all: destruct (OptGet json (lit "tools")) as [| |b2|n2|s2|items|props2];
    try (intros H; injection H as <- <-;
         (split; [now left|]; split; [discriminate|]; discriminate)).
  all: destruct (validate_tools items) as [e|u] eqn:VT; [discriminate|];
    intros H; injection H as <- <-;
    pose proof (V items u VT) as F;
    (split; [right; exists items; split; [reflexivity|];
             split; [eapply Forall_impl; [|exact F]; now intros t [A _]
                    |apply or_else_auto_truthy]|];
     split; [discriminate|];
     intros its _ E; injection E as <-;
     eapply Forall_impl; [|exact F]; now intros t [_ B]).
Qed.

Section ChatFacts.

Variable resolveModel : value -> result jsstring.
Variable MODEL_CONTEXT_WINDOWS : jsstring -> option Num.number.

(** X16. What a chat request that [chatHandler] accepts gives to the
    model: the messages of the request, which are a non-empty array, a
    temperature in [0, 2] and a [top_p] in [0, 1]. Its tools are [null],
    with a [null] choice, or an array of tools that all have the type
    [function], with a truthy choice. When the request has an array
    [functions], the tools are these, each wrapped as a tool, whatever
    [tools] says; otherwise the function of every tool has a name. *)
Theorem chat_prepare_sound (contentType : option jsstring) (json : value)
  (q : chat_request) :
  chat_prepare resolveModel MODEL_CONTEXT_WINDOWS contentType json = inr q ->
  (OptGet json (lit "messages") = VArr (q_messages q) /\ q_messages q <> []) /\
  (SFleb (Num.of_Z 0) (q_temperature q) = true /\
   SFleb (q_temperature q) (Num.of_Z 2) = true) /\
  (SFleb (Num.of_Z 0) (q_topP q) = true /\
   SFleb (q_topP q) (Num.of_Z 1) = true) /\
  (q_tools q = VNull /\ q_toolChoice q = VNull \/
   exists items, q_tools q = VArr items /\ Forall is_function_tool items /\
                 ToBoolean (q_toolChoice q) = true) /\
  (forall functions,
     OptGet json (lit "functions") = VArr functions ->
     q_tools q =
     VArr (map (fun func => VObj [(lit "type", VStr (lit "function"));
                                  (lit "function", func)]) functions)) /\
  (forall items,
     (forall functions, OptGet json (lit "functions") <> VArr functions) ->
     q_tools q = VArr items -> Forall has_name items).
Proof.
  unfold chat_prepare, bind, throw, Get_or_throw.
  destruct (is_json contentType); cbn [negb]; [|discriminate].
  destruct (resolveModel _) as [e|model]; [discriminate|].
  destruct (OptGet json (lit "messages")) as [| |b|n|s|messages|props];
    try discriminate.
  destruct (Z.of_nat (length messages) =? 0) eqn:E; [discriminate|].
  destruct (Get json (lit "max_tokens")) as [requested|]; [|discriminate].
  destruct (chat_tools json) as [e|[tools toolChoice]] eqn:T; [discriminate|].
  intros H. injection H as <-.
  cbn [q_messages q_temperature q_topP q_tools q_toolChoice fst snd].
  split.
  { split; [reflexivity|]. intros ->. discriminate E. }
  split; [apply clamped_range; reflexivity|].
  split; [apply clamped_range; reflexivity|].
  exact (chat_tools_sound json tools toolChoice T).
Qed.

End ChatFacts.

(** One tool, and a temperature of 3 that comes out as at most 2. *)
Lemma chat_prepare_sound_witness :
  exists q,
    chat_prepare resolveModel0 MODEL_CONTEXT_WINDOWS0 json_type chat_body = inr q /\
    q_messages q <> [] /\
    SFleb (q_temperature q) (Num.of_Z 2) = true.
Proof.
  eexists. split; [vm_compute; reflexivity|].
  match goal with
  | |- q_messages ?q <> [] /\ _ =>
      pose proof (chat_prepare_sound resolveModel0 MODEL_CONTEXT_WINDOWS0
                    json_type chat_body q ltac:(vm_compute; reflexivity))
        as [[_ M] [[_ T] _]]
  end.
  split; [exact M|exact T].
Defined.

(** *** The input of an OSS model *)

Lemma trim_start_length (s : jsstring) : (length (trim_start s) <= length s)%nat.
Proof.
  induction s as [|c s IH]; simpl; [lia|].
  destruct (is_space c); simpl; lia.
Qed.

Lemma trim_start_idem (s : jsstring) : trim_start (trim_start s) = trim_start s.
Proof.
  induction s as [|c s IH]; [reflexivity|]. simpl.
  destruct (is_space c) eqn:E; [exact IH|]. simpl. now rewrite E.
Qed.

Lemma trim_start_fixed_app (c : Z) (a b : jsstring) :
  trim_start (c :: a ++ b) = c :: a ++ b -> trim_start (c :: a) = c :: a.
Proof.
  simpl. destruct (is_space c); [|reflexivity].
  intros H. pose proof (trim_start_length (a ++ b)) as L.
  rewrite H in L. simpl in L. lia.
Qed.

(** [trim] leaves no white space at either end. *)
Lemma trim_edges (s : jsstring) :
  trim_start (trim s) = trim s /\ trim_start (rev (trim s)) = rev (trim s).
Proof.
  unfold trim. set (u := trim_start s).
  assert (U : trim_start u = u) by apply trim_start_idem.
  destruct (trim_start_spec (rev u)) as [w [E _]].
  set (v := trim_start (rev u)) in *.
  split.
  - assert (X : u = rev v ++ rev w).
    { rewrite <- rev_app_distr, <- E. now rewrite rev_involutive. }
    destruct (rev v) as [|c t]; [reflexivity|].
    rewrite X in U. now apply (trim_start_fixed_app c t (rev w)).
  - rewrite rev_involutive. apply trim_start_idem.
Qed.

Lemma oss_lines_app (a b : list value) (acc : jsstring) :
  oss_lines (a ++ b) acc = (t <- oss_lines a acc ;; oss_lines b t).
Proof.
  revert acc; induction a as [|m a IH]; intros acc; [reflexivity|].
  cbn [app oss_lines]. unfold bind, Get_or_throw in *.
  destruct (Get m (lit "role")) as [r|]; [|reflexivity].
  destruct (is_string r (lit "system")).
  { destruct (Get m (lit "content")) as [c|]; [|reflexivity].
    destruct (ToString_or_throw c); [reflexivity|apply IH]. }
  destruct (is_string r (lit "user")).
  { destruct (Get m (lit "content")) as [c|]; [|reflexivity].
    destruct (ToString_or_throw c); [reflexivity|apply IH]. }
  destruct (is_string r (lit "assistant")).
  { destruct (Get m (lit "content")) as [c|]; [|reflexivity].
    destruct (ToString_or_throw c); [reflexivity|apply IH]. }
  apply IH.
Qed.

(** X17. The input text for an OSS model: a message whose role is none of
    [system], [user] and [assistant] (a [tool] message, say) leaves no
    trace in it, and the text has no white space at either end, so not
    the newline of its last line. *)
Theorem oss_input_other_roles (before after : list value) (message role : value) :
  Get message (lit "role") = Some role ->
  role <> VStr (lit "system") -> role <> VStr (lit "user") ->
  role <> VStr (lit "assistant") ->
  oss_input (before ++ message :: after) = oss_input (before ++ after) /\
  (forall text,
     oss_input (before ++ after) = inr text ->
     trim_start text = text /\ trim_start (rev text) = rev text).
Proof.
  intros G S U A. split.
  - unfold oss_input. rewrite !oss_lines_app. unfold bind.
    destruct (oss_lines before []) as [e|t]; [reflexivity|].
    cbn [oss_lines]. unfold bind, Get_or_throw. rewrite G.
    replace (is_string role (lit "system")) with false.
    2:{ symmetry. destruct (is_string role (lit "system")) eqn:E; [|reflexivity].
        apply is_string_eq in E. contradiction. }
    replace (is_string role (lit "user")) with false.
    2:{ symmetry. destruct (is_string role (lit "user")) eqn:E; [|reflexivity].
        apply is_string_eq in E. contradiction. }
    replace (is_string role (lit "assistant")) with false.
    2:{ symmetry. destruct (is_string role (lit "assistant")) eqn:E; [|reflexivity].
        apply is_string_eq in E. contradiction. }
    reflexivity.
  - intros text. unfold oss_input, bind.
    destruct (oss_lines (before ++ after) []) as [e|t]; [discriminate|].
    intros H. injection H as <-. apply trim_edges.
Qed.

(** A [tool] message between two others. *)
Lemma oss_input_other_roles_witness :
  oss_input
    ([VObj [(lit "role", VStr (lit "system"));
            (lit "content", VStr (lit "Be brief."))]] ++
     VObj [(lit "role", VStr (lit "tool")); (lit "content", VStr (lit "42"))] ::
     [VObj [(lit "role", VStr (lit "user")); (lit "content", VStr (lit "Why?"))]])
  = inr (lit "[SYSTEM] Be brief." ++ [10] ++ lit "[USER] Why?").
Proof.
  rewrite (proj1 (oss_input_other_roles
                    [VObj [(lit "role", VStr (lit "system"));
                           (lit "content", VStr (lit "Be brief."))]]
                    [VObj [(lit "role", VStr (lit "user"));
                           (lit "content", VStr (lit "Why?"))]]
                    (VObj [(lit "role", VStr (lit "tool"));
                           (lit "content", VStr (lit "42"))])
                    (VStr (lit "tool")) eq_refl
                    ltac:(discriminate) ltac:(discriminate) ltac:(discriminate))).
  vm_compute. reflexivity.
Defined.

(** ** processMultimodalMessages *)

Lemma eqb_refl (s : jsstring) : Str.eqb s s = true.
Proof. now apply eqb_eq. Qed.

Lemma lookup_replace (props : list (jsstring * value)) (k : jsstring) (v : value) :
  JSON.has_key props k = true -> lookup (JSON.replace props k v) k = v.
Proof.
  induction props as [|[k' v'] props IH]; [discriminate|].
  cbn [JSON.has_key JSON.replace].
  destruct (Str.eqb k k') eqn:E; cbn [orb lookup]; rewrite E; [reflexivity|].
  exact IH.
Qed.

Lemma lookup_insert_index (props : list (jsstring * value)) (i : Z)
  (k : jsstring) (v : value) :
  JSON.has_key props k = false -> lookup (JSON.insert_index props i k v) k = v.
Proof.
  induction props as [|[k' v'] props IH]; intros H.
  - cbn [JSON.insert_index lookup]. now rewrite eqb_refl.
  - cbn [JSON.has_key] in H. apply orb_false_iff in H as [E H].
    cbn [JSON.insert_index].
    destruct (JSON.array_index k') as [j|].
    + destruct (j <? i); cbn [lookup].
      * rewrite E. now apply IH.
      * now rewrite eqb_refl.
    + cbn [lookup]. now rewrite eqb_refl.
Qed.

Lemma lookup_app_new (props : list (jsstring * value)) (k : jsstring) (v : value) :
  JSON.has_key props k = false -> lookup (props ++ [(k, v)]) k = v.
Proof.
  induction props as [|[k' v'] props IH]; intros H.
  - cbn [app lookup]. now rewrite eqb_refl.
  - cbn [JSON.has_key] in H. apply orb_false_iff in H as [E H].
    cbn [app lookup]. rewrite E. now apply IH.
Qed.

(** A property that was defined is the one that is read. *)
Lemma lookup_define (props : list (jsstring * value)) (k : jsstring) (v : value) :
  lookup (JSON.define props k v) k = v.
Proof.
  unfold JSON.define. destruct (JSON.has_key props k) eqn:H.
  - now apply lookup_replace.
  - destruct (JSON.array_index k).
    + now apply lookup_insert_index.
    + now apply lookup_app_new.
Qed.

Lemma Get_spread_with (object : value) (k : jsstring) (v : value) :
  Get (spread_with object k v) k = Some v.
Proof.
  unfold spread_with.
  destruct object; cbn [Get lookup]; rewrite ?eqb_refl; try reflexivity.
  now rewrite lookup_define.
Qed.

Lemma all_fulfilled_map {A B : Type} (f : A -> option B) (l : list A)
  (r : list B) :
  all_fulfilled (map f l) = Some r -> Forall2 (fun x y => f x = Some y) l r.
Proof.
  revert r; induction l as [|x l IH]; intros r H; cbn [map all_fulfilled] in H.
  - injection H as <-. constructor.
  - destruct (f x) as [y|] eqn:E; [|discriminate].
    destruct (all_fulfilled (map f l)) as [ys|]; [|discriminate].
    injection H as <-. constructor; [assumption|now apply IH].
Qed.

Section MultimodalFacts.

Variable convert : jsstring -> option jsstring.

Lemma processItem_sound (item processed : value) :
  processItem convert item = Some processed ->
  inline_image convert processed /\
  (processed = item \/ exists props, processed = VObj props).
Proof.
  unfold processItem, inline_image, item_url.
  destruct (Get item (lit "type")) as [type|] eqn:T; [|discriminate].
  destruct (is_string type (lit "text")) eqn:Tx.
  { intros H. injection H as <-. apply is_string_eq in Tx. subst type.
    split; [rewrite T; discriminate|now left]. }
  destruct (is_string type (lit "image_url")) eqn:Ti.
  2:{ intros H. injection H as <-. split; [|now left].
      rewrite T. intros E. injection E as ->. discriminate Ti. }
  destruct (Get item (lit "image_url")) as [image_url|] eqn:I; [|discriminate].
  destruct (OptGet image_url (lit "url")) as [| |b|n|url|its|props] eqn:U;
    try discriminate.
  destruct (startsWith url (lit "data:")) eqn:D.
  { intros H. injection H as <-. split; [|now left].
    intros _. exists url. rewrite I. split; [exact U|now left]. }
  destruct (startsWith url (lit "http")) eqn:Hp; [|discriminate].
  destruct (convert url) as [dataUrl|] eqn:C; [|discriminate].
  intros H. injection H as <-. split; [|right; eexists; reflexivity].
  intros _. exists dataUrl. split; [reflexivity|].
  right. exists url. now split.
Qed.

Lemma processItems_sound (items processed : list value) :
  all_fulfilled (map (processItem convert) items) = Some processed ->
  Forall (inline_image convert) processed.
Proof.
  intros H. apply all_fulfilled_map in H.
  induction H as [|x y l r E F IH]; constructor; [|assumption].
  now apply (processItem_sound x y).
Qed.

Lemma processMessage_sound (message processed : value) :
  processMessage convert message = Some processed ->
  (forall s, Get message (lit "content") = Some (VStr s) -> processed = message) /\
  (forall content,
     Get processed (lit "content") = Some content ->
     match content with
     | VArr items => Forall (inline_image convert) items
     | _ => inline_image convert content
     end).
Proof.
  unfold processMessage.
  destruct (Get message (lit "content")) as [content|] eqn:G; [|discriminate].
  assert (Plain : forall c, (forall props, c <> VObj props) ->
                            inline_image convert c).
  { intros c NO. unfold inline_image.
    destruct c as [| |b|n|s|items|props]; try discriminate.
    now elim (NO props). }
  destruct content as [| |b|n|s|items|props].
  1-5: intros H; injection H as <-; (split; [reflexivity|]);
       intros c; rewrite G; intros E; injection E as <-;
       apply Plain; discriminate.
  - destruct (all_fulfilled (map (processItem convert) items)) as [ps|] eqn:A;
      [|discriminate].
    intros H. injection H as <-. split; [discriminate|].
    intros c. rewrite Get_spread_with. intros E. injection E as <-.
    now apply (processItems_sound items).
  - destruct (processItem convert (VObj props)) as [p|] eqn:P; [|discriminate].
    intros H. injection H as <-. split; [discriminate|].
    intros c. rewrite Get_spread_with. intros E. injection E as <-.
    destruct (processItem_sound _ _ P) as [S [->|[ps ->]]]; exact S.
Qed.

(** X18. When [processMultimodalMessages] succeeds it returns as many
    messages, in the same order; a message whose content is a string is
    returned as it is; and every item of type [image_url] in the content
    of a returned message carries a URL that starts with [data:], or
    that the converter returned for a URL starting with [http]. An image
    with any other URL makes the call fail, so none reaches the
    model. *)
Theorem processMultimodalMessages_sound (messages processed : list value) :
  processMultimodalMessages convert messages = Some processed ->
  Forall2
    (fun message result =>
       (forall s, Get message (lit "content") = Some (VStr s) ->
                  result = message) /\
       (forall content,
          Get result (lit "content") = Some content ->
          match content with
          | VArr items => Forall (inline_image convert) items
          | _ => inline_image convert content
          end))
    messages processed.
Proof.
  intros H. apply all_fulfilled_map in H.
  induction H as [|m r l rs E F IH]; constructor; [|assumption].
  now apply processMessage_sound.
Qed.

End MultimodalFacts.

(** A remote image is replaced by its data URL; its [detail] is lost. *)
Lemma processMultimodalMessages_sound_witness :
  Forall2
    (fun message result =>
       (forall s, Get message (lit "content") = Some (VStr s) ->
                  result = message) /\
       (forall content,
          Get result (lit "content") = Some content ->
          match content with
          | VArr items => Forall (inline_image convert0) items
          | _ => inline_image convert0 content
          end))
    multimodal_messages multimodal_processed.
Proof.
  exact (processMultimodalMessages_sound convert0 multimodal_messages
           multimodal_processed ltac:(vm_compute; reflexivity)).
Defined.
